(** * express-openapi-decorators: decorators.mts, verified against its specification

    A shallow embedding of [decorators.mts]: the nine decorators and the
    annotation store they fill, [registerControllers], [getOpenAPISchema]
    with its inline path translation, [nameToSchemaRef],
    [generateSchemaDefinitions] with its local [fixSchema], and the table
    [defaultResponses].

    Modelling conventions.
    - A JavaScript string is a [string]; the regular expressions of the
      source only tell ASCII characters apart.
    - A JavaScript [Map] is an association list in insertion order
      ([Map_set] on a present key keeps its position).
    - A plain object is a list of own properties in the order [Object.keys]
      lists them.  Properties inherited from [Object.prototype] are outside
      the model, and so is the rule that canonical array-index keys are
      listed first; no statement below depends on the order of the keys of
      an object built by the code.
    - Every array and object of a JSON value carries its identity
      ([owner]): [Held l] for an object the caller already holds (the base
      document, an annotation argument, a derived schema), [Fresh] for one
      the modelled call allocates, [Static] for one of the module's own
      table [defaultResponses].  Two nodes [Held l] with the same [l] are
      the same object seen twice.
    - A [throw] is an [Err] of the result type; the constructors of [Error]
      follow the error taxonomy of the specification. *)

From Stdlib Require Import String Ascii List ZArith Lia Bool Arith.
From Stdlib Require Import DecimalString DecimalPos DecimalZ.
Import ListNotations.
Open Scope string_scope.
Open Scope list_scope.

Set Implicit Arguments.
Set Warnings "-register-all".

(* ------------------------------------------------------------------ *)
(** ** Errors and the result monad *)

Inductive Error :=
| UnsupportedTarget        (* 'This decorator can only be used on ...' *)
| MetadataUnavailable      (* '... decorator metadata support' / 'Symbol.metadata is missing' *)
| DuplicateAnnotation      (* 'This decorator may be applied at most once per method.' *)
| DuplicatePathMethod (method oaPath : string)
                           (* `Duplicate path definition found for '${method} ${oaPath}'` *)
| TypeError (what : string)  (* raised by the JavaScript runtime itself *)
| Foreign (what : string)    (* thrown by a collaborator *)
| SchemaDerivationFailure.   (* 'Could not generate components.schemas ...' *)

Inductive result (A : Type) :=
| Ok (a : A)
| Err (e : Error).
Arguments Ok {A} a.
Arguments Err {A} e.

Definition bind {A B} (m : result A) (f : A -> result B) : result B :=
  match m with
  | Ok a => f a
  | Err e => Err e
  end.

Notation "x <- m ;; k" := (bind m (fun x => k))
  (at level 61, m at next level, right associativity).

(** [for (const x of xs) body] over a state that is passed along; the first
    [throw] leaves the loop. *)
Fixpoint forM {A S} (xs : list A) (body : A -> S -> result S) (s : S) : result S :=
  match xs with
  | [] => Ok s
  | x :: xs' => s' <- body x s ;; forM xs' body s'
  end.

(* ------------------------------------------------------------------ *)
(** ** Objects as property lists *)

Section Props.
Variable V : Type.

(** [o[k]], [None] standing for an absent own property. *)
Fixpoint prop_get (k : string) (o : list (string * V)) : option V :=
  match o with
  | [] => None
  | (k', v) :: o' => if String.eqb k k' then Some v else prop_get k o'
  end.

(** [o[k] = v]. *)
Fixpoint prop_set (k : string) (v : V) (o : list (string * V)) : list (string * V) :=
  match o with
  | [] => [(k, v)]
  | (k', v') :: o' =>
      if String.eqb k k' then (k, v) :: o' else (k', v') :: prop_set k v o'
  end.
End Props.

(* ------------------------------------------------------------------ *)
(** ** JSON values with object identity *)

Inductive owner :=
| Fresh
| Held (l : nat)
| Static.

Inductive json :=
| JUndef
| JNull
| JBool (b : bool)
| JNum (z : Z)
| JStr (s : string)
| JArr (o : owner) (xs : list json)
| JObj (o : owner) (fs : list (string * json)).

(** [v ?? w] tests for [undefined] and [null]. *)
Definition nullish (v : json) : bool :=
  match v with
  | JUndef | JNull => true
  | _ => false
  end.

(** ToBoolean. *)
Definition truthy (v : json) : bool :=
  match v with
  | JUndef | JNull => false
  | JBool b => b
  | JNum z => negb (Z.eqb z 0)
  | JStr s => negb (String.eqb s "")
  | JArr _ _ | JObj _ _ => true
  end.

(** [v[k]] on a value: a property of an object, [undefined] elsewhere. *)
Definition get (k : string) (v : json) : json :=
  match v with
  | JObj _ fs => match prop_get k fs with Some x => x | None => JUndef end
  | _ => JUndef
  end.

(** [structuredClone]: every array and object of the copy is a new one. *)
Fixpoint structuredClone (v : json) : json :=
  match v with
  | JArr _ xs => JArr Fresh (map structuredClone xs)
  | JObj _ fs => JObj Fresh (map (fun kv => match kv with (k, x) => (k, structuredClone x) end) fs)
  | _ => v
  end.

Definition held_of (o : owner) : list nat :=
  match o with
  | Held l => [l]
  | Fresh | Static => []
  end.

(** The caller-held objects reachable from a value. *)
Fixpoint held (v : json) : list nat :=
  match v with
  | JArr o xs => held_of o ++ flat_map held xs
  | JObj o fs => held_of o ++ flat_map (fun kv => held (snd kv)) fs
  | _ => []
  end.

Definition owner_is (l : nat) (o : owner) : bool :=
  match o with
  | Held l' => Nat.eqb l l'
  | Fresh | Static => false
  end.

(** What [o[k] = x], done on the caller-held object [l], does to a value
    in which that object may occur. *)
Fixpoint write (l : nat) (k : string) (x : json) (v : json) : json :=
  match v with
  | JArr o xs => JArr o (map (write l k x) xs)
  | JObj o fs =>
      let fs' := map (fun kv => match kv with (k', y) => (k', write l k x y) end) fs in
      JObj o (if owner_is l o then prop_set k x fs' else fs')
  | _ => v
  end.

(* ------------------------------------------------------------------ *)
(** ** Regular expressions

    A backtracking matcher with the priorities of the JavaScript engine:
    the left alternative first, as many repetitions as possible first.
    The matcher is written in continuation-passing style: [k] is what
    remains to be matched after the expression, and a [None] from it makes
    the expression try its next possibility. *)

Inductive regex :=
| Chr (p : ascii -> bool)        (* one character of a class *)
| Cat (r1 r2 : regex)            (* r1 r2 *)
| Alt (r1 r2 : regex)            (* r1|r2 *)
| Plus (r : regex)               (* r+ *)
| Opt (r : regex)                (* r? *)
| Cap (i : nat) (r : regex)      (* (r), the capture group number i *)
| Bol                            (* ^ *)
| Eol.                           (* $ *)

(** The capture groups that took part in the match. *)
Definition captures := list (nat * string).

Fixpoint capture (i : nat) (cs : captures) : option string :=
  match cs with
  | [] => None
  | (j, s) :: cs' => if Nat.eqb i j then Some s else capture i cs'
  end.

(** A match: the position after it, the rest of the input, the groups. *)
Definition matched := (nat * string * captures)%type.

(** What remains to be matched. *)
Definition cont := nat -> string -> captures -> option matched.

(** The repetition [r+], [step] being the matcher of [r]: one [r], then
    as many more as possible, one fewer whenever the rest fails.  A
    repetition that consumed nothing is not repeated; at most
    [String.length s] repetitions consume something, which bounds [n]. *)
Fixpoint plusLoop (step : nat -> string -> captures -> cont -> option matched) (k : cont)
         (n : nat) (pos : nat) (s : string) (cs : captures) : option matched :=
  match n with
  | O => None
  | S n' =>
      step pos s cs (fun pos' s' cs' =>
        match (if Nat.ltb pos pos' then plusLoop step k n' pos' s' cs' else None) with
        | Some m => Some m
        | None => k pos' s' cs'
        end)
  end.

Fixpoint run (r : regex) (pos : nat) (s : string) (cs : captures) (k : cont)
         {struct r} : option matched :=
  match r with
  | Chr p =>
      match s with
      | String c s' => if p c then k (S pos) s' cs else None
      | EmptyString => None
      end
  | Cat r1 r2 => run r1 pos s cs (fun pos' s' cs' => run r2 pos' s' cs' k)
  | Alt r1 r2 =>
      match run r1 pos s cs k with
      | Some m => Some m
      | None => run r2 pos s cs k
      end
  | Plus r1 => plusLoop (run r1) k (S (String.length s)) pos s cs
  | Opt r1 =>
      match run r1 pos s cs k with
      | Some m => Some m
      | None => k pos s cs
      end
  | Cap i r1 =>
      run r1 pos s cs (fun pos' s' cs' => k pos' s' ((i, substring 0 (pos' - pos) s) :: cs'))
  | Bol => if Nat.eqb pos 0 then k pos s cs else None
  | Eol =>
      match s with
      | EmptyString => k pos s cs
      | String _ _ => None
      end
  end.

(** One attempt of [r] at position [pos], where [s] is the input from
    there on. *)
Definition match_at (r : regex) (pos : nat) (s : string) : option matched :=
  run r pos s [] (fun pos' s' cs' => Some (pos', s', cs')).

(** The pieces a global scan cuts the input into: characters outside any
    match, and the matches. *)
Inductive piece :=
| Lit (c : ascii)
| Hit (cs : captures).

(** The scan of a regular expression with the [g] flag: the leftmost match
    from the current position, then on from the end of that match.
    [skip] counts the characters still inside the last match. *)
Fixpoint scan (r : regex) (skip pos : nat) (s : string) : list piece :=
  match s with
  | EmptyString =>
      match skip, match_at r pos s with
      | O, Some (_, _, cs) => [Hit cs]
      | _, _ => []
      end
  | String c s' =>
      match skip with
      | S n => scan r n (S pos) s'
      | O =>
          match match_at r pos s with
          | Some (pos', _, cs) =>
              if Nat.eqb pos' pos
              then Hit cs :: Lit c :: scan r 0 (S pos) s'
              else Hit cs :: scan r (pos' - pos - 1) (S pos) s'
          | None => Lit c :: scan r 0 (S pos) s'
          end
      end
  end.

(** [s.match(r)] for an expression without the [g] flag: the first
    position at which [r] matches. *)
Fixpoint search (r : regex) (pos : nat) (s : string) : option matched :=
  match match_at r pos s with
  | Some m => Some m
  | None =>
      match s with
      | EmptyString => None
      | String _ s' => search r (S pos) s'
      end
  end.

(** Character classes. *)
Definition between (lo hi c : ascii) : bool :=
  Nat.leb (nat_of_ascii lo) (nat_of_ascii c) && Nat.leb (nat_of_ascii c) (nat_of_ascii hi).

Definition isChar (c : ascii) : ascii -> bool := Ascii.eqb c.

(** [[a-zA-Z0-9_]] *)
Definition identChar (c : ascii) : bool :=
  between "a" "z" c || between "A" "Z" c || between "0" "9" c || isChar "_" c.

(** [[a-zA-Z0-9_|]] *)
Definition enumChar (c : ascii) : bool :=
  between "a" "z" c || between "A" "Z" c || between "0" "9" c || isChar "_" c || isChar "|" c.

(** [[^)]] *)
Definition notClose (c : ascii) : bool := negb (isChar ")" c).

(** [(?:\\\)|[^)])+], the body of a constraint pattern. *)
Definition patternBody : regex :=
  Plus (Alt (Cat (Chr (isChar "\")) (Chr (isChar ")"))) (Chr notClose)).

(** [/:([a-zA-Z0-9_]+)(?:\((?:\\\)|[^)])+\))?/g], line 441. *)
Definition oaPathRegex : regex :=
  Cat (Chr (isChar ":"))
      (Cat (Cap 1 (Plus (Chr identChar)))
           (Opt (Cat (Chr (isChar "(")) (Cat patternBody (Chr (isChar ")")))))).

(** [/:([a-zA-Z0-9_]+)(?:\(((?:\\\)|[^)])+)\))?/g], line 448. *)
Definition paramRegex : regex :=
  Cat (Chr (isChar ":"))
      (Cat (Cap 1 (Plus (Chr identChar)))
           (Opt (Cat (Chr (isChar "(")) (Cat (Cap 2 patternBody) (Chr (isChar ")")))))).

(** [/^[a-zA-Z0-9_|]+$/], line 449. *)
Definition enumRegex : regex :=
  Cat Bol (Cat (Plus (Chr enumChar)) Eol).

(** [$1] of a replacement string; a group that took no part gives the
    empty string. *)
Definition group1 (cs : captures) : string :=
  match capture 1 cs with
  | Some s => s
  | None => ""
  end.

Fixpoint unpieces (ps : list piece) (f : captures -> string) : string :=
  match ps with
  | [] => ""
  | Lit c :: ps' => String c (unpieces ps' f)
  | Hit cs :: ps' => f cs ++ unpieces ps' f
  end.

(** [s.replace(r, f)] for a global [r]. *)
Definition replace (r : regex) (f : captures -> string) (s : string) : string :=
  unpieces (scan r 0 0 s) f.

(** The matches a [while ((match = r.exec(s)) !== null)] loop sees, for
    an expression that matches no empty string. *)
Fixpoint hits (ps : list piece) : list captures :=
  match ps with
  | [] => []
  | Lit _ :: ps' => hits ps'
  | Hit cs :: ps' => cs :: hits ps'
  end.

Definition execAll (r : regex) (s : string) : list captures := hits (scan r 0 0 s).

(** [s.split(sep)] for a separator of one character. *)
Fixpoint split (sep : ascii) (s : string) : list string :=
  match s with
  | EmptyString => [""]
  | String c s' =>
      if Ascii.eqb c sep then "" :: split sep s'
      else match split sep s' with
           | [] => [String c ""]
           | w :: ws => String c w :: ws
           end
  end.

(* ------------------------------------------------------------------ *)
(** ** The annotation store *)

Inductive MethodMetadata := GET | POST | PUT | DELETE | HEAD | OPTIONS | PATCH | TRACE.

(** [method.toLowerCase()] *)
Definition toLowerCase (m : MethodMetadata) : string :=
  match m with
  | GET => "get" | POST => "post" | PUT => "put" | DELETE => "delete"
  | HEAD => "head" | OPTIONS => "options" | PATCH => "patch" | TRACE => "trace"
  end.

(** The keys of the per-kind maps: the sentinel of the class, or the name
    of a member, a string or a symbol. *)
Inductive PropertyKey :=
| CLASS_METADATA
| Name (s : string)
| Sym (n : nat).

Definition key_eqb (a b : PropertyKey) : bool :=
  match a, b with
  | CLASS_METADATA, CLASS_METADATA => true
  | Name s, Name t => String.eqb s t
  | Sym n, Sym m => Nat.eqb n m
  | _, _ => false
  end.

Section Maps.
Variable V : Type.

Definition Map := list (PropertyKey * V).

Fixpoint Map_get (k : PropertyKey) (m : Map) : option V :=
  match m with
  | [] => None
  | (k', v) :: m' => if key_eqb k k' then Some v else Map_get k m'
  end.

Definition Map_has (k : PropertyKey) (m : Map) : bool :=
  match Map_get k m with
  | Some _ => true
  | None => false
  end.

Fixpoint Map_set (k : PropertyKey) (v : V) (m : Map) : Map :=
  match m with
  | [] => [(k, v)]
  | (k', v') :: m' =>
      if key_eqb k k' then (k, v) :: m' else (k', v') :: Map_set k v m'
  end.

(** [map?.get(k)] on a map that may be missing. *)
Definition lookup (k : PropertyKey) (m : option Map) : option V :=
  match m with
  | Some m' => Map_get k m'
  | None => None
  end.
End Maps.

(** A function value, known by its identity only. *)
Definition Fn := nat.

Definition PathMetadata := string.
Definition MiddlewareMetadata := Fn.
Definition TagMetadata := string.
Definition SummaryMetadata := string.
Definition DescriptionMetadata := string.
Definition OperationIdMetadata := string.
(** [oas31.RequestBodyObject | string] *)
Definition RequestBodyMetadata := json.

(** [{ code, content, description, headers }]; an omitted [content] or
    [headers] is [JUndef], an omitted [description] is [None]. *)
Record ResponseMetadata := {
  r_code : Z;
  r_content : json;
  r_description : option string;
  r_headers : json
}.

(** [context.metadata], the object behind [Symbol.metadata] of the class:
    one map per annotation kind, missing until the kind is first used. *)
Record DecoratorMetadataObject := {
  METHOD : option (Map MethodMetadata);
  PATH : option (Map (list PathMetadata));
  MIDDLEWARE : option (Map (list MiddlewareMetadata));
  TAG : option (Map (list TagMetadata));
  SUMMARY : option (Map SummaryMetadata);
  DESCRIPTION : option (Map DescriptionMetadata);
  OPERATION_ID : option (Map OperationIdMetadata);
  REQUEST_BODY : option (Map RequestBodyMetadata);
  RESPONSE : option (Map (list ResponseMetadata))
}.

Definition emptyMetadata : DecoratorMetadataObject :=
  {| METHOD := None; PATH := None; MIDDLEWARE := None; TAG := None; SUMMARY := None;
     DESCRIPTION := None; OPERATION_ID := None; REQUEST_BODY := None; RESPONSE := None |}.

Definition set_METHOD (x : Map MethodMetadata) (md : DecoratorMetadataObject) :=
  {| METHOD := Some x; PATH := PATH md; MIDDLEWARE := MIDDLEWARE md; TAG := TAG md;
     SUMMARY := SUMMARY md; DESCRIPTION := DESCRIPTION md; OPERATION_ID := OPERATION_ID md;
     REQUEST_BODY := REQUEST_BODY md; RESPONSE := RESPONSE md |}.
Definition set_PATH (x : Map (list PathMetadata)) (md : DecoratorMetadataObject) :=
  {| METHOD := METHOD md; PATH := Some x; MIDDLEWARE := MIDDLEWARE md; TAG := TAG md;
     SUMMARY := SUMMARY md; DESCRIPTION := DESCRIPTION md; OPERATION_ID := OPERATION_ID md;
     REQUEST_BODY := REQUEST_BODY md; RESPONSE := RESPONSE md |}.
Definition set_MIDDLEWARE (x : Map (list MiddlewareMetadata)) (md : DecoratorMetadataObject) :=
  {| METHOD := METHOD md; PATH := PATH md; MIDDLEWARE := Some x; TAG := TAG md;
     SUMMARY := SUMMARY md; DESCRIPTION := DESCRIPTION md; OPERATION_ID := OPERATION_ID md;
     REQUEST_BODY := REQUEST_BODY md; RESPONSE := RESPONSE md |}.
Definition set_TAG (x : Map (list TagMetadata)) (md : DecoratorMetadataObject) :=
  {| METHOD := METHOD md; PATH := PATH md; MIDDLEWARE := MIDDLEWARE md; TAG := Some x;
     SUMMARY := SUMMARY md; DESCRIPTION := DESCRIPTION md; OPERATION_ID := OPERATION_ID md;
     REQUEST_BODY := REQUEST_BODY md; RESPONSE := RESPONSE md |}.
Definition set_SUMMARY (x : Map SummaryMetadata) (md : DecoratorMetadataObject) :=
  {| METHOD := METHOD md; PATH := PATH md; MIDDLEWARE := MIDDLEWARE md; TAG := TAG md;
     SUMMARY := Some x; DESCRIPTION := DESCRIPTION md; OPERATION_ID := OPERATION_ID md;
     REQUEST_BODY := REQUEST_BODY md; RESPONSE := RESPONSE md |}.
Definition set_DESCRIPTION (x : Map DescriptionMetadata) (md : DecoratorMetadataObject) :=
  {| METHOD := METHOD md; PATH := PATH md; MIDDLEWARE := MIDDLEWARE md; TAG := TAG md;
     SUMMARY := SUMMARY md; DESCRIPTION := Some x; OPERATION_ID := OPERATION_ID md;
     REQUEST_BODY := REQUEST_BODY md; RESPONSE := RESPONSE md |}.
Definition set_OPERATION_ID (x : Map OperationIdMetadata) (md : DecoratorMetadataObject) :=
  {| METHOD := METHOD md; PATH := PATH md; MIDDLEWARE := MIDDLEWARE md; TAG := TAG md;
     SUMMARY := SUMMARY md; DESCRIPTION := DESCRIPTION md; OPERATION_ID := Some x;
     REQUEST_BODY := REQUEST_BODY md; RESPONSE := RESPONSE md |}.
Definition set_REQUEST_BODY (x : Map RequestBodyMetadata) (md : DecoratorMetadataObject) :=
  {| METHOD := METHOD md; PATH := PATH md; MIDDLEWARE := MIDDLEWARE md; TAG := TAG md;
     SUMMARY := SUMMARY md; DESCRIPTION := DESCRIPTION md; OPERATION_ID := OPERATION_ID md;
     REQUEST_BODY := Some x; RESPONSE := RESPONSE md |}.
Definition set_RESPONSE (x : Map (list ResponseMetadata)) (md : DecoratorMetadataObject) :=
  {| METHOD := METHOD md; PATH := PATH md; MIDDLEWARE := MIDDLEWARE md; TAG := TAG md;
     SUMMARY := SUMMARY md; DESCRIPTION := DESCRIPTION md; OPERATION_ID := OPERATION_ID md;
     REQUEST_BODY := REQUEST_BODY md; RESPONSE := Some x |}.

(* ------------------------------------------------------------------ *)
(** ** The decorators (lines 22-299)

    A decorator is applied to a declaration site, described by its
    context; the application returns [context.metadata] as it has left
    it, or throws. *)

Inductive Kind := KClass | KMethod | KGetter | KSetter | KField | KAccessor.

Record DecoratorContext := {
  kind : Kind;
  name : PropertyKey;                          (* context.name of a member *)
  metadata : option DecoratorMetadataObject    (* context.metadata *)
}.

(** The two guards every decorator starts with. *)
Definition guards (onClass : bool) (context : DecoratorContext)
  : result DecoratorMetadataObject :=
  match kind context, onClass with
  | KClass, true | KMethod, _ =>
      match metadata context with
      | Some md => Ok md
      | None => Err MetadataUnavailable
      end
  | _, _ => Err UnsupportedTarget
  end.

(** [context.kind === 'class' ? CLASS_METADATA : context.name] *)
Definition site (context : DecoratorContext) : PropertyKey :=
  match kind context with
  | KClass => CLASS_METADATA
  | _ => name context
  end.

(** [context.metadata[K] ??= new Map()] followed by the [has]/[set] of a
    single-valued kind. *)
Definition setOnce {V} (m : option (Map V)) (key : PropertyKey) (v : V) : result (Map V) :=
  let map := match m with Some x => x | None => [] end in
  if Map_has key map then Err DuplicateAnnotation
  else Ok (Map_set key v map).

(** [context.metadata[K] ??= new Map()] followed by the [get], the [set]
    of an empty list where there was none, and the [push]. *)
Definition pushAll {V} (m : option (Map (list V))) (key : PropertyKey) (vs : list V)
  : Map (list V) :=
  let map := match m with Some x => x | None => [] end in
  match Map_get key map with
  | Some list => Map_set key (list ++ vs) map
  | None => Map_set key ([] ++ vs) map
  end.

Definition method (m : MethodMetadata) (context : DecoratorContext) :=
  md <- guards true context ;;
  map <- setOnce (METHOD md) (site context) m ;;
  Ok (set_METHOD map md).

Definition path (p : PathMetadata) (context : DecoratorContext) :=
  md <- guards true context ;;
  Ok (set_PATH (pushAll (PATH md) (site context) [p]) md).

Definition middleware (middlewares : list MiddlewareMetadata) (context : DecoratorContext) :=
  md <- guards true context ;;
  Ok (set_MIDDLEWARE (pushAll (MIDDLEWARE md) (site context) middlewares) md).

Definition tag (tags : list TagMetadata) (context : DecoratorContext) :=
  md <- guards true context ;;
  Ok (set_TAG (pushAll (TAG md) (site context) tags) md).

Definition summary (s : SummaryMetadata) (context : DecoratorContext) :=
  md <- guards false context ;;
  map <- setOnce (SUMMARY md) (name context) s ;;
  Ok (set_SUMMARY map md).

Definition description (d : DescriptionMetadata) (context : DecoratorContext) :=
  md <- guards false context ;;
  map <- setOnce (DESCRIPTION md) (name context) d ;;
  Ok (set_DESCRIPTION map md).

Definition operationId (i : OperationIdMetadata) (context : DecoratorContext) :=
  md <- guards false context ;;
  map <- setOnce (OPERATION_ID md) (name context) i ;;
  Ok (set_OPERATION_ID map md).

Definition requestBody (b : RequestBodyMetadata) (context : DecoratorContext) :=
  md <- guards false context ;;
  map <- setOnce (REQUEST_BODY md) (name context) b ;;
  Ok (set_REQUEST_BODY map md).

Definition response (code : Z) (content : json) (description : option string)
           (headers : json) (context : DecoratorContext) :=
  md <- guards true context ;;
  Ok (set_RESPONSE
        (pushAll (RESPONSE md) (site context)
                 [{| r_code := code; r_content := content;
                     r_description := description; r_headers := headers |}]) md).

(** The same site, seen by the next decorator applied to it. *)
Definition after (context : DecoratorContext) (md : DecoratorMetadataObject) :=
  {| kind := kind context; name := name context; metadata := Some md |}.

(* ------------------------------------------------------------------ *)
(** ** registerControllers (lines 330-372) *)

(** A controller instance: the metadata of its class, if any
    ([controller.constructor?.[Symbol.metadata]]), the functions its
    properties hold, and its own identity. *)
Record Controller := {
  classMetadata : option DecoratorMetadataObject;
  members : Map Fn;
  self : nat
}.

(** [f.bind(controller)] *)
Inductive Handler := Bound (f : Fn) (this : nat).

Record RegisteredControllerInfo := {
  info_method : MethodMetadata;
  info_path : PathMetadata;
  info_middlewares : list MiddlewareMetadata;
  info_handler : Handler
}.

(** A call [registrar[verb](path, ...middlewares, handler)].  The
    registrar is Express; all that is kept of it is the calls it received,
    in order. *)
Record Registration := {
  reg_verb : string;
  reg_path : string;
  reg_middlewares : list MiddlewareMetadata;
  reg_handler : Handler
}.

(** [Object | Object[]] *)
Inductive Controllers :=
| One (c : Controller)
| Many (cs : list Controller).

(** [Array.isArray(controllers) ? controllers : [controllers]] *)
Definition asArray (controllers : Controllers) : list Controller :=
  match controllers with
  | One c => [c]
  | Many cs => cs
  end.

Definition orElse {A} (o : option A) (d : A) : A :=
  match o with
  | Some a => a
  | None => d
  end.

(** The resolved routes so far, and the calls the registrar has received
    ([None]: no registrar, the calls are skipped by [?.]). *)
Definition RegisterState := (list RegisteredControllerInfo * option (list Registration))%type.

(** The body of the innermost loop, lines 355-366. *)
Definition registerRoute (controller : Controller) (md : DecoratorMetadataObject)
           (classMethod : MethodMetadata) (classMiddlewares : list MiddlewareMetadata)
           (handlerName : PropertyKey) (classPath methodPath : PathMetadata)
           (st : RegisterState) : result RegisterState :=
  let '(info, registrar) := st in
  let path := (classPath ++ methodPath)%string in
  let method := orElse (lookup handlerName (METHOD md)) classMethod in
  handler <- match Map_get handlerName (members controller) with
             | Some f => Ok (Bound f (self controller))
             | None => Err (TypeError "Cannot read properties of undefined (reading 'bind')")
             end ;;
  let middlewares := classMiddlewares ++ orElse (lookup handlerName (MIDDLEWARE md)) [] in
  let info := info ++ [{| info_method := method; info_path := path;
                          info_middlewares := middlewares; info_handler := handler |}] in
  let verb := toLowerCase method in
  let registrar :=
    match registrar with
    | Some calls => Some (calls ++ [{| reg_verb := verb; reg_path := path;
                                       reg_middlewares := middlewares; reg_handler := handler |}])
    | None => None
    end in
  Ok (info, registrar).

(** The body of the loop over the controllers, lines 339-369. *)
Definition registerController (controller : Controller) (st : RegisterState)
  : result RegisterState :=
  match classMetadata controller with
  | None => Ok st
  | Some md =>
      match PATH md with
      | None | Some [] => Ok st
      | Some pathMap =>
          let classPaths := orElse (Map_get CLASS_METADATA pathMap) [""] in
          let classMethod := orElse (lookup CLASS_METADATA (METHOD md)) GET in
          let classMiddlewares := orElse (lookup CLASS_METADATA (MIDDLEWARE md)) [] in
          forM pathMap (fun entry =>
            let '(handlerName, methodPaths) := entry in
            if key_eqb handlerName CLASS_METADATA then Ok
            else
              forM classPaths (fun classPath =>
                forM methodPaths (fun methodPath =>
                  registerRoute controller md classMethod classMiddlewares
                                handlerName classPath methodPath))) st
      end
  end.

(** [symbolMetadata] tells whether [Symbol.metadata] is there. *)
Definition registerControllers (symbolMetadata : bool)
           (registrar : option (list Registration)) (controllers : Controllers)
  : result RegisterState :=
  if negb symbolMetadata then Err MetadataUnavailable
  else forM (asArray controllers) registerController ([], registrar).

(* ------------------------------------------------------------------ *)
(** ** Helpers and tables (lines 559-571, 636-705) *)

(** [name.endsWith('[]')] *)
Definition endsWithBrackets (name : string) : bool :=
  Nat.leb 2 (String.length name)
  && String.eqb (substring (String.length name - 2) 2 name) "[]".

Definition nameToSchemaRef (name : string) : json :=
  if endsWithBrackets name then
    JObj Fresh
      [("type", JStr "array");
       ("items", JObj Fresh
          [("$ref", JStr ("#/components/schemas/"
                          ++ substring 0 (String.length name - 2) name))])]
  else
    JObj Fresh [("$ref", JStr ("#/components/schemas/" ++ name))].

(** An entry of [defaultResponses]; [None] where it has no [content]. *)
Record DefaultResponse := {
  default_description : string;
  default_content : option json
}.

Definition textPlain (schema : list (string * json)) : json :=
  JObj Static [("text/plain", JObj Static [("schema", JObj Static schema)])].

Definition defaultResponses : list (string * DefaultResponse) :=
  [("200", {| default_description := "Successful request";
              default_content := Some (textPlain [("type", JStr "string")]) |});
   ("204", {| default_description := "Successful request, no content to return";
              default_content := None |});
   ("400", {| default_description := "Bad request";
              default_content :=
                Some (textPlain [("type", JStr "string"); ("example", JStr "Bad Request")]) |});
   ("401", {| default_description := "Unauthorized";
              default_content :=
                Some (textPlain [("type", JStr "string"); ("example", JStr "Unauthorized")]) |});
   ("403", {| default_description := "Forbidden";
              default_content :=
                Some (textPlain [("type", JStr "string"); ("example", JStr "Forbidden")]) |});
   ("404", {| default_description := "Not found";
              default_content :=
                Some (textPlain [("type", JStr "string"); ("example", JStr "Not Found")]) |});
   ("500", {| default_description := "Internal server error";
              default_content :=
                Some (textPlain [("type", JStr "string");
                                 ("example", JStr "Internal Server Error")]) |})].

(** [String(code)] for an integer status code. *)
Definition String_of_code (code : Z) : string :=
  NilZero.string_of_int (Z.to_int code).

(** [[...new Set(xs)]]: the first occurrence of each element, in order. *)
Fixpoint dedupe (seen xs : list string) : list string :=
  match xs with
  | [] => []
  | x :: xs' =>
      if existsb (String.eqb x) seen then dedupe seen xs'
      else x :: dedupe (x :: seen) xs'
  end.

(* ------------------------------------------------------------------ *)
(** ** The path translator (lines 441, 447-467) *)

Definition oaPathOf (path : string) : string :=
  replace oaPathRegex (fun cs => ("{" ++ group1 cs ++ "}")%string) path.

(** The [schema] of a path parameter, lines 457-462. *)
Definition parameterSchema (pattern : option string) : json :=
  match pattern with
  | Some pattern =>
      if negb (String.eqb pattern "") then
        match search enumRegex 0 pattern with
        | Some _ =>
            JObj Fresh [("type", JStr "string");
                        ("enum", JArr Fresh (map JStr (split "|" pattern)))]
        | None =>
            JObj Fresh [("type", JStr "string"); ("pattern", JStr pattern)]
        end
      else JObj Fresh [("type", JStr "string")]
  | None => JObj Fresh [("type", JStr "string")]
  end.

(** The descriptor pushed for one match of [paramRegex], lines 452-463. *)
Definition parameterOf (cs : captures) : json :=
  JObj Fresh
    [("name", match capture 1 cs with Some name => JStr name | None => JUndef end);
     ("in", JStr "path");
     ("required", JBool true);
     ("schema", parameterSchema (capture 2 cs))].

Definition parametersOf (path : string) : list json :=
  map parameterOf (execAll paramRegex path).

(* ------------------------------------------------------------------ *)
(** ** getOpenAPISchema (lines 401-555) *)

(** The document, as far as its declared type [oas31.OpenAPIObject] is
    used: [paths] is an object of path items, which are objects;
    [components.schemas] is an object; everything else is kept as it is. *)
Record PathItemObject := {
  item_owner : owner;
  item_props : list (string * json)
}.

Record PathsObject := {
  paths_owner : owner;
  paths_items : list (string * PathItemObject)
}.

Record SchemasObject := {
  schemas_owner : owner;
  schemas_props : list (string * json)
}.

Record ComponentsObject := {
  components_owner : owner;
  co_schemas : option SchemasObject;
  co_rest : list (string * json)
}.

Record OpenAPIObject := {
  doc_owner : owner;
  oa_paths : option PathsObject;
  oa_components : option ComponentsObject;
  oa_rest : list (string * json)
}.

Definition cloneProps (fs : list (string * json)) : list (string * json) :=
  map (fun kv => match kv with (k, x) => (k, structuredClone x) end) fs.

Definition clonePathItem (i : PathItemObject) : PathItemObject :=
  {| item_owner := Fresh; item_props := cloneProps (item_props i) |}.

Definition clonePaths (p : PathsObject) : PathsObject :=
  {| paths_owner := Fresh;
     paths_items := map (fun kv => match kv with (k, i) => (k, clonePathItem i) end)
                        (paths_items p) |}.

Definition cloneSchemas (s : SchemasObject) : SchemasObject :=
  {| schemas_owner := Fresh; schemas_props := cloneProps (schemas_props s) |}.

Definition cloneComponents (c : ComponentsObject) : ComponentsObject :=
  {| components_owner := Fresh;
     co_schemas := option_map cloneSchemas (co_schemas c);
     co_rest := cloneProps (co_rest c) |}.

(** [structuredClone(baseOpenAPISchema)] *)
Definition cloneDocument (d : OpenAPIObject) : OpenAPIObject :=
  {| doc_owner := Fresh;
     oa_paths := option_map clonePaths (oa_paths d);
     oa_components := option_map cloneComponents (oa_components d);
     oa_rest := cloneProps (oa_rest d) |}.

(** The typed parts of a document as plain values. *)
Definition pathItemJson (i : PathItemObject) : json :=
  JObj (item_owner i) (item_props i).

Definition pathsJson (p : PathsObject) : json :=
  JObj (paths_owner p)
       (map (fun kv => match kv with (k, i) => (k, pathItemJson i) end) (paths_items p)).

Definition schemasJson (s : SchemasObject) : json :=
  JObj (schemas_owner s) (schemas_props s).

Definition componentsJson (c : ComponentsObject) : json :=
  JObj (components_owner c)
       (match co_schemas c with
        | Some s => [("schemas", schemasJson s)]
        | None => []
        end ++ co_rest c).

Definition documentJson (d : OpenAPIObject) : json :=
  JObj (doc_owner d)
       (match oa_paths d with Some p => [("paths", pathsJson p)] | None => [] end
        ++ match oa_components d with Some c => [("components", componentsJson c)] | None => [] end
        ++ oa_rest d).

(** [{ schema: nameToSchemaRef(v) }] in the place of a string [v], lines
    519-521. *)
Definition expandShorthand (v : json) : json :=
  match v with
  | JStr s => JObj Fresh [("schema", nameToSchemaRef s)]
  | _ => v
  end.

(** One turn of the loop over the response tuples, lines 505-529: the
    key and the entry assigned to [oaResponses]. *)
Definition responseEntry (r : ResponseMetadata) : result (string * json) :=
  let codeStr := String_of_code (r_code r) in
  userContent <-
    (if nullish (r_content r) then
       match prop_get codeStr defaultResponses with
       | Some d => Ok (orElse (default_content d) JUndef)
       | None =>
           Err (TypeError "Cannot use 'in' operator to search for 'content' in undefined")
       end
     else Ok (r_content r)) ;;
  let userContent :=
    match userContent with
    | JStr s => JObj Fresh [("application/json", JObj Fresh [("schema", nameToSchemaRef s)])]
    | _ =>
        if truthy userContent then
          match structuredClone userContent with
          | JObj o fs =>
              JObj o (map (fun kv => match kv with (mediaType, v) =>
                                       (mediaType, expandShorthand v) end) fs)
          | JArr o xs => JArr o (map expandShorthand xs)
          | v => v
          end
        else userContent
    end in
  let description :=
    match r_description r with
    | Some d => d
    | None =>
        match prop_get codeStr defaultResponses with
        | Some d => default_description d
        | None => "Response"
        end
    end in
  Ok (codeStr,
      JObj Fresh [("description", JStr description);
                  ("content", userContent);
                  ("headers", r_headers r)]).

(** The loop of lines 503-531 over [oaResponses]. *)
Definition foldResponses (responses : list ResponseMetadata)
  : result (list (string * json)) :=
  forM responses
       (fun r oaResponses =>
          e <- responseEntry r ;;
          Ok (prop_set (fst e) (snd e) oaResponses))
       [].

Definition nonEmpty (s : string) : bool := negb (String.eqb s "").

(** The operation object filled by lines 472-533. *)
Definition operationOf (md : DecoratorMetadataObject) (classTags : list TagMetadata)
           (classRequestBody : json) (classResponses : list ResponseMetadata)
           (handlerName : PropertyKey) : result json :=
  let oaOperation : list (string * json) := [] in
  let tags := dedupe [] (classTags ++ orElse (lookup handlerName (TAG md)) []) in
  let oaOperation :=
    match tags with
    | [] => oaOperation
    | _ => prop_set "tags" (JArr Fresh (map JStr tags)) oaOperation
    end in
  let oaOperation :=
    match lookup handlerName (SUMMARY md) with
    | Some summary =>
        if nonEmpty summary then prop_set "summary" (JStr summary) oaOperation
        else oaOperation
    | None => oaOperation
    end in
  let oaOperation :=
    match lookup handlerName (DESCRIPTION md) with
    | Some description =>
        if nonEmpty description then prop_set "description" (JStr description) oaOperation
        else oaOperation
    | None => oaOperation
    end in
  let byName :=
    match handlerName with
    | Name s => prop_set "operationId" (JStr s) oaOperation
    | _ => oaOperation
    end in
  let oaOperation :=
    match lookup handlerName (OPERATION_ID md) with
    | Some methodOperationId =>
        if nonEmpty methodOperationId
        then prop_set "operationId" (JStr methodOperationId) oaOperation
        else byName
    | None => byName
    end in
  let requestBody :=
    match lookup handlerName (REQUEST_BODY md) with
    | Some b => if nullish b then classRequestBody else b
    | None => classRequestBody
    end in
  let oaOperation :=
    match requestBody with
    | JStr s =>
        prop_set "requestBody"
          (JObj Fresh
             [("content", JObj Fresh
                 [("application/json", JObj Fresh [("schema", nameToSchemaRef s)])]);
              ("required", JBool true)])
          oaOperation
    | _ =>
        if truthy requestBody then prop_set "requestBody" requestBody oaOperation
        else oaOperation
    end in
  let responses := classResponses ++ orElse (lookup handlerName (RESPONSE md)) [] in
  match responses with
  | [] => Ok (JObj Fresh oaOperation)
  | _ =>
      oaResponses <- foldResponses responses ;;
      Ok (JObj Fresh (prop_set "responses" (JObj Fresh oaResponses) oaOperation))
  end.

(** The body of the innermost loop, lines 437-533, on [openapi.paths]. *)
Definition addOperation (md : DecoratorMetadataObject) (classMethod : MethodMetadata)
           (classTags : list TagMetadata) (classRequestBody : json)
           (classResponses : list ResponseMetadata)
           (handlerName : PropertyKey) (classPath methodPath : PathMetadata)
           (paths : PathsObject) : result PathsObject :=
  let path := (classPath ++ methodPath)%string in
  let method := toLowerCase (orElse (lookup handlerName (METHOD md)) classMethod) in
  let oaPath := oaPathOf path in
  let oaPathItem :=
    match prop_get oaPath (paths_items paths) with
    | Some item => item
    | None =>
        let parameters := parametersOf path in
        {| item_owner := Fresh;
           item_props :=
             match parameters with
             | [] => []
             | _ => [("parameters", JArr Fresh parameters)]
             end |}
    end in
  if truthy (orElse (prop_get method (item_props oaPathItem)) JUndef)
  then Err (DuplicatePathMethod method oaPath)
  else
    oaOperation <- operationOf md classTags classRequestBody classResponses handlerName ;;
    Ok {| paths_owner := paths_owner paths;
          paths_items :=
            prop_set oaPath
              {| item_owner := item_owner oaPathItem;
                 item_props := prop_set method oaOperation (item_props oaPathItem) |}
              (paths_items paths) |}.

(** The body of the loop over the controllers, lines 414-536. *)
Definition describeController (controller : Controller) (paths : PathsObject)
  : result PathsObject :=
  match classMetadata controller with
  | None => Ok paths
  | Some md =>
      match PATH md with
      | None | Some [] => Ok paths
      | Some pathMap =>
          let classPaths := orElse (Map_get CLASS_METADATA pathMap) [""] in
          let classMethod := orElse (lookup CLASS_METADATA (METHOD md)) GET in
          let classTags := orElse (lookup CLASS_METADATA (TAG md)) [] in
          let classRequestBody := orElse (lookup CLASS_METADATA (REQUEST_BODY md)) JUndef in
          let classReponses := orElse (lookup CLASS_METADATA (RESPONSE md)) [] in
          forM pathMap (fun entry =>
            let '(handlerName, methodPaths) := entry in
            if key_eqb handlerName CLASS_METADATA then Ok
            else
              forM classPaths (fun classPath =>
                forM methodPaths (fun methodPath =>
                  addOperation md classMethod classTags classRequestBody classReponses
                               handlerName classPath methodPath))) paths
      end
  end.

(** [string | string[]] *)
Inductive Pattern :=
| PString (s : string)
| PArray (l : list string).

Definition patternTruthy (p : option Pattern) : bool :=
  match p with
  | Some (PString s) => nonEmpty s
  | Some (PArray _) => true
  | None => false
  end.

(** [Object.assign(target, source)] *)
Definition assign (target source : list (string * json)) : list (string * json) :=
  fold_left (fun t kv => prop_set (fst kv) (snd kv) t) source target.

(** Lines 541-548: the derived schemas merged into the document. *)
Definition mergeSchemas (componentSchemas : list (string * json)) (openapi : OpenAPIObject)
  : OpenAPIObject :=
  match componentSchemas with
  | [] => openapi
  | _ =>
      let components :=
        orElse (oa_components openapi)
               {| components_owner := Fresh; co_schemas := None; co_rest := [] |} in
      let schemas :=
        orElse (co_schemas components) {| schemas_owner := Fresh; schemas_props := [] |} in
      {| doc_owner := doc_owner openapi;
         oa_paths := oa_paths openapi;
         oa_components :=
           Some {| components_owner := components_owner components;
                   co_schemas :=
                     Some {| schemas_owner := schemas_owner schemas;
                             schemas_props := assign (schemas_props schemas) componentSchemas |};
                   co_rest := co_rest components |};
         oa_rest := oa_rest openapi |}
  end.

Section Synthesis.
(** What [generateSchemaDefinitions(pattern)] returns, the schemas as
    trees; the function itself is modelled on a heap in [Module Schema],
    and [Schema.schemasOf] gives its result in this form. *)
Variable derivedSchemas : Pattern -> result (list (string * json)).

Definition getOpenAPISchema (symbolMetadata : bool) (baseOpenAPISchema : OpenAPIObject)
           (controllers : Controllers) (componentsPattern : option Pattern)
  : result OpenAPIObject :=
  if negb symbolMetadata then Err MetadataUnavailable
  else
    let openapi := cloneDocument baseOpenAPISchema in
    let paths := orElse (oa_paths openapi) {| paths_owner := Fresh; paths_items := [] |} in
    paths <- forM (asArray controllers) describeController paths ;;
    let openapi :=
      {| doc_owner := doc_owner openapi; oa_paths := Some paths;
         oa_components := oa_components openapi; oa_rest := oa_rest openapi |} in
    if patternTruthy componentsPattern then
      match componentsPattern with
      | Some pattern =>
          match derivedSchemas pattern with
          | Ok componentSchemas => Ok (mergeSchemas componentSchemas openapi)
          | Err _ => Err SchemaDerivationFailure
          end
      | None => Ok openapi
      end
    else Ok openapi.
End Synthesis.

(* ------------------------------------------------------------------ *)
(** ** generateSchemaDefinitions and fixSchema (lines 573-634)

    [fixSchema] rewrites the schema in place and stores the very objects
    of the definitions table where it finds references to them, so that
    one object comes to be reachable along several paths.  It is modelled
    on a heap: objects and arrays live at locations, and values refer to
    them. *)

Module Schema.

Definition loc := nat.

Inductive value :=
| Undefined
| Null
| Bool (b : bool)
| Num (z : Z)
| Str (s : string)
| Ref (l : loc).

Inductive object :=
| Arr (items : list value)
| Obj (props : list (string * value)).   (* in the order of Object.keys *)

(** The object at location [l] is the [l]-th of the heap. *)
Definition heap := list object.

Definition load (l : loc) (h : heap) : option object := nth_error h l.

Fixpoint store (l : loc) (o : object) (h : heap) : heap :=
  match h, l with
  | [], _ => []
  | _ :: h', O => o :: h'
  | x :: h', S l' => x :: store l' o h'
  end.

Definition alloc (o : object) (h : heap) : loc * heap := (List.length h, h ++ [o]).

(** [v[k]] for a property name [k]. *)
Definition read (v : value) (k : string) (h : heap) : value :=
  match v with
  | Ref l =>
      match load l h with
      | Some (Obj props) => orElse (prop_get k props) Undefined
      | _ => Undefined
      end
  | _ => Undefined
  end.

(** [delete o[k]] *)
Fixpoint prop_delete (k : string) (props : list (string * value)) : list (string * value) :=
  match props with
  | [] => []
  | (k', v) :: props' =>
      if String.eqb k k' then props' else (k', v) :: prop_delete k props'
  end.

(** [s.startsWith(prefix)], and what is left of [s] after the prefix. *)
Fixpoint stripPrefix (prefix s : string) : option string :=
  match prefix, s with
  | EmptyString, _ => Some s
  | String a prefix', String b s' =>
      if Ascii.eqb a b then stripPrefix prefix' s' else None
  | String _ _, EmptyString => None
  end.

(** [target.$ref?.startsWith?.('#/definitions/')], and for a reference
    of that form [target.$ref.replace('#/definitions/', '')]. *)
Definition internalRef (target : loc) (h : heap) : option string :=
  match read (Ref target) "$ref" h with
  | Str s => stripPrefix "#/definitions/" s
  | _ => None
  end.

(** ['const' in target] and, where it holds,
    [target.enum = [target.const]; delete target.const]. *)
Definition constToEnum (target : loc) (h : heap) : heap :=
  match load target h with
  | Some (Obj props) =>
      match prop_get "const" props with
      | Some c =>
          let '(a, h) := alloc (Arr [c]) h in
          store target (Obj (prop_delete "const" (prop_set "enum" (Ref a) props))) h
      | None => h
      end
  | _ => h
  end.

Fixpoint replaceNth (i : nat) (v : value) (items : list value) : list value :=
  match items, i with
  | [], _ => []
  | _ :: items', O => v :: items'
  | x :: items', S i' => x :: replaceNth i' v items'
  end.

(** [fixSchema(obj, defs)].  [fuel] bounds the depth of the recursion;
    [None] is a walk deeper than that. *)
Fixpoint fixSchema (fuel : nat) (obj : loc) (defs : value) (h : heap) : option heap :=
  match fuel with
  | O => None
  | S fuel' =>
      (* what both loops do with [target = obj[i]] and [target = obj[key]];
         [put] is the assignment of the resolved definition *)
      let visit (target : value) (put : value -> heap -> heap) (h : heap) : option heap :=
        match target with
        | Ref t =>
            match internalRef t h with
            | Some name => Some (put (read defs name h) h)
            | None => fixSchema fuel' t defs (constToEnum t h)
            end
        | _ => Some h
        end in
      match load obj h with
      | Some (Arr items) =>
          (* for (let i = 0; i < obj.length; i++) *)
          fold_left
            (fun acc i =>
               match acc with
               | Some h =>
                   match load obj h with
                   | Some (Arr items) =>
                       match nth_error items i with
                       | Some target =>
                           visit target
                                 (fun ref h =>
                                    match load obj h with
                                    | Some (Arr items) => store obj (Arr (replaceNth i ref items)) h
                                    | _ => h
                                    end) h
                       | None => Some h
                       end
                   | _ => Some h
                   end
               | None => None
               end)
            (seq 0 (List.length items)) (Some h)
      | Some (Obj props) =>
          (* for (const key of Object.keys(obj)) *)
          fold_left
            (fun acc key =>
               match acc with
               | Some h =>
                   visit (read (Ref obj) key h)
                         (fun ref h =>
                            match load obj h with
                            | Some (Obj props) => store obj (Obj (prop_set key ref props)) h
                            | _ => h
                            end) h
               | None => None
               end)
            (map fst props) (Some h)
      | None => Some h
      end
  end.

(** [filename.substring(0, filename.indexOf('.'))], the whole name
    where it has no dot. *)
Fixpoint beforeDot (filename : string) : string :=
  match filename with
  | EmptyString => ""
  | String c s => if Ascii.eqb c "." then "" else String c (beforeDot s)
  end.

(** What [createGenerator(...).createSchema(...)] did for one file:
    it threw, or returned a value, the objects of which are in the heap. *)
Inductive derivation :=
| Throws
| Returns (schema : value).

Definition isTruthy (v : value) : bool :=
  match v with
  | Undefined | Null => false
  | Bool b => b
  | Num z => negb (Z.eqb z 0)
  | Str s => nonEmpty s
  | Ref _ => true
  end.

(** [delete v[k]] *)
Definition deleteProp (v : value) (k : string) (h : heap) : heap :=
  match v with
  | Ref l =>
      match load l h with
      | Some (Obj props) => store l (Obj (prop_delete k props)) h
      | _ => h
      end
  | _ => h
  end.

(** Lines 624-631 for one file. *)
Definition addSchema (fuel : nat) (filename : string) (schema : value)
           (st : list (string * value) * heap)
  : option (list (string * value) * heap) :=
  let '(combinedSchemas, h) := st in
  if isTruthy schema then
    let definitions := read schema "definitions" h in
    let fixed :=
      match schema, isTruthy definitions with
      | Ref s, true =>
          match fixSchema fuel s definitions h with
          | Some h => Some (deleteProp schema "definitions" h)
          | None => None
          end
      | _, _ => Some h
      end in
    match fixed with
    | Some h =>
        Some (prop_set (beforeDot filename) schema combinedSchemas,
              deleteProp schema "$schema" h)
    | None => None
    end
  else Some st.

(** [generateSchemaDefinitions], given the base names of the files that
    [globSync] found and what the generator did for each. *)
Fixpoint generateSchemaDefinitions (fuel : nat) (files : list (string * derivation))
         (st : list (string * value) * heap)
  : option (result (list (string * value) * heap)) :=
  match files with
  | [] => Some (Ok st)
  | (filename, Throws) :: _ => Some (Err (Foreign "createSchema"))
  | (filename, Returns schema) :: files' =>
      match addSchema fuel filename schema st with
      | Some st' => generateSchemaDefinitions fuel files' st'
      | None => None
      end
  end.

Fixpoint allSome {A} (xs : list (option A)) : option (list A) :=
  match xs with
  | [] => Some []
  | Some x :: xs' => option_map (cons x) (allSome xs')
  | None :: _ => None
  end.

(** The value as a tree, where the objects reachable from it form one
    not deeper than [fuel]; the objects are those of the generator and of
    [fixSchema], none that the caller holds. *)
Fixpoint treeOf (fuel : nat) (h : heap) (v : value) : option json :=
  match v with
  | Undefined => Some JUndef
  | Null => Some JNull
  | Bool b => Some (JBool b)
  | Num z => Some (JNum z)
  | Str s => Some (JStr s)
  | Ref l =>
      match fuel with
      | O => None
      | S fuel' =>
          match load l h with
          | Some (Arr items) =>
              option_map (JArr Fresh) (allSome (map (treeOf fuel' h) items))
          | Some (Obj props) =>
              option_map (JObj Fresh)
                (allSome (map (fun kv => option_map (pair (fst kv)) (treeOf fuel' h (snd kv)))
                              props))
          | None => None
          end
      end
  end.

(** The schemas of [generateSchemaDefinitions] as trees, for
    [Object.assign] into the document. *)
Definition schemasOf (fuel : nat) (files : list (string * derivation)) (h : heap)
  : result (list (string * json)) :=
  match generateSchemaDefinitions fuel files ([], h) with
  | Some (Ok (combinedSchemas, h')) =>
      match allSome (map (fun kv => option_map (pair (fst kv)) (treeOf fuel h' (snd kv)))
                         combinedSchemas) with
      | Some schemas => Ok schemas
      | None => Err (Foreign "not a tree")
      end
  | Some (Err e) => Err e
  | None => Err (Foreign "not a tree")
  end.

End Schema.

(* ------------------------------------------------------------------ *)
(** ** Vocabulary of the statements *)

(** One turn of the innermost loop of [registerControllers] and of
    [getOpenAPISchema]: a controller, a path-bearing member of its class,
    a class-level path and a method-level path. *)
Record Operation := {
  op_controller : Controller;
  op_md : DecoratorMetadataObject;
  op_handlerName : PropertyKey;
  op_classPath : PathMetadata;
  op_methodPath : PathMetadata
}.

(** The entries of the path map other than that of the class: the
    path-bearing methods. *)
Definition handlerEntries (pathMap : Map (list PathMetadata)) : Map (list PathMetadata) :=
  filter (fun e => negb (key_eqb (fst e) CLASS_METADATA)) pathMap.

(** The turns of the loops for one controller, in the order in which
    they are taken. *)
Definition operationsOf (c : Controller) : list Operation :=
  match classMetadata c with
  | None => []
  | Some md =>
      match PATH md with
      | None => []
      | Some pathMap =>
          flat_map (fun e =>
            flat_map (fun classPath =>
              map (fun methodPath =>
                     {| op_controller := c; op_md := md; op_handlerName := fst e;
                        op_classPath := classPath; op_methodPath := methodPath |})
                  (snd e))
              (orElse (Map_get CLASS_METADATA pathMap) [""]))
            (handlerEntries pathMap)
      end
  end.

Definition operations (cs : list Controller) : list Operation :=
  flat_map operationsOf cs.

Definition op_classMethod (op : Operation) : MethodMetadata :=
  orElse (lookup CLASS_METADATA (METHOD (op_md op))) GET.

Definition op_method (op : Operation) : MethodMetadata :=
  orElse (lookup (op_handlerName op) (METHOD (op_md op))) (op_classMethod op).

Definition op_path (op : Operation) : string :=
  (op_classPath op ++ op_methodPath op)%string.

Definition op_responses (op : Operation) : list ResponseMetadata :=
  orElse (lookup CLASS_METADATA (RESPONSE (op_md op))) []
  ++ orElse (lookup (op_handlerName op) (RESPONSE (op_md op))) [].

(** The translated path and lower-cased method an operation resolves to. *)
Definition slotOf (op : Operation) : string * string :=
  (oaPathOf (op_path op), toLowerCase (op_method op)).

(** The turn of the loop of [registerControllers] for an operation. *)
Definition registerOp (op : Operation) : RegisterState -> result RegisterState :=
  registerRoute (op_controller op) (op_md op) (op_classMethod op)
                (orElse (lookup CLASS_METADATA (MIDDLEWARE (op_md op))) [])
                (op_handlerName op) (op_classPath op) (op_methodPath op).

(** The turn of the loop of [getOpenAPISchema] for an operation. *)
Definition describeOp (op : Operation) : PathsObject -> result PathsObject :=
  addOperation (op_md op) (op_classMethod op)
               (orElse (lookup CLASS_METADATA (TAG (op_md op))) [])
               (orElse (lookup CLASS_METADATA (REQUEST_BODY (op_md op))) JUndef)
               (orElse (lookup CLASS_METADATA (RESPONSE (op_md op))) [])
               (op_handlerName op) (op_classPath op) (op_methodPath op).

(** The member named by the operation is a function of the instance. *)
Definition bound (op : Operation) : bool :=
  Map_has (op_handlerName op) (members (op_controller op)).




Definition op_middlewares (op : Operation) : list MiddlewareMetadata :=
  orElse (lookup CLASS_METADATA (MIDDLEWARE (op_md op))) []
  ++ orElse (lookup (op_handlerName op) (MIDDLEWARE (op_md op))) [].

Definition op_handler (op : Operation) : Handler :=
  Bound (orElse (Map_get (op_handlerName op) (members (op_controller op))) 0)
        (self (op_controller op)).

(** The resolution record of an operation, and the call that registers it. *)
Definition routeOf (op : Operation) : RegisteredControllerInfo :=
  {| info_method := op_method op; info_path := op_path op;
     info_middlewares := op_middlewares op; info_handler := op_handler op |}.

Definition callOf (op : Operation) : Registration :=
  {| reg_verb := toLowerCase (op_method op); reg_path := op_path op;
     reg_middlewares := op_middlewares op; reg_handler := op_handler op |}.

(** A parameter occurrence starts here: [:] and a character of an
    identifier. *)
Definition startsParam (s : string) : bool :=
  match s with
  | String c (String d _) => isChar ":" c && identChar d
  | _ => false
  end.

(** The path contains a parameter occurrence. *)
Fixpoint hasParam (s : string) : bool :=
  startsParam s
  || match s with
     | String _ s' => hasParam s'
     | EmptyString => false
     end.

Fixpoint allChars (p : ascii -> bool) (s : string) : bool :=
  match s with
  | EmptyString => true
  | String c s' => p c && allChars p s'
  end.

(** The whole pattern matches [[a-zA-Z0-9_|]+]. *)
Definition isEnumList (pattern : string) : bool :=
  nonEmpty pattern && allChars enumChar pattern.

(** A scan that found no match. *)
Fixpoint lits (s : string) : list piece :=
  match s with
  | EmptyString => []
  | String c s' => Lit c :: lits s'
  end.

(** The entry a response tuple yields on its own. *)
Definition entryOf (r : ResponseMetadata) : option json :=
  match responseEntry r with
  | Ok (_, e) => Some e
  | Err _ => None
  end.

(** The last tuple of a list that has the given code. *)
Definition lastWithCode (code : Z) (rs : list ResponseMetadata) : option ResponseMetadata :=
  find (fun r => Z.eqb (r_code r) code) (rev rs).

(** C2 as the specification has it, for the description: a later tuple of
    the same code that gives no description leaves the description of the
    earlier tuple in the entry. *)
Definition responses_merge_fieldwise : Prop :=
  forall (r1 r2 : ResponseMetadata) (d : string) (oaResponses : list (string * json)),
    r_code r1 = r_code r2 ->
    r_description r1 = Some d ->
    r_description r2 = None ->
    foldResponses [r1; r2] = Ok oaResponses ->
    get "description" (orElse (prop_get (String_of_code (r_code r1)) oaResponses) JUndef)
    = JStr d.

(** The caller-held objects reachable from the properties of an object. *)
Definition heldProps (fs : list (string * json)) : list nat :=
  flat_map (fun kv => held (snd kv)) fs.

(** The caller-held objects that the annotations of a class hand to
    synthesis as they are: request bodies and response headers. *)
Definition heldByAnnotations (md : DecoratorMetadataObject) : list nat :=
  flat_map (fun e => held (snd e)) (orElse (REQUEST_BODY md) [])
  ++ flat_map (fun e => flat_map (fun r => held (r_headers r)) (snd e))
              (orElse (RESPONSE md) []).

Definition heldByControllers (cs : list Controller) : list nat :=
  flat_map (fun c => match classMetadata c with
                     | Some md => heldByAnnotations md
                     | None => []
                     end) cs.

(** [doc.paths] and [doc.components] as values. *)
Definition pathsOf (doc : OpenAPIObject) : json :=
  match oa_paths doc with Some p => pathsJson p | None => JUndef end.

Definition componentsOf (doc : OpenAPIObject) : json :=
  match oa_components doc with Some c => componentsJson c | None => JUndef end.

(** C6 as the specification has it: whatever the base document and the
    controllers, an assignment to a property of an object reachable from
    the paths or the components of the returned document leaves the base
    document as it was. *)
Definition returned_document_independent : Prop :=
  forall (derived : Pattern -> result (list (string * json)))
         (base : OpenAPIObject) (controllers : Controllers) (pattern : option Pattern)
         (doc : OpenAPIObject),
    getOpenAPISchema derived true base controllers pattern = Ok doc ->
    forall l, In l (held (pathsOf doc) ++ held (componentsOf doc)) ->
    forall k x, write l k x (documentJson base) = documentJson base.

(** The document as it is after the loop over the controllers. *)
Definition withPaths (base : OpenAPIObject) (paths : PathsObject) : OpenAPIObject :=
  {| doc_owner := Fresh; oa_paths := Some paths;
     oa_components := option_map cloneComponents (oa_components base);
     oa_rest := cloneProps (oa_rest base) |}.

(* ------------------------------------------------------------------ *)
(** ** Example classes and documents *)

(** A decorator with the site it is written on. *)
Definition Decoration :=
  (Kind * PropertyKey * (DecoratorContext -> result DecoratorMetadataObject))%type.

(** The decorators of a class, applied in the order in which the
    runtime evaluates them, to the metadata object of the class. *)
Definition decorate (ds : list Decoration) : result DecoratorMetadataObject :=
  forM ds (fun d md =>
             match d with
             | (k, n, f) => f {| kind := k; name := n; metadata := Some md |}
             end) emptyMetadata.

Definition instanceOf (ds : list Decoration) (fns : Map Fn) (this : nat) : Controller :=
  {| classMetadata := match decorate ds with Ok md => Some md | Err _ => None end;
     members := fns; self := this |}.

Definition noContent : json := JUndef.
Definition noHeaders : json := JUndef.

(** [@path('/v1') @path('/v2') class User { @path('/login') @path('/auth') loginFn() {} }] *)
Definition User : Controller :=
  instanceOf
    [(KMethod, Name "loginFn", path "/auth");
     (KMethod, Name "loginFn", path "/login");
     (KClass, CLASS_METADATA, path "/v2");
     (KClass, CLASS_METADATA, path "/v1")]
    [(Name "loginFn", 1)] 100.

(** [class ById { @path('/u/:id') byId() {} }] and
    [class ByDigits { @path('/u/:id([0-9]+)') byDigits() {} }] *)
Definition ById : Controller :=
  instanceOf [(KMethod, Name "byId", path "/u/:id")] [(Name "byId", 2)] 101.

Definition ByDigits : Controller :=
  instanceOf [(KMethod, Name "byDigits", path "/u/:id([0-9]+)")] [(Name "byDigits", 3)] 102.

(** [class Created { @path('/things') @method('POST') @response(201) create() {} }] *)
Definition Created : Controller :=
  instanceOf
    [(KMethod, Name "create", response 201 noContent None noHeaders);
     (KMethod, Name "create", method POST);
     (KMethod, Name "create", path "/things")]
    [(Name "create", 4)] 103.

(** [@response(200, 'Widget') class Widgets { @path('/widgets') list() {} }] *)
Definition Widgets : Controller :=
  instanceOf
    [(KMethod, Name "list", path "/widgets");
     (KClass, CLASS_METADATA, response 200 (JStr "Widget") None noHeaders)]
    [(Name "list", 5)] 104.

(** A request body object, held by the caller at location 7. *)
Definition petBody : json :=
  JObj (Held 7) [("description", JStr "A pet"); ("content", JObj (Held 8) [])].

(** [class Pets { @path('/pets') @method('POST') @requestBody(petBody) add() {} }] *)
Definition Pets : Controller :=
  instanceOf
    [(KMethod, Name "add", requestBody petBody);
     (KMethod, Name "add", method POST);
     (KMethod, Name "add", path "/pets")]
    [(Name "add", 6)] 105.

(** [{ openapi: '3.1.0', info: { title: 'My API', version: '1.0.0' } }] *)
Definition minimalDocument : OpenAPIObject :=
  {| doc_owner := Held 1; oa_paths := None; oa_components := None;
     oa_rest := [("openapi", JStr "3.1.0");
                 ("info", JObj (Held 2) [("title", JStr "My API");
                                         ("version", JStr "1.0.0")])] |}.


(** The same with [paths: { '/u/{id}': { put: {} } }]. *)
Definition documentWithPut : OpenAPIObject :=
  {| doc_owner := Held 1;
     oa_paths :=
       Some {| paths_owner := Held 3;
               paths_items :=
                 [("/u/{id}", {| item_owner := Held 4;
                                 item_props := [("put", JObj (Held 5) [])] |})] |};
     oa_components := None;
     oa_rest := oa_rest minimalDocument |}.

(** The minimal document with [components: { requestBodies: { Pet: petBody } }]:
    the object given to [@requestBody] in [Pets] is an object of this
    document. *)
Definition documentWithPet : OpenAPIObject :=
  {| doc_owner := Held 1; oa_paths := None;
     oa_components :=
       Some {| components_owner := Held 3; co_schemas := None;
               co_rest := [("requestBodies", JObj (Held 4) [("Pet", petBody)])] |};
     oa_rest := oa_rest minimalDocument |}.

(** No schema source is consulted. *)
Definition noSchemas (p : Pattern) : result (list (string * json)) := Ok [].

(** What the generator returns for [export type Status = 'active'] in
    [Status.d.mts]: the constant at the root, and an empty table of
    definitions. *)
Definition statusHeap : Schema.heap :=
  [Schema.Obj [("$schema", Schema.Str "http://json-schema.org/draft-07/schema#");
               ("type", Schema.Str "string");
               ("const", Schema.Str "active");
               ("definitions", Schema.Ref 1)];
   Schema.Obj []].

(** [getOpenAPISchema(base, controllers, 'Status.d.mts')] finds that file. *)
Definition statusSchemas (p : Pattern) : result (list (string * json)) :=
  Schema.schemasOf 8 [("Status.d.mts", Schema.Returns (Schema.Ref 0))] statusHeap.

(** What it returns for
    [export type Kind = 'k'; export type Alias = Kind;
     export type Item = { kind: Alias; tag: 't' }] in [Item.d.mts]. *)
Definition itemHeap : Schema.heap :=
  [Schema.Obj [("$schema", Schema.Str "http://json-schema.org/draft-07/schema#");
               ("type", Schema.Str "object");
               ("properties", Schema.Ref 1);
               ("definitions", Schema.Ref 4)];
   Schema.Obj [("kind", Schema.Ref 2); ("tag", Schema.Ref 3)];
   Schema.Obj [("$ref", Schema.Str "#/definitions/Alias")];
   Schema.Obj [("type", Schema.Str "string"); ("const", Schema.Str "t")];
   Schema.Obj [("Alias", Schema.Ref 5); ("Kind", Schema.Ref 6)];
   Schema.Obj [("$ref", Schema.Str "#/definitions/Kind")];
   Schema.Obj [("type", Schema.Str "string"); ("const", Schema.Str "k")]].

(* ------------------------------------------------------------------ *)
(** ** Vocabulary of the further properties *)

(** The expression does not use [^]. *)
Fixpoint bolFree (r : regex) : bool :=
  match r with
  | Chr _ | Eol => true
  | Bol => false
  | Cat r1 r2 | Alt r1 r2 => bolFree r1 && bolFree r2
  | Plus r1 | Opt r1 | Cap _ r1 => bolFree r1
  end.

(** A character that is not [:]. *)
Definition notColon (c : ascii) : bool := negb (isChar ":" c).

(** The text after the name of a parameter neither goes on with the name
    nor opens a pattern. *)
Definition endsName (suffix : string) : bool :=
  match suffix with
  | EmptyString => true
  | String c _ => negb (identChar c) && negb (isChar "(" c)
  end.

(** A character of a pattern that is neither [)] nor a backslash. *)
Definition plainPatternChar (c : ascii) : bool := notClose c && negb (isChar "\" c).

(** What the path item of a path holds under a key. *)
Definition slotValue (items : list (string * PathItemObject)) (slot : string * string)
  : option json :=
  match prop_get (fst slot) items with
  | Some item => prop_get (snd slot) (item_props item)
  | None => None
  end.

(** The operation object built in the turn of the loop of
    [getOpenAPISchema] for an operation (lines 471-531). *)
Definition op_operation (op : Operation) : result json :=
  operationOf (op_md op)
              (orElse (lookup CLASS_METADATA (TAG (op_md op))) [])
              (orElse (lookup CLASS_METADATA (REQUEST_BODY (op_md op))) JUndef)
              (orElse (lookup CLASS_METADATA (RESPONSE (op_md op))) [])
              (op_handlerName op).

(** The tags of the class followed by those of the method. *)
Definition op_tags (op : Operation) : list TagMetadata :=
  orElse (lookup CLASS_METADATA (TAG (op_md op))) []
  ++ orElse (lookup (op_handlerName op) (TAG (op_md op))) [].

(** Membership in a list of strings. *)
Definition inList (xs : list string) (x : string) : bool := existsb (String.eqb x) xs.

(** What a document holds at a path under a key of the path item. *)
Definition docSlot (doc : OpenAPIObject) (slot : string * string) : option json :=
  match oa_paths doc with
  | Some paths => slotValue (paths_items paths) slot
  | None => None
  end.

(** The parameters that a new path item gets for a path (lines 444-468). *)
Definition parametersField (path : string) : option json :=
  match parametersOf path with
  | [] => None
  | parameters => Some (JArr Fresh parameters)
  end.

(** The operation is on the translated path [p]. *)
Definition onPath (p : string) (op : Operation) : bool :=
  String.eqb (oaPathOf (op_path op)) p.

(** What a document holds under a name in [components.schemas]. *)
Definition docSchema (doc : OpenAPIObject) (name : string) : option json :=
  match oa_components doc with
  | Some components =>
      match co_schemas components with
      | Some schemas => prop_get name (schemas_props schemas)
      | None => None
      end
  | None => None
  end.

(** A character that is not a dot. *)
Definition notDot (c : ascii) : bool := negb (Ascii.eqb c ".").

(* ------------------------------------------------------------------ *)
(** ** The controller registry (controllers.mts) *)

Module ControllerRegistry.

(** A class, by its identity. *)
Definition Class := nat.

(** [CONTROLLER_REGISTRY], a [Set]: its elements, each once, in the
    order of insertion. *)
Definition Registry := list Class.

(** [CONTROLLER_REGISTRY.add(target)] *)
Definition Set_add (target : Class) (registry : Registry) : Registry :=
  if existsb (Nat.eqb target) registry then registry else registry ++ [target].

(** [controller()(target, context)] *)
Definition controller (target : Class) (context : DecoratorContext) (registry : Registry)
  : result Registry :=
  match kind context with
  | KClass => Ok (Set_add target registry)
  | _ => Err UnsupportedTarget
  end.

(** [Array.from(CONTROLLER_REGISTRY)] *)
Definition getControllerClasses (registry : Registry) : list Class := registry.

Section Scan.
(** The files that [globSync(patterns, { absolute: true })] finds. *)
Variable globSync : Pattern -> list string.
(** What the evaluation of the module of a file does with the registry:
    the applications of [controller()] it makes, in order, and the error
    it throws after them, if any. *)
Variable moduleOf : string -> list (Class * DecoratorContext) * option Error.

(** [await import(url)]; the registry is left as the module has left it
    also when the import is rejected. *)
Fixpoint decorateAll (ds : list (Class * DecoratorContext)) (registry : Registry)
  : Registry * option Error :=
  match ds with
  | [] => (registry, None)
  | (target, context) :: ds' =>
      match controller target context registry with
      | Ok registry' => decorateAll ds' registry'
      | Err e => (registry, Some e)
      end
  end.

Definition import (file : string) (registry : Registry) : Registry * option Error :=
  match decorateAll (fst (moduleOf file)) registry with
  | (registry', None) => (registry', snd (moduleOf file))
  | (registry', Some e) => (registry', Some e)
  end.

(** The loop of lines 43-46. *)
Fixpoint importAll (files : list string) (registry : Registry) : Registry * option Error :=
  match files with
  | [] => (registry, None)
  | file :: files' =>
      match import file registry with
      | (registry', None) => importAll files' registry'
      | (registry', Some e) => (registry', Some e)
      end
  end.

(** The registry after the call, and what the promise settles to. *)
Definition scanControllerClasses (patterns : Pattern) (registry : Registry)
  : Registry * result (list Class) :=
  match importAll (globSync patterns) registry with
  | (registry', None) => (registry', Ok (getControllerClasses registry'))
  | (registry', Some e) => (registry', Err e)
  end.
End Scan.

End ControllerRegistry.

(* ------------------------------------------------------------------ *)
(** ** OpenAPI.initialize (index.mts) *)

Module OpenAPI.
Import ControllerRegistry.

(** The content given to [@response(200, ...)] on [getOpenApiSpec]. *)
Definition documentContent : json :=
  JObj Static
    [("application/json", JObj Static [("schema", JObj Static [("type", JStr "object")])])].

(** The decorators of the class, lines 158-163, in the order in which
    they are applied. *)
Definition decorators : list Decoration :=
  [(KMethod, Name "getOpenApiSpec", response 500 JUndef None JUndef);
   (KMethod, Name "getOpenApiSpec",
    response 200 documentContent (Some "Successful with an OpenAPI document response") JUndef);
   (KMethod, Name "getOpenApiSpec", summary "Get OpenAPI schema");
   (KMethod, Name "getOpenApiSpec", path "/openapi.json")].

(** [new OpenAPI()]: the instance [this], with the two methods of the
    class. *)
Definition new (initializeFn getOpenApiSpecFn : Fn) (this : nat) : Controller :=
  instanceOf decorators
             [(Name "initialize", initializeFn); (Name "getOpenApiSpec", getOpenApiSpecFn)]
             this.





Section Initialize.
Variable globSync : Pattern -> list string.
Variable moduleOf : string -> list (Class * DecoratorContext) * option Error.
(** [new Cls()] *)
Variable construct : Class -> result Controller.
Variable derivedSchemas : Pattern -> result (list (string * json)).
(** Whether [Symbol.metadata] is there. *)
Variable symbolMetadata : bool.
(** [process.argv[2] === '--generate-openapi'] *)
Variable generate : bool.



End Initialize.



End OpenAPI.

(* ------------------------------------------------------------------ *)
(** ** Further example classes *)

(** [@tag('users') @response(404)
     class Accounts {
       @path('/accounts/:id') @method('PUT') @tag('users', 'admin')
       @operationId('replaceAccount') @requestBody('Account')
       @response(200, 'Account')
       replace() {}
     }] *)
Definition Accounts : Controller :=
  instanceOf
    [(KMethod, Name "replace", response 200 (JStr "Account") None noHeaders);
     (KMethod, Name "replace", requestBody (JStr "Account"));
     (KMethod, Name "replace", operationId "replaceAccount");
     (KMethod, Name "replace", tag ["users"; "admin"]);
     (KMethod, Name "replace", method PUT);
     (KMethod, Name "replace", path "/accounts/:id");
     (KClass, CLASS_METADATA, response 404 noContent None noHeaders);
     (KClass, CLASS_METADATA, tag ["users"])]
    [(Name "replace", 7)] 106.

(** The one turn of the loops for [Accounts], and that for [ById]. *)
Definition replaceAccount : Operation :=
  {| op_controller := Accounts;
     op_md := orElse (classMetadata Accounts) emptyMetadata;
     op_handlerName := Name "replace";
     op_classPath := ""; op_methodPath := "/accounts/:id" |}.

Definition byId : Operation :=
  {| op_controller := ById;
     op_md := orElse (classMetadata ById) emptyMetadata;
     op_handlerName := Name "byId";
     op_classPath := ""; op_methodPath := "/u/:id" |}.

(** The context of a decorator on a class. *)
Definition onClass : DecoratorContext :=
  {| kind := KClass; name := CLASS_METADATA; metadata := Some emptyMetadata |}.

(** The context of a decorator on the method [loginFn], and on a field. *)
Definition onLoginFn : DecoratorContext :=
  {| kind := KMethod; name := Name "loginFn"; metadata := Some emptyMetadata |}.

Definition onField : DecoratorContext :=
  {| kind := KField; name := Name "count"; metadata := Some emptyMetadata |}.

(** A method of a class for which there is no metadata object. *)
Definition withoutMetadata : DecoratorContext :=
  {| kind := KMethod; name := Name "loginFn"; metadata := None |}.

(** A run of [initialize]: one file is found, whose module registers
    class 1; the classes are instantiated as [ById]. *)
Definition oneFile (p : Pattern) : list string := ["controllers/by-id.mjs"].

Definition oneModule (file : string)
  : list (ControllerRegistry.Class * DecoratorContext) * option Error :=
  ([(1, onClass)], None).


(* ------------------------------------------------------------------ *)
(** * Properties *)

(** ** Maps and property lists *)

Lemma key_eqb_refl (k : PropertyKey) : key_eqb k k = true.
Proof.
  destruct k; simpl; auto using String.eqb_refl, Nat.eqb_refl.
Qed.

Lemma key_eqb_eq (a b : PropertyKey) : key_eqb a b = true <-> a = b.
Proof.
  split.
  - destruct a, b; simpl; intros H; try discriminate; auto.
    + apply String.eqb_eq in H. congruence.
    + apply Nat.eqb_eq in H. congruence.
  - intros ->. apply key_eqb_refl.
Qed.

Lemma Map_get_set_same V (k : PropertyKey) (v : V) (m : Map V) :
  Map_get k (Map_set k v m) = Some v.
Proof.
  induction m as [|[k' v'] m IH]; simpl.
  - now rewrite key_eqb_refl.
  - destruct (key_eqb k k') eqn:E; simpl; rewrite ?key_eqb_refl, ?E; auto.
Qed.

Lemma Map_has_set_same V (k : PropertyKey) (v : V) (m : Map V) :
  Map_has k (Map_set k v m) = true.
Proof. unfold Map_has. now rewrite Map_get_set_same. Qed.

Lemma setOnce_twice V (m : option (Map V)) (k : PropertyKey) (v w : V) (m1 : Map V) :
  setOnce m k v = Ok m1 -> setOnce (Some m1) k w = Err DuplicateAnnotation.
Proof.
  unfold setOnce. destruct (Map_has k _); intros H; inversion H; subst.
  now rewrite Map_has_set_same.
Qed.

Lemma pushAll_get V (m : option (Map (list V))) (k : PropertyKey) (vs : list V) :
  Map_get k (pushAll m k vs) = Some (orElse (lookup k m) [] ++ vs).
Proof.
  unfold pushAll, lookup.
  destruct m as [map|]; simpl.
  - destruct (Map_get k map) eqn:E; simpl; now rewrite Map_get_set_same.
  - now rewrite key_eqb_refl.
Qed.

Lemma pushAll_twice V (m : option (Map (list V))) (k : PropertyKey) (vs ws : list V) :
  Map_get k (pushAll (Some (pushAll m k vs)) k ws)
  = Some (orElse (lookup k m) [] ++ vs ++ ws).
Proof.
  rewrite pushAll_get. simpl. rewrite pushAll_get. simpl. now rewrite <- app_assoc.
Qed.

(** ** The decorators *)

Lemma guards_after (onClass : bool) (context : DecoratorContext)
      (md md1 : DecoratorMetadataObject) :
  guards onClass context = Ok md -> guards onClass (after context md1) = Ok md1.
Proof.
  unfold guards, after; simpl.
  destruct (kind context), onClass, (metadata context); intros H; try discriminate; auto.
Qed.

Lemma guards_member (onClass : bool) (context : DecoratorContext)
      (md : DecoratorMetadataObject) :
  kind context = KMethod -> metadata context = Some md -> guards onClass context = Ok md.
Proof. unfold guards. intros -> ->. now destruct onClass. Qed.

Lemma guards_class (context : DecoratorContext) (md : DecoratorMetadataObject) :
  kind context = KClass -> metadata context = Some md -> guards true context = Ok md.
Proof. unfold guards. now intros -> ->. Qed.

Lemma site_after (context : DecoratorContext) (md : DecoratorMetadataObject) :
  site (after context md) = site context.
Proof. reflexivity. Qed.

Lemma name_after (context : DecoratorContext) (md : DecoratorMetadataObject) :
  name (after context md) = name context.
Proof. reflexivity. Qed.

(** A single-valued decorator, applied after it has succeeded once. *)
Ltac once_twice :=
  match goal with
  | H : bind (guards ?b ?c) _ = Ok _ |- _ =>
      let md := fresh "md" in
      let G := fresh "G" in
      destruct (guards b c) as [md|] eqn:G; simpl in H; [|discriminate];
      match type of H with
      | bind (setOnce ?m ?k ?v) _ = Ok _ =>
          let map := fresh "map" in
          let E := fresh "E" in
          destruct (setOnce m k v) as [map|] eqn:E; simpl in H; [|discriminate];
          inversion H; subst; clear H;
          erewrite guards_after by exact G;
          rewrite ?site_after, ?name_after; simpl;
          erewrite setOnce_twice by exact E; reflexivity
      end
  end.

(** C7. At a class or method site whose metadata is available: a second
    application of a single-valued annotation (HttpMethod, Summary,
    Description, OperationId, RequestBody) after a first one that was
    accepted throws the duplicate-annotation error; two applications of a
    multi-valued annotation (PathSegment, Middleware, Tag, Response) both
    succeed and leave at the site the values it had before followed by
    those of the first and then those of the second application. *)
Theorem annotations_applied_twice
        (context : DecoratorContext) (md0 : DecoratorMetadataObject)
        (Hmeta : metadata context = Some md0)
        (Hkind : kind context = KClass \/ kind context = KMethod) :
  (forall m1 m2 md1, method m1 context = Ok md1 ->
     method m2 (after context md1) = Err DuplicateAnnotation)
  /\ (forall s1 s2 md1, summary s1 context = Ok md1 ->
        summary s2 (after context md1) = Err DuplicateAnnotation)
  /\ (forall d1 d2 md1, description d1 context = Ok md1 ->
        description d2 (after context md1) = Err DuplicateAnnotation)
  /\ (forall i1 i2 md1, operationId i1 context = Ok md1 ->
        operationId i2 (after context md1) = Err DuplicateAnnotation)
  /\ (forall b1 b2 md1, requestBody b1 context = Ok md1 ->
        requestBody b2 (after context md1) = Err DuplicateAnnotation)
  /\ (forall p1 p2, exists md1 md2,
        path p1 context = Ok md1 /\ path p2 (after context md1) = Ok md2
        /\ lookup (site context) (PATH md2)
           = Some (orElse (lookup (site context) (PATH md0)) [] ++ [p1; p2]))
  /\ (forall ms1 ms2, exists md1 md2,
        middleware ms1 context = Ok md1 /\ middleware ms2 (after context md1) = Ok md2
        /\ lookup (site context) (MIDDLEWARE md2)
           = Some (orElse (lookup (site context) (MIDDLEWARE md0)) [] ++ ms1 ++ ms2))
  /\ (forall ts1 ts2, exists md1 md2,
        tag ts1 context = Ok md1 /\ tag ts2 (after context md1) = Ok md2
        /\ lookup (site context) (TAG md2)
           = Some (orElse (lookup (site context) (TAG md0)) [] ++ ts1 ++ ts2))
  /\ (forall c1 x1 d1 h1 c2 x2 d2 h2, exists md1 md2,
        response c1 x1 d1 h1 context = Ok md1
        /\ response c2 x2 d2 h2 (after context md1) = Ok md2
        /\ lookup (site context) (RESPONSE md2)
           = Some (orElse (lookup (site context) (RESPONSE md0)) []
                   ++ [ {| r_code := c1; r_content := x1; r_description := d1; r_headers := h1 |};
                        {| r_code := c2; r_content := x2; r_description := d2; r_headers := h2 |} ])).
Proof.
  assert (G0 : guards true context = Ok md0)
    by (destruct Hkind; [apply guards_class | apply guards_member]; assumption).
  repeat split.
  - intros m1 m2 md1 H. unfold method in *. once_twice.
  - intros s1 s2 md1 H. unfold summary in *. once_twice.
  - intros s1 s2 md1 H. unfold description in *. once_twice.
  - intros s1 s2 md1 H. unfold operationId in *. once_twice.
  - intros s1 s2 md1 H. unfold requestBody in *. once_twice.
  - intros p1 p2. unfold path. rewrite G0; simpl.
    do 2 eexists. split; [reflexivity|].
    erewrite guards_after by exact G0. simpl. split; [reflexivity|].
    rewrite site_after. apply pushAll_twice.
  - intros p1 p2. unfold middleware. rewrite G0; simpl.
    do 2 eexists. split; [reflexivity|].
    erewrite guards_after by exact G0. simpl. split; [reflexivity|].
    rewrite site_after. apply pushAll_twice.
  - intros p1 p2. unfold tag. rewrite G0; simpl.
    do 2 eexists. split; [reflexivity|].
    erewrite guards_after by exact G0. simpl. split; [reflexivity|].
    rewrite site_after. apply pushAll_twice.
  - intros. unfold response. rewrite G0; simpl.
    do 2 eexists. split; [reflexivity|].
    erewrite guards_after by exact G0. simpl. split; [reflexivity|].
    rewrite site_after. apply pushAll_twice.
Qed.

(** ** Loops *)

Lemma forM_app A S (xs ys : list A) (body : A -> S -> result S) (s : S) :
  forM (xs ++ ys) body s = (s' <- forM xs body s ;; forM ys body s').
Proof.
  revert s. induction xs as [|x xs IH]; intros s; simpl; auto.
  destruct (body x s); simpl; auto.
Qed.

Lemma forM_map A B S (g : A -> B) (xs : list A) (body : B -> S -> result S) (s : S) :
  forM (map g xs) body s = forM xs (fun x => body (g x)) s.
Proof.
  revert s. induction xs as [|x xs IH]; intros s; simpl; auto.
  destruct (body (g x) s); simpl; auto.
Qed.

Lemma forM_ext A S (xs : list A) (f g : A -> S -> result S) (s : S) :
  (forall x s, In x xs -> f x s = g x s) -> forM xs f s = forM xs g s.
Proof.
  revert s. induction xs as [|x xs IH]; intros s H; simpl; auto.
  rewrite (H x s) by now left.
  destruct (g x s); simpl; auto. apply IH. intros. apply H. now right.
Qed.

Lemma forM_flat_map A B S (f : A -> list B) (xs : list A) (body : B -> S -> result S) (s : S) :
  forM (flat_map f xs) body s = forM xs (fun x => forM (f x) body) s.
Proof.
  revert s. induction xs as [|x xs IH]; intros s; simpl; auto.
  rewrite forM_app. destruct (forM (f x) body s); simpl; auto.
Qed.

Lemma forM_filter A S (keep : A -> bool) (xs : list A) (body : A -> S -> result S) (s : S) :
  forM (filter keep xs) body s = forM xs (fun x => if keep x then body x else Ok) s.
Proof.
  revert s. induction xs as [|x xs IH]; intros s; simpl; auto.
  destruct (keep x); simpl; auto.
  destruct (body x s); simpl; auto.
Qed.

(** ** Both functions walk the same operations *)

Lemma registerController_operations (c : Controller) (st : RegisterState) :
  registerController c st = forM (operationsOf c) registerOp st.
Proof.
  unfold registerController, operationsOf.
  destruct (classMetadata c) as [md|]; [|reflexivity].
  destruct (PATH md) as [pathMap|] eqn:HP; [|reflexivity].
  destruct pathMap as [|e0 pathMap0]; [reflexivity|].
  set (pathMap := e0 :: pathMap0) in *.
  rewrite forM_flat_map. unfold handlerEntries. rewrite forM_filter.
  apply forM_ext. intros [handlerName methodPaths] s _. simpl.
  destruct (key_eqb handlerName CLASS_METADATA); simpl; [reflexivity|].
  rewrite forM_flat_map. apply forM_ext. intros classPath s' _.
  rewrite forM_map. reflexivity.
Qed.

Lemma describeController_operations (c : Controller) (paths : PathsObject) :
  describeController c paths = forM (operationsOf c) describeOp paths.
Proof.
  unfold describeController, operationsOf.
  destruct (classMetadata c) as [md|]; [|reflexivity].
  destruct (PATH md) as [pathMap|] eqn:HP; [|reflexivity].
  destruct pathMap as [|e0 pathMap0]; [reflexivity|].
  set (pathMap := e0 :: pathMap0) in *.
  rewrite forM_flat_map. unfold handlerEntries. rewrite forM_filter.
  apply forM_ext. intros [handlerName methodPaths] s _. simpl.
  destruct (key_eqb handlerName CLASS_METADATA); simpl; [reflexivity|].
  rewrite forM_flat_map. apply forM_ext. intros classPath s' _.
  rewrite forM_map. reflexivity.
Qed.

Lemma registerControllers_operations (cs : list Controller) (st : RegisterState) :
  forM cs registerController st = forM (operations cs) registerOp st.
Proof.
  unfold operations. rewrite forM_flat_map.
  apply forM_ext. intros. apply registerController_operations.
Qed.

Lemma describeControllers_operations (cs : list Controller) (paths : PathsObject) :
  forM cs describeController paths = forM (operations cs) describeOp paths.
Proof.
  unfold operations. rewrite forM_flat_map.
  apply forM_ext. intros. apply describeController_operations.
Qed.

(** ** Route resolution *)

Lemma registerOp_ok (op : Operation) (info : list RegisteredControllerInfo)
      (registrar : option (list Registration)) :
  bound op = true ->
  registerOp op (info, registrar)
  = Ok (info ++ [routeOf op], option_map (fun calls => calls ++ [callOf op]) registrar).
Proof.
  unfold bound, Map_has, registerOp, registerRoute, routeOf, callOf, op_handler.
  destruct (Map_get (op_handlerName op) (members (op_controller op))) as [f|];
    [intros _|discriminate].
  simpl. destruct registrar; reflexivity.
Qed.





(** ** Property lists *)

Lemma prop_get_set_same V (k : string) (v : V) (o : list (string * V)) :
  prop_get k (prop_set k v o) = Some v.
Proof.
  induction o as [|[k' v'] o IH]; simpl.
  - now rewrite String.eqb_refl.
  - destruct (String.eqb k k') eqn:E; simpl; rewrite ?String.eqb_refl, ?E; auto.
Qed.

Lemma prop_get_set_other V (k k' : string) (v : V) (o : list (string * V)) :
  k <> k' -> prop_get k' (prop_set k v o) = prop_get k' o.
Proof.
  intros Hne. induction o as [|[k0 v0] o IH]; simpl.
  - destruct (String.eqb k' k) eqn:E; auto. apply String.eqb_eq in E. congruence.
  - destruct (String.eqb k k0) eqn:E; simpl.
    + apply String.eqb_eq in E. subst k0.
      destruct (String.eqb k' k) eqn:E'; auto. apply String.eqb_eq in E'. congruence.
    + destruct (String.eqb k' k0); auto.
Qed.

(** ** Responses and operations *)




Lemma operationOf_object md classTags classRequestBody classResponses handlerName j :
  operationOf md classTags classRequestBody classResponses handlerName = Ok j ->
  exists fs, j = JObj Fresh fs.
Proof.
  unfold operationOf.
  destruct (classResponses ++ _) as [|r rs].
  - intros H. inversion H. eexists; reflexivity.
  - destruct (foldResponses (r :: rs)); simpl; intros H; inversion H.
    eexists; reflexivity.
Qed.


(** ** The duplicate check *)





(** ** The base document *)

Lemma truthy_structuredClone (v : json) : truthy (structuredClone v) = truthy v.
Proof. destruct v; reflexivity. Qed.

Lemma prop_get_map V W (f : V -> W) (k : string) (o : list (string * V)) :
  prop_get k (map (fun kv => match kv with (k', x) => (k', f x) end) o)
  = option_map f (prop_get k o).
Proof.
  induction o as [|[k' v] o IH]; simpl; auto.
  destruct (String.eqb k k'); auto.
Qed.


Lemma toLowerCase_not_parameters (m : MethodMetadata) : toLowerCase m <> "parameters".
Proof. destruct m; discriminate. Qed.

Lemma describeOp_parameters (op : Operation) (paths paths' : PathsObject)
      (p : string) (item : PathItemObject) :
  describeOp op paths = Ok paths' ->
  prop_get p (paths_items paths) = Some item ->
  exists item',
    prop_get p (paths_items paths') = Some item'
    /\ prop_get "parameters" (item_props item') = prop_get "parameters" (item_props item).
Proof.
  unfold describeOp, addOperation.
  set (oaPath := oaPathOf _). set (method := toLowerCase _).
  set (oaPathItem := match prop_get oaPath (paths_items paths) with
                     | Some item => item | None => _ end).
  destruct (truthy _); [discriminate|].
  destruct (operationOf _ _ _ _ _) as [j|]; [|discriminate].
  simpl. intros H Hp. inversion H; subst; clear H. simpl.
  destruct (string_dec oaPath p) as [<-|Hne].
  - rewrite prop_get_set_same. eexists; split; [reflexivity|]. simpl.
    subst oaPathItem. rewrite Hp.
    apply prop_get_set_other. apply toLowerCase_not_parameters.
  - rewrite prop_get_set_other by assumption. eauto.
Qed.

Lemma describeOps_parameters (ops : list Operation) (paths paths' : PathsObject)
      (p : string) (item : PathItemObject) :
  forM ops describeOp paths = Ok paths' ->
  prop_get p (paths_items paths) = Some item ->
  exists item',
    prop_get p (paths_items paths') = Some item'
    /\ prop_get "parameters" (item_props item') = prop_get "parameters" (item_props item).
Proof.
  revert paths item. induction ops as [|op ops IH]; intros paths item; cbn [forM].
  - intros H Hp. inversion H; subst. eauto.
  - destruct (describeOp op paths) as [paths1|] eqn:Hop; cbn [bind]; [|discriminate].
    intros H Hp.
    destruct (@describeOp_parameters _ _ _ _ _ Hop Hp) as (item1 & Hp1 & Heq1).
    destruct (IH _ _ H Hp1) as (item' & Hp' & Heq').
    exists item'. split; auto. congruence.
Qed.

Lemma mergeSchemas_paths (schemas : list (string * json)) (doc : OpenAPIObject) :
  oa_paths (mergeSchemas schemas doc) = oa_paths doc.
Proof. destruct schemas; reflexivity. Qed.

(** What synthesis returns, when it returns: the clone of the base with
    the paths that the loop over the operations has built, and with the
    derived schemas where there are any. *)
Lemma getOpenAPISchema_shape (derived : Pattern -> result (list (string * json)))
      (base : OpenAPIObject) (controllers : Controllers) (pattern : option Pattern)
      (doc : OpenAPIObject) :
  getOpenAPISchema derived true base controllers pattern = Ok doc ->
  exists paths,
    forM (operations (asArray controllers)) describeOp
         (orElse (option_map clonePaths (oa_paths base))
                 {| paths_owner := Fresh; paths_items := [] |}) = Ok paths
    /\ (doc = withPaths base paths
        \/ exists pat schemas,
             pattern = Some pat /\ derived pat = Ok schemas
             /\ doc = mergeSchemas schemas (withPaths base paths)).
Proof.
  unfold getOpenAPISchema. cbn [negb cloneDocument oa_paths doc_owner oa_components oa_rest].
  rewrite describeControllers_operations.
  destruct (forM (operations (asArray controllers)) describeOp _) as [paths|];
    cbn [bind]; [|discriminate].
  intros H. exists paths. split; [reflexivity|].
  destruct (patternTruthy pattern).
  - destruct pattern as [pat|].
    + destruct (derived pat) as [schemas|] eqn:E; inversion H.
      right. exists pat, schemas. auto.
    + left. now inversion H.
  - left. now inversion H.
Qed.

Lemma getOpenAPISchema_paths (derived : Pattern -> result (list (string * json)))
      (base : OpenAPIObject) (controllers : Controllers) (pattern : option Pattern)
      (doc : OpenAPIObject) :
  getOpenAPISchema derived true base controllers pattern = Ok doc ->
  exists paths,
    forM (operations (asArray controllers)) describeOp
         (orElse (option_map clonePaths (oa_paths base))
                 {| paths_owner := Fresh; paths_items := [] |}) = Ok paths
    /\ oa_paths doc = Some paths.
Proof.
  intros H. destruct (getOpenAPISchema_shape _ _ _ _ H) as (paths & Hloop & Hdoc).
  exists paths. split; [exact Hloop|].
  destruct Hdoc as [->|(pat & schemas & _ & _ & ->)]; [reflexivity|].
  now rewrite mergeSchemas_paths.
Qed.




(** ** The matcher *)

(** An expression hands to its continuation a rest of its input, further
    on. *)
Lemma run_ext (r : regex) :
  forall pos s cs (k1 k2 : cont),
    (forall pos' s' cs',
        pos' + String.length s' = pos + String.length s -> pos <= pos' ->
        k1 pos' s' cs' = k2 pos' s' cs') ->
    run r pos s cs k1 = run r pos s cs k2.
Proof.
  induction r as [p|r1 IH1 r2 IH2|r1 IH1 r2 IH2|r1 IH1|r1 IH1|i r1 IH1| |];
    intros pos s cs k1 k2 H; cbn [run].
  - destruct s as [|c s]; [reflexivity|]. destruct (p c); [|reflexivity].
    apply H; simpl; lia.
  - apply IH1. intros pos' s' cs' Hlen Hle. apply IH2.
    intros pos'' s'' cs'' Hlen' Hle'. apply H; lia.
  - rewrite (IH1 _ _ _ k1 k2 H), (IH2 _ _ _ k1 k2 H). reflexivity.
  - generalize (S (String.length s)) as n. intros n.
    assert (Hloop : forall n pos1 s1 cs1,
               pos1 + String.length s1 = pos + String.length s -> pos <= pos1 ->
               plusLoop (run r1) k1 n pos1 s1 cs1 = plusLoop (run r1) k2 n pos1 s1 cs1).
    { clear n. induction n as [|n IHn]; intros pos1 s1 cs1 Hlen Hle; cbn [plusLoop].
      - reflexivity.
      - apply IH1. intros pos' s' cs' Hlen' Hle'.
        rewrite (H pos' s' cs') by lia.
        destruct (Nat.ltb pos1 pos'); [|reflexivity].
        rewrite IHn by lia. reflexivity. }
    apply Hloop; lia.
  - rewrite (IH1 _ _ _ k1 k2 H). destruct (run r1 pos s cs k2); [reflexivity|].
    apply H; lia.
  - apply IH1. intros pos' s' cs' Hlen Hle. apply H; lia.
  - destruct (Nat.eqb pos 0); [|reflexivity]. apply H; lia.
  - destruct s; [|reflexivity]. apply H; lia.
Qed.

(** The bound on the repetitions is never reached: any bound above the
    length of the input gives the same match. *)
Lemma plusLoop_fuel (r : regex) (k : cont) :
  forall n m pos s cs,
    String.length s < n -> String.length s < m ->
    plusLoop (run r) k n pos s cs = plusLoop (run r) k m pos s cs.
Proof.
  induction n as [|n IH]; intros m pos s cs Hn Hm; [lia|].
  destruct m as [|m]; [lia|]. cbn [plusLoop].
  apply run_ext. intros pos' s' cs' Hlen Hle.
  destruct (Nat.ltb pos pos') eqn:E; [|reflexivity].
  apply Nat.ltb_lt in E. rewrite (IH m) by lia. reflexivity.
Qed.

(** ** The path translator *)

Lemma oaPathRegex_needs_param (pos : nat) (s : string) :
  startsParam s = false -> match_at oaPathRegex pos s = None.
Proof.
  unfold startsParam, match_at, oaPathRegex.
  destruct s as [|c [|d s]]; cbn [run plusLoop String.length]; intros H.
  - reflexivity.
  - now destruct (isChar ":" c).
  - destruct (isChar ":" c); [|reflexivity].
    simpl in H. now rewrite H.
Qed.

Lemma paramRegex_needs_param (pos : nat) (s : string) :
  startsParam s = false -> match_at paramRegex pos s = None.
Proof.
  unfold startsParam, match_at, paramRegex.
  destruct s as [|c [|d s]]; cbn [run plusLoop String.length]; intros H.
  - reflexivity.
  - now destruct (isChar ":" c).
  - destruct (isChar ":" c); [|reflexivity].
    simpl in H. now rewrite H.
Qed.

(** Conversely, both expressions match wherever [:] is followed by a
    character of an identifier. *)
Lemma plusLoop_total (step : nat -> string -> captures -> cont -> option matched)
      (k : cont) (n pos : nat) (s : string) (cs : captures) :
  (forall pos s cs, k pos s cs <> None) ->
  (forall k', (forall pos s cs, k' pos s cs <> None) -> step pos s cs k' <> None) ->
  plusLoop step k (S n) pos s cs <> None.
Proof.
  intros Hk Hstep. cbn [plusLoop]. apply Hstep. intros pos' s' cs'.
  destruct (if Nat.ltb pos pos' then _ else _); [discriminate|apply Hk].
Qed.

Lemma paramRegex_matches_param (pos : nat) (s : string) :
  startsParam s = true -> match_at paramRegex pos s <> None.
Proof.
  unfold startsParam, match_at, paramRegex.
  destruct s as [|c [|d s]]; try discriminate.
  intros H. apply andb_true_iff in H. destruct H as [Hc Hd].
  cbn [run]. rewrite Hc.
  apply plusLoop_total.
  - intros pos' s' cs'.
    match goal with |- match ?x with _ => _ end <> None => destruct x end; discriminate.
  - intros k' Hk'. cbn [run]. rewrite Hd. apply Hk'.
Qed.

Lemma oaPathRegex_matches_param (pos : nat) (s : string) :
  startsParam s = true -> match_at oaPathRegex pos s <> None.
Proof.
  unfold startsParam, match_at, oaPathRegex.
  destruct s as [|c [|d s]]; try discriminate.
  intros H. apply andb_true_iff in H. destruct H as [Hc Hd].
  cbn [run]. rewrite Hc.
  apply plusLoop_total.
  - intros pos' s' cs'.
    match goal with |- match ?x with _ => _ end <> None => destruct x end; discriminate.
  - intros k' Hk'. cbn [run]. rewrite Hd. apply Hk'.
Qed.

Lemma scan_no_match (r : regex) :
  (forall pos s, startsParam s = false -> match_at r pos s = None) ->
  forall s pos, hasParam s = false -> scan r 0 pos s = lits s.
Proof.
  intros Hr. induction s as [|c s IH]; intros pos H.
  - cbn [scan]. now rewrite Hr.
  - cbn [hasParam] in H. apply orb_false_iff in H. destruct H as [H1 H2].
    cbn [scan]. rewrite (Hr _ _ H1). cbn [lits]. f_equal. now apply IH.
Qed.

Lemma unpieces_lits (s : string) (f : captures -> string) : unpieces (lits s) f = s.
Proof. induction s as [|c s IH]; simpl; congruence. Qed.

Lemma hits_lits (s : string) : hits (lits s) = [].
Proof. induction s as [|c s IH]; simpl; auto. Qed.

(** C9. A path with no parameter occurrence (no [:] followed by a letter,
    a digit or an underscore) is translated to itself, without any
    parameter descriptor; translating the result again changes nothing. *)
Theorem translate_without_parameters (p : string) (H : hasParam p = false) :
  oaPathOf p = p
  /\ parametersOf p = []
  /\ oaPathOf (oaPathOf p) = oaPathOf p.
Proof.
  assert (Hp : oaPathOf p = p).
  { unfold oaPathOf, replace.
    rewrite (@scan_no_match oaPathRegex oaPathRegex_needs_param) by assumption.
    apply unpieces_lits. }
  repeat split.
  - exact Hp.
  - unfold parametersOf, execAll.
    rewrite (@scan_no_match paramRegex paramRegex_needs_param) by assumption.
    now rewrite hits_lits.
  - now rewrite !Hp.
Qed.

(** ** The schema of a parameter *)

Lemma plusLoop_class_to_end (p : ascii -> bool) (k : cont) (s : string) :
  forall n pos cs,
    String.length s < n ->
    plusLoop (run (Chr p)) (fun pos' s' cs' => run Eol pos' s' cs' k) n pos s cs
    = if nonEmpty s && allChars p s then k (pos + String.length s) "" cs else None.
Proof.
  induction s as [|c s IH]; intros n pos cs Hn.
  - destruct n; reflexivity.
  - destruct n as [|n]; [inversion Hn|].
    cbn [plusLoop run allChars String.length].
    change (nonEmpty (String c s)) with true. cbn [andb].
    destruct (p c); [|reflexivity]. cbn [andb].
    assert (Hlt : Nat.ltb pos (S pos) = true) by (apply Nat.ltb_lt; lia).
    rewrite Hlt. rewrite IH by (simpl in Hn; lia).
    destruct s as [|d s].
    + cbn [nonEmpty allChars andb String.length]. simpl.
      replace (pos + 1) with (S pos) by lia. reflexivity.
    + change (nonEmpty (String d s)) with true. cbn [andb].
      replace (S pos + String.length (String d s))
        with (pos + S (String.length (String d s))) by lia.
      destruct (allChars p (String d s)).
      * destruct (k _ _ _); reflexivity.
      * reflexivity.
Qed.

Lemma enumRegex_after_start (s : string) (pos : nat) :
  0 < pos -> search enumRegex pos s = None.
Proof.
  revert pos. induction s as [|c s IH]; intros pos Hpos;
    (destruct pos; [inversion Hpos|]); cbn [search]; unfold match_at, enumRegex;
    cbn [run Nat.eqb]; [reflexivity|].
  apply IH. lia.
Qed.

Lemma search_enumRegex (pattern : string) :
  search enumRegex 0 pattern
  = if isEnumList pattern then Some (String.length pattern, "", []) else None.
Proof.
  assert (H : match_at enumRegex 0 pattern
              = if isEnumList pattern then Some (String.length pattern, "", []) else None).
  { unfold match_at, enumRegex.
    change (plusLoop (run (Chr enumChar))
                     (fun pos' s' cs' =>
                        run Eol pos' s' cs' (fun pos' s' cs' => Some (pos', s', cs')))
                     (S (String.length pattern)) 0 pattern []
            = if isEnumList pattern then Some (String.length pattern, "", []) else None).
    rewrite plusLoop_class_to_end by lia. reflexivity. }
  destruct pattern as [|c s]; cbn [search]; rewrite H.
  - reflexivity.
  - destruct (isEnumList (String c s)); [reflexivity|].
    apply enumRegex_after_start. lia.
Qed.


(** ** Response tuples *)

Lemma String_of_code_inj (a b : Z) : String_of_code a = String_of_code b -> a = b.
Proof.
  unfold String_of_code. intros H.
  assert (Hint : forall z, NilZero.int_of_string (NilZero.string_of_int (Z.to_int z))
                           = Some (Z.to_int z)).
  { intros z. apply NilZero.isi; destruct z; simpl; try discriminate;
      intros E; inversion E as [E'];
      now apply DecimalPos.Unsigned.to_uint_nonnil in E'. }
  apply (f_equal NilZero.int_of_string) in H. rewrite !Hint in H.
  inversion H as [H']. apply (f_equal Z.of_int) in H'.
  now rewrite !DecimalZ.of_to in H'.
Qed.

Lemma String_of_code_eqb (a b : Z) :
  String.eqb (String_of_code a) (String_of_code b) = Z.eqb a b.
Proof.
  destruct (Z.eqb_spec a b) as [->|Hne].
  - apply String.eqb_refl.
  - apply String.eqb_neq. intros H. now apply String_of_code_inj in H.
Qed.

Lemma responseEntry_key (r : ResponseMetadata) (k : string) (e : json) :
  responseEntry r = Ok (k, e) -> k = String_of_code (r_code r).
Proof.
  unfold responseEntry.
  destruct (if nullish (r_content r) then _ else _); cbn [bind]; intros H; now inversion H.
Qed.

Lemma find_app A (f : A -> bool) (xs ys : list A) :
  find f (xs ++ ys) = match find f xs with Some x => Some x | None => find f ys end.
Proof.
  induction xs as [|x xs IH]; simpl; auto. destruct (f x); auto.
Qed.

Lemma forM_responses_last (rs : list ResponseMetadata) :
  forall (acc o : list (string * json)) (code : Z),
    forM rs (fun r oaResponses =>
               e <- responseEntry r ;;
               Ok (prop_set (fst e) (snd e) oaResponses)) acc = Ok o ->
    prop_get (String_of_code code) o
    = match lastWithCode code rs with
      | Some r => entryOf r
      | None => prop_get (String_of_code code) acc
      end.
Proof.
  unfold lastWithCode.
  induction rs as [|r rs IH]; intros acc o code; cbn [forM].
  - intros H. now inversion H.
  - destruct (responseEntry r) as [[k e]|] eqn:Hr; cbn [bind fst snd]; [|discriminate].
    intros H. rewrite (IH _ _ code H). cbn [rev]. rewrite find_app.
    destruct (find _ (rev rs)); [reflexivity|].
    cbn [find]. pose proof (responseEntry_key _ Hr) as ->.
    destruct (Z.eqb_spec (r_code r) code) as [<-|Hne].
    + rewrite prop_get_set_same. unfold entryOf. now rewrite Hr.
    + apply prop_get_set_other. intros E. now apply String_of_code_inj in E.
Qed.

(** C1. A response tuple without content whose code has no entry in the
    table of defaults makes line 507 apply [in] to [undefined]: the tuple
    yields no entry, a [TypeError] is thrown. *)
Theorem response_without_default
        (r : ResponseMetadata)
        (Hcontent : nullish (r_content r) = true)
        (Hcode : prop_get (String_of_code (r_code r)) defaultResponses = None) :
  responseEntry r
  = Err (TypeError "Cannot use 'in' operator to search for 'content' in undefined").
Proof.
  unfold responseEntry. now rewrite Hcontent, Hcode.
Qed.

Lemma foldResponses_last (rs : list ResponseMetadata) (oaResponses : list (string * json))
      (code : Z) :
  foldResponses rs = Ok oaResponses ->
  prop_get (String_of_code code) oaResponses
  = match lastWithCode code rs with
    | Some r => entryOf r
    | None => None
    end.
Proof.
  unfold foldResponses. intros H. rewrite (forM_responses_last _ _ code H).
  now destruct (lastWithCode code rs).
Qed.

Lemma forM_responses_each (rs : list ResponseMetadata) :
  forall (acc o : list (string * json)) (r : ResponseMetadata),
    forM rs (fun r oaResponses =>
               e <- responseEntry r ;;
               Ok (prop_set (fst e) (snd e) oaResponses)) acc = Ok o ->
    In r rs -> entryOf r <> None.
Proof.
  induction rs as [|r0 rs IH]; intros acc o r; cbn [forM]; [intros _ []|].
  destruct (responseEntry r0) as [[k e]|] eqn:Hr; cbn [bind fst snd]; [|discriminate].
  intros H [<-|Hin].
  - unfold entryOf. now rewrite Hr.
  - now apply (IH _ _ _ H).
Qed.

(** C2, amended. In the operation that synthesis builds, the class-level
    tuples followed by the method-level tuples that share a code yield one
    entry under that code, and it is the entry of the last of them alone:
    each tuple replaces the entry of the tuples before it as a whole. *)
Theorem responses_same_code
        (md : DecoratorMetadataObject) (classTags : list TagMetadata)
        (classRequestBody : json) (classResponses : list ResponseMetadata)
        (handlerName : PropertyKey) (oaOperation : json)
        (code : Z) (r : ResponseMetadata)
        (H : operationOf md classTags classRequestBody classResponses handlerName
             = Ok oaOperation)
        (Hlast : lastWithCode code
                   (classResponses ++ orElse (lookup handlerName (RESPONSE md)) [])
                 = Some r) :
  entryOf r = Some (get (String_of_code code) (get "responses" oaOperation)).
Proof.
  unfold operationOf in H. cbv zeta in H.
  remember (classResponses ++ orElse (lookup handlerName (RESPONSE md)) []) as rs eqn:Ers.
  destruct rs as [|r0 rs]; [discriminate Hlast|].
  destruct (foldResponses (r0 :: rs)) as [o|] eqn:Ho; cbn [bind] in H; [|discriminate].
  inversion H; subst oaOperation; clear H.
  unfold get at 2. rewrite prop_get_set_same.
  unfold get. rewrite (foldResponses_last _ code Ho), Hlast.
  assert (Hin : In r (r0 :: rs)).
  { unfold lastWithCode in Hlast. apply find_some in Hlast.
    apply in_rev. tauto. }
  pose proof (forM_responses_each _ _ _ Ho Hin) as Hsome.
  now destruct (entryOf r).
Qed.

(** ** Object identity *)

Lemma json_ind' (P : json -> Prop) :
  P JUndef -> P JNull -> (forall b, P (JBool b)) -> (forall z, P (JNum z)) ->
  (forall s, P (JStr s)) ->
  (forall o xs, Forall P xs -> P (JArr o xs)) ->
  (forall o fs, Forall (fun kv => P (snd kv)) fs -> P (JObj o fs)) ->
  forall v, P v.
Proof.
  intros HU HN HB HZ HS HA HO.
  fix IH 1. intros [| |b|z|s|o xs|o fs].
  - exact HU.
  - exact HN.
  - apply HB.
  - apply HZ.
  - apply HS.
  - apply HA. induction xs as [|x xs IHxs]; constructor; [apply IH|exact IHxs].
  - apply HO. induction fs as [|[k x] fs IHfs]; constructor; [apply IH|exact IHfs].
Qed.

Lemma flat_map_nil A B (f : A -> list B) (xs : list A) :
  Forall (fun x => f x = []) xs -> flat_map f xs = [].
Proof.
  induction 1 as [|x xs Hx _ IH]; simpl; auto. now rewrite Hx, IH.
Qed.

Lemma held_structuredClone (v : json) : held (structuredClone v) = [].
Proof.
  induction v as [| | | | |o xs IH|o fs IH] using json_ind'; simpl; auto.
  - apply flat_map_nil. apply Forall_map. exact IH.
  - apply flat_map_nil. apply Forall_map.
    eapply Forall_impl; [|exact IH]. now intros [k x].
Qed.

Lemma heldProps_cloneProps (fs : list (string * json)) : heldProps (cloneProps fs) = [].
Proof.
  unfold heldProps, cloneProps. apply flat_map_nil. apply Forall_map.
  apply Forall_forall. intros [k x] _. apply held_structuredClone.
Qed.

Lemma owner_is_held_of (l : nat) (o : owner) : ~ In l (held_of o) -> owner_is l o = false.
Proof.
  destruct o as [|l'|]; simpl; auto.
  intros H. apply Nat.eqb_neq. intros ->. apply H. now left.
Qed.

(** An assignment to a property of an object changes only the values
    from which that object is reachable. *)
Lemma write_frame (l : nat) (k : string) (x : json) (v : json) :
  ~ In l (held v) -> write l k x v = v.
Proof.
  induction v as [| | | | |o xs IH|o fs IH] using json_ind'; simpl; auto; intros H.
  - f_equal. rewrite <- (map_id xs) at 2. apply map_ext_in.
    intros y Hy. rewrite Forall_forall in IH. apply IH; auto.
    intros Hl. apply H. apply in_or_app. right. apply in_flat_map. eauto.
  - rewrite owner_is_held_of by (intros Hl; apply H; apply in_or_app; now left).
    f_equal. rewrite <- (map_id fs) at 2. apply map_ext_in.
    intros [k' y] Hy. rewrite Forall_forall in IH. f_equal. apply (IH (k', y)); auto.
    intros Hl. apply H. apply in_or_app. right. apply in_flat_map.
    exists (k', y). auto.
Qed.

Lemma heldProps_set (k : string) (v : json) (fs : list (string * json)) (A : list nat) :
  incl (held v) A -> incl (heldProps fs) A -> incl (heldProps (prop_set k v fs)) A.
Proof.
  unfold heldProps. intros Hv. induction fs as [|[k' v'] fs IH]; simpl; intros Hfs.
  - now rewrite app_nil_r.
  - destruct (String.eqb k k'); simpl.
    + apply incl_app; auto. eapply incl_tran; [|exact Hfs]. now apply incl_appr.
    + apply incl_app.
      * eapply incl_tran; [|exact Hfs]. now apply incl_appl.
      * apply IH. eapply incl_tran; [|exact Hfs]. now apply incl_appr.
Qed.

Lemma heldProps_get (k : string) (v : json) (fs : list (string * json)) :
  prop_get k fs = Some v -> incl (held v) (heldProps fs).
Proof.
  unfold heldProps. induction fs as [|[k' v'] fs IH]; simpl; [discriminate|].
  destruct (String.eqb k k').
  - intros H. inversion H; subst. now apply incl_appl.
  - intros H. apply incl_appr. auto.
Qed.

Lemma held_nameToSchemaRef (name : string) : held (nameToSchemaRef name) = [].
Proof. unfold nameToSchemaRef. now destruct (endsWithBrackets name). Qed.

Lemma held_expandShorthand (v : json) : held v = [] -> held (expandShorthand v) = [].
Proof.
  destruct v; simpl; auto. intros _. now rewrite held_nameToSchemaRef.
Qed.

Lemma held_parameterOf (cs : captures) : held (parameterOf cs) = [].
Proof.
  unfold parameterOf, parameterSchema.
  destruct (capture 1 cs); destruct (capture 2 cs) as [p|]; simpl; auto;
    destruct (negb (String.eqb p "")); simpl; auto;
    destruct (search enumRegex 0 p); simpl; auto;
    repeat rewrite app_nil_r; apply flat_map_nil; apply Forall_map;
    apply Forall_forall; reflexivity.
Qed.

Lemma held_parameters (path : string) : flat_map held (parametersOf path) = [].
Proof.
  unfold parametersOf. apply flat_map_nil. apply Forall_map.
  apply Forall_forall. intros cs _. apply held_parameterOf.
Qed.

Lemma held_responseEntry (r : ResponseMetadata) (k : string) (e : json) :
  responseEntry r = Ok (k, e) -> incl (held e) (held (r_headers r)).
Proof.
  unfold responseEntry.
  destruct (if nullish (r_content r) then _ else _) as [uc|]; cbn [bind]; [|discriminate].
  intros H. inversion H; subst; clear H. cbn [held held_of heldProps flat_map snd app].
  assert (Huc : held match uc with
                     | JStr s =>
                         JObj Fresh [("application/json",
                                      JObj Fresh [("schema", nameToSchemaRef s)])]
                     | _ =>
                         if truthy uc then
                           match structuredClone uc with
                           | JObj o fs =>
                               JObj o (map (fun kv => match kv with (mediaType, v) =>
                                                        (mediaType, expandShorthand v) end) fs)
                           | JArr o xs => JArr o (map expandShorthand xs)
                           | v => v
                           end
                         else uc
                     end = []).
  { destruct uc as [| |b|z|s|o xs|o fs]; try reflexivity.
    - now destruct b.
    - cbn [truthy]. now destruct (negb (z =? 0)%Z).
    - cbn [held held_of flat_map snd app]. now rewrite held_nameToSchemaRef.
    - cbn [truthy structuredClone held held_of app].
      apply flat_map_nil. apply Forall_map. apply Forall_map.
      apply Forall_forall. intros x _. apply held_expandShorthand, held_structuredClone.
    - cbn [truthy structuredClone held held_of app].
      apply flat_map_nil. apply Forall_map. apply Forall_map.
      apply Forall_forall. intros [k' x] _. apply held_expandShorthand, held_structuredClone. }
  rewrite Huc. cbn [app]. rewrite app_nil_r. apply incl_refl.
Qed.

Lemma held_forM_responses (A : list nat) (rs : list ResponseMetadata) :
  forall acc o,
    forM rs (fun r oaResponses =>
               e <- responseEntry r ;;
               Ok (prop_set (fst e) (snd e) oaResponses)) acc = Ok o ->
    incl (heldProps acc) A ->
    (forall r, In r rs -> incl (held (r_headers r)) A) ->
    incl (heldProps o) A.
Proof.
  induction rs as [|r rs IH]; intros acc o; cbn [forM].
  - intros H. now inversion H.
  - destruct (responseEntry r) as [[k e]|] eqn:Hr; cbn [bind fst snd]; [|discriminate].
    intros H Hacc Hrs. apply (IH _ _ H).
    + apply heldProps_set; auto.
      eapply incl_tran; [apply (held_responseEntry _ Hr)|]. apply Hrs. now left.
    + intros r' Hin. apply Hrs. now right.
Qed.

Lemma held_operationOf (A : list nat) md classTags classRequestBody classResponses
      handlerName j :
  operationOf md classTags classRequestBody classResponses handlerName = Ok j ->
  incl (held classRequestBody) A ->
  (forall b, lookup handlerName (REQUEST_BODY md) = Some b -> incl (held b) A) ->
  (forall r, In r (classResponses ++ orElse (lookup handlerName (RESPONSE md)) []) ->
             incl (held (r_headers r)) A) ->
  incl (held j) A.
Proof.
  unfold operationOf. cbv zeta. intros H Hclass Hbody Hresp.
  set (tags := dedupe [] _) in *.
  set (op1 := match tags with [] => [] | _ => _ end) in *.
  assert (H1 : incl (heldProps op1) A).
  { subst op1. destruct tags as [|t ts]; [apply incl_nil_l|].
    apply heldProps_set; [|apply incl_nil_l].
    cbn [held held_of app]. rewrite flat_map_nil; [apply incl_nil_l|].
    apply Forall_map. apply Forall_forall. reflexivity. }
  clearbody op1.
  set (op2 := match lookup handlerName (SUMMARY md) with Some _ => _ | None => _ end) in *.
  assert (H2 : incl (heldProps op2) A).
  { subst op2. destruct (lookup handlerName (SUMMARY md)) as [s|]; auto.
    destruct (nonEmpty s); auto. apply heldProps_set; auto. apply incl_nil_l. }
  clearbody op2. clear H1 op1.
  set (op3 := match lookup handlerName (DESCRIPTION md) with Some _ => _ | None => _ end) in *.
  assert (H3 : incl (heldProps op3) A).
  { subst op3. destruct (lookup handlerName (DESCRIPTION md)) as [s|]; auto.
    destruct (nonEmpty s); auto. apply heldProps_set; auto. apply incl_nil_l. }
  clearbody op3. clear H2 op2.
  set (op4 := match lookup handlerName (OPERATION_ID md) with Some _ => _ | None => _ end) in *.
  assert (H4 : incl (heldProps op4) A).
  { assert (Hname : incl (heldProps match handlerName with
                                     | Name s => prop_set "operationId" (JStr s) op3
                                     | _ => op3
                                     end) A).
    { destruct handlerName; auto. apply heldProps_set; auto. apply incl_nil_l. }
    subst op4. destruct (lookup handlerName (OPERATION_ID md)) as [s|]; auto.
    destruct (nonEmpty s); auto. apply heldProps_set; auto. apply incl_nil_l. }
  clearbody op4. clear H3 op3.
  set (body := match lookup handlerName (REQUEST_BODY md) with Some _ => _ | None => _ end) in *.
  assert (Hb : incl (held body) A).
  { subst body. destruct (lookup handlerName (REQUEST_BODY md)) as [b|]; auto.
    destruct (nullish b); auto. }
  clearbody body.
  set (op5 := match body with JStr _ => _ | _ => _ end) in *.
  assert (H5 : incl (heldProps op5) A).
  { subst op5.
    destruct body; cbn [truthy]; auto;
      try (apply heldProps_set; auto);
      try match goal with |- context [if ?c then _ else _] => destruct c; auto end;
      try (apply heldProps_set; auto).
    cbn [held held_of flat_map snd app]. rewrite held_nameToSchemaRef. apply incl_nil_l. }
  clearbody op5. clear H4 op4.
  destruct (classResponses ++ _) as [|r rs].
  - inversion H; subst. exact H5.
  - destruct (foldResponses (r :: rs)) as [o|] eqn:Ho; cbn [bind] in H; [|discriminate].
    inversion H; subst. cbn [held held_of app].
    apply heldProps_set; auto. cbn [held held_of app].
    apply (held_forM_responses _ _ Ho); auto. apply incl_nil_l.
Qed.

Lemma map_prop_set V W (f : V -> W) (k : string) (v : V) (o : list (string * V)) :
  map (fun kv => match kv with (k', x) => (k', f x) end) (prop_set k v o)
  = prop_set k (f v) (map (fun kv => match kv with (k', x) => (k', f x) end) o).
Proof.
  induction o as [|[k' v'] o IH]; simpl; auto.
  destruct (String.eqb k k'); simpl; congruence.
Qed.

Lemma lookup_request_body (md : DecoratorMetadataObject) (key : PropertyKey) (b : json) :
  lookup key (REQUEST_BODY md) = Some b -> incl (held b) (heldByAnnotations md).
Proof.
  unfold heldByAnnotations, lookup. intros H. apply incl_appl.
  destruct (REQUEST_BODY md) as [m|]; [|discriminate]. cbn [orElse].
  induction m as [|[k' v] m IH]; simpl in *; [discriminate|].
  destruct (key_eqb key k').
  - inversion H; subst. now apply incl_appl.
  - apply incl_appr. auto.
Qed.

Lemma lookup_responses (md : DecoratorMetadataObject) (key : PropertyKey)
      (r : ResponseMetadata) :
  In r (orElse (lookup key (RESPONSE md)) []) ->
  incl (held (r_headers r)) (heldByAnnotations md).
Proof.
  unfold heldByAnnotations, lookup. intros H. apply incl_appr.
  destruct (RESPONSE md) as [m|]; [|destruct H]. cbn [orElse].
  induction m as [|[k' rs] m IH]; simpl in *; [destruct H|].
  destruct (key_eqb key k').
  - apply incl_appl. cbn [orElse] in H.
    intros l Hl. apply in_flat_map. eauto.
  - apply incl_appr. auto.
Qed.

Lemma describeOp_held (A : list nat) (op : Operation) (paths paths' : PathsObject) :
  describeOp op paths = Ok paths' ->
  incl (heldByAnnotations (op_md op)) A ->
  incl (held (pathsJson paths)) A ->
  incl (held (pathsJson paths')) A.
Proof.
  unfold describeOp, addOperation.
  set (oaPath := oaPathOf _). set (method := toLowerCase _).
  set (oaPathItem := match prop_get oaPath (paths_items paths) with
                     | Some item => item | None => _ end).
  destruct (truthy _); [discriminate|].
  destruct (operationOf _ _ _ _ _) as [j|] eqn:Hop; [|discriminate].
  cbn [bind]. intros H Hmd Hpaths. inversion H; subst; clear H.
  unfold pathsJson in *. cbn [paths_owner paths_items held] in *.
  apply incl_app; [eapply incl_tran; [|exact Hpaths]; now apply incl_appl|].
  assert (Hitems : incl (heldProps (map (fun kv => match kv with (k, i) =>
                                           (k, pathItemJson i) end) (paths_items paths))) A)
    by (eapply incl_tran; [|exact Hpaths]; now apply incl_appr).
  rewrite map_prop_set. apply heldProps_set; [|exact Hitems].
  unfold pathItemJson at 1. cbn [item_owner item_props held].
  assert (Hitem : incl (held (pathItemJson oaPathItem)) A).
  { subst oaPathItem.
    destruct (prop_get oaPath (paths_items paths)) as [item|] eqn:E.
    - eapply incl_tran; [|exact Hitems].
      apply (@heldProps_get oaPath). rewrite prop_get_map, E. reflexivity.
    - unfold pathItemJson. cbn [item_owner item_props held held_of app].
      match goal with
      | |- context [parametersOf ?path] => pose proof (held_parameters path) as Hp
      end.
      destruct (parametersOf _) as [|p ps]; [apply incl_nil_l|].
      cbn [flat_map snd held held_of app]. cbn [flat_map] in Hp.
      rewrite Hp. apply incl_nil_l. }
  unfold pathItemJson in Hitem. cbn [held] in Hitem.
  apply incl_app; [eapply incl_tran; [|exact Hitem]; now apply incl_appl|].
  apply heldProps_set; [|eapply incl_tran; [|exact Hitem]; now apply incl_appr].
  apply (held_operationOf _ _ _ _ _ Hop).
  - destruct (lookup CLASS_METADATA (REQUEST_BODY (op_md op))) as [b|] eqn:E;
      [|apply incl_nil_l].
    eapply incl_tran; [|exact Hmd]. now apply (lookup_request_body _ _ E).
  - intros b Hb. eapply incl_tran; [|exact Hmd]. now apply (lookup_request_body _ _ Hb).
  - intros r Hr. eapply incl_tran; [|exact Hmd].
    apply in_app_or in Hr. destruct Hr; eapply lookup_responses; eauto.
Qed.

Lemma describeOps_held (A : list nat) (ops : list Operation) :
  forall paths paths',
    forM ops describeOp paths = Ok paths' ->
    (forall op, In op ops -> incl (heldByAnnotations (op_md op)) A) ->
    incl (held (pathsJson paths)) A ->
    incl (held (pathsJson paths')) A.
Proof.
  induction ops as [|op ops IH]; intros paths paths'; cbn [forM].
  - intros H. now inversion H.
  - destruct (describeOp op paths) as [paths1|] eqn:Hop; cbn [bind]; [|discriminate].
    intros H Hops Hpaths. apply (IH _ _ H).
    + intros. apply Hops. now right.
    + eapply describeOp_held; [exact Hop| |exact Hpaths]. apply Hops. now left.
Qed.

Lemma operations_metadata (cs : list Controller) (op : Operation) :
  In op (operations cs) -> incl (heldByAnnotations (op_md op)) (heldByControllers cs).
Proof.
  unfold operations, heldByControllers. intros H.
  apply in_flat_map in H. destruct H as (c & Hc & Hop).
  intros l Hl. apply in_flat_map. exists c. split; auto.
  unfold operationsOf in Hop.
  destruct (classMetadata c) as [md|]; [|destruct Hop].
  destruct (PATH md) as [pathMap|]; [|destruct Hop].
  apply in_flat_map in Hop. destruct Hop as (e & _ & Hop).
  apply in_flat_map in Hop. destruct Hop as (cp & _ & Hop).
  apply in_map_iff in Hop. destruct Hop as (mp & <- & _). exact Hl.
Qed.

Lemma held_clonePaths (p : PathsObject) : held (pathsJson (clonePaths p)) = [].
Proof.
  unfold pathsJson, clonePaths. cbn [paths_owner paths_items held held_of app].
  apply flat_map_nil. apply Forall_map. apply Forall_map.
  apply Forall_forall. intros [k i] _. cbn [snd].
  unfold pathItemJson, clonePathItem. cbn [item_owner item_props held held_of app].
  apply heldProps_cloneProps.
Qed.

Lemma held_cloneComponents (c : ComponentsObject) :
  held (componentsJson (cloneComponents c)) = [].
Proof.
  unfold componentsJson, cloneComponents.
  cbn [components_owner co_schemas co_rest held held_of app].
  rewrite flat_map_app. fold (heldProps (cloneProps (co_rest c))).
  rewrite heldProps_cloneProps, app_nil_r.
  destruct (co_schemas c) as [s|]; cbn [option_map flat_map]; auto.
  unfold schemasJson, cloneSchemas. cbn [schemas_owner schemas_props held held_of app snd].
  rewrite app_nil_r. apply heldProps_cloneProps.
Qed.

Lemma heldProps_assign (A : list nat) (source target : list (string * json)) :
  incl (heldProps source) A -> incl (heldProps target) A ->
  incl (heldProps (assign target source)) A.
Proof.
  unfold assign. revert target.
  induction source as [|[k v] source IH]; intros target Hs Ht; cbn [fold_left fst snd]; auto.
  unfold heldProps in Hs. cbn [flat_map snd] in Hs.
  apply IH.
  - eapply incl_tran; [|exact Hs]. now apply incl_appr.
  - apply heldProps_set; auto. eapply incl_tran; [|exact Hs]. now apply incl_appl.
Qed.

Lemma held_withPaths (base : OpenAPIObject) (paths : PathsObject) :
  held (documentJson (withPaths base paths)) = held (pathsJson paths).
Proof.
  unfold documentJson, withPaths.
  cbn [doc_owner oa_paths oa_components oa_rest held held_of app flat_map snd].
  rewrite flat_map_app.
  fold (heldProps (cloneProps (oa_rest base))). rewrite heldProps_cloneProps.
  destruct (oa_components base) as [c|]; cbn [option_map flat_map snd].
  - now rewrite held_cloneComponents, !app_nil_r.
  - now rewrite app_nil_r.
Qed.

Lemma components_after_clone (base : OpenAPIObject) :
  let components :=
    orElse (option_map cloneComponents (oa_components base))
           {| components_owner := Fresh; co_schemas := None; co_rest := [] |} in
  held_of (components_owner components) = []
  /\ heldProps (co_rest components) = []
  /\ held_of (schemas_owner (orElse (co_schemas components)
                                    {| schemas_owner := Fresh; schemas_props := [] |})) = []
  /\ heldProps (schemas_props (orElse (co_schemas components)
                                      {| schemas_owner := Fresh; schemas_props := [] |})) = [].
Proof.
  destruct (oa_components base) as [c|]; cbn [option_map orElse]; [|now repeat split].
  unfold cloneComponents.
  cbn [components_owner co_schemas co_rest held_of].
  repeat split.
  - apply heldProps_cloneProps.
  - now destruct (co_schemas c).
  - destruct (co_schemas c) as [s|]; cbn [option_map orElse]; [|reflexivity].
    apply heldProps_cloneProps.
Qed.

Lemma held_mergeSchemas (A : list nat) (schemas : list (string * json))
      (base : OpenAPIObject) (paths : PathsObject) :
  incl (held (pathsJson paths)) A -> incl (heldProps schemas) A ->
  incl (held (documentJson (mergeSchemas schemas (withPaths base paths)))) A.
Proof.
  intros Hp Hs. destruct schemas as [|s0 schemas0]; cbn [mergeSchemas].
  - now rewrite held_withPaths.
  - set (schemas := s0 :: schemas0) in *.
    destruct (components_after_clone base) as (H1 & H2 & H3 & H4).
    unfold documentJson, componentsJson, schemasJson.
    cbn [doc_owner oa_paths oa_components oa_rest withPaths
         components_owner co_schemas co_rest schemas_owner schemas_props
         held held_of app flat_map snd].
    rewrite H1, H3. cbn [app].
    pose proof (heldProps_cloneProps (oa_rest base)) as H5.
    unfold heldProps in H2, H4, H5.
    apply incl_app; [exact Hp|].
    repeat apply incl_app.
    + apply heldProps_assign; auto. unfold heldProps. rewrite H4. apply incl_nil_l.
    + rewrite H2. apply incl_nil_l.
    + rewrite H5. apply incl_nil_l.
Qed.

(** Every caller-held object reachable from the returned document comes
    from the annotations or from the derived schemas. *)
Lemma getOpenAPISchema_held (derived : Pattern -> result (list (string * json)))
      (base : OpenAPIObject) (controllers : Controllers) (pattern : option Pattern)
      (doc : OpenAPIObject) (l : nat) :
  getOpenAPISchema derived true base controllers pattern = Ok doc ->
  In l (held (documentJson doc)) ->
  In l (heldByControllers (asArray controllers))
  \/ exists pat schemas, derived pat = Ok schemas /\ In l (heldProps schemas).
Proof.
  intros H Hl.
  destruct (getOpenAPISchema_shape _ _ _ _ H) as (paths & Hloop & Hdoc).
  assert (Hp : incl (held (pathsJson paths)) (heldByControllers (asArray controllers))).
  { eapply describeOps_held; [exact Hloop| |].
    - intros op Hop. now apply operations_metadata.
    - destruct (oa_paths base) as [p|]; cbn [option_map orElse].
      + rewrite held_clonePaths. apply incl_nil_l.
      + apply incl_nil_l. }
  destruct Hdoc as [->|(pat & schemas & _ & Hd & ->)].
  - left. apply Hp. now rewrite held_withPaths in Hl.
  - apply (@held_mergeSchemas (heldByControllers (asArray controllers) ++ heldProps schemas))
      in Hl.
    + apply in_app_or in Hl. destruct Hl; eauto.
    + now apply incl_appl.
    + now apply incl_appr.
Qed.

Lemma held_pathsOf (doc : OpenAPIObject) : incl (held (pathsOf doc)) (held (documentJson doc)).
Proof.
  unfold pathsOf, documentJson. destruct (oa_paths doc) as [p|]; [|apply incl_nil_l].
  cbn [held]. apply incl_appr. cbn [app flat_map snd]. now apply incl_appl.
Qed.

Lemma held_componentsOf (doc : OpenAPIObject) :
  incl (held (componentsOf doc)) (held (documentJson doc)).
Proof.
  unfold componentsOf, documentJson. destruct (oa_components doc) as [c|]; [|apply incl_nil_l].
  cbn [held]. apply incl_appr. rewrite !flat_map_app. apply incl_appr.
  cbn [app flat_map snd]. rewrite app_nil_r. apply incl_appl, incl_refl.
Qed.

(** C6, amended. When no request body or response header given to an
    annotation, and no derived schema, is or contains an object of the
    base document, an assignment to a property of an object reachable
    from the paths or the components of the returned document leaves the
    base document as it was: the returned document shares no object with
    the base. *)
Theorem returned_document_separate
        (derived : Pattern -> result (list (string * json)))
        (base : OpenAPIObject) (controllers : Controllers) (pattern : option Pattern)
        (doc : OpenAPIObject)
        (Hdoc : getOpenAPISchema derived true base controllers pattern = Ok doc)
        (Hann : forall l, In l (heldByControllers (asArray controllers)) ->
                          ~ In l (held (documentJson base)))
        (Hsch : forall pat schemas l, derived pat = Ok schemas -> In l (heldProps schemas) ->
                                      ~ In l (held (documentJson base))) :
  forall l, In l (held (pathsOf doc) ++ held (componentsOf doc)) ->
  forall k x, write l k x (documentJson base) = documentJson base.
Proof.
  intros l Hl k x. apply write_frame. intros Hbase.
  assert (Hin : In l (held (documentJson doc))).
  { apply in_app_or in Hl. destruct Hl as [Hl|Hl].
    - now apply held_pathsOf.
    - now apply held_componentsOf. }
  destruct (getOpenAPISchema_held _ _ _ _ _ Hdoc Hin) as [Ha|(pat & schemas & Hd & Hs)].
  - now apply (Hann l).
  - now apply (Hsch pat schemas l).
Qed.

(* ------------------------------------------------------------------ *)
(** ** The statements at work *)

(** The examples of the specification, section 8. *)
Example translate_plain_parameter :
  oaPathOf "/users/:id" = "/users/{id}"
  /\ parametersOf "/users/:id"
     = [JObj Fresh [("name", JStr "id"); ("in", JStr "path"); ("required", JBool true);
                    ("schema", JObj Fresh [("type", JStr "string")])]].
Proof. split; reflexivity. Qed.

Example translate_pattern_parameter :
  oaPathOf "/x/:id([0-9]+)" = "/x/{id}"
  /\ map (get "schema") (parametersOf "/x/:id([0-9]+)")
     = [JObj Fresh [("type", JStr "string"); ("pattern", JStr "[0-9]+")]].
Proof. split; reflexivity. Qed.

Example translate_enum_parameter :
  oaPathOf "/x/:name(a|b|c)" = "/x/{name}"
  /\ map (get "schema") (parametersOf "/x/:name(a|b|c)")
     = [JObj Fresh [("type", JStr "string");
                    ("enum", JArr Fresh [JStr "a"; JStr "b"; JStr "c"])]].
Proof. split; reflexivity. Qed.

(** An escaped parenthesis does not end the pattern. *)
Example translate_escaped_parenthesis :
  oaPathOf "/x/:id(a\)b)/y" = "/x/{id}/y"
  /\ map (get "schema") (parametersOf "/x/:id(a\)b)/y")
     = [JObj Fresh [("type", JStr "string"); ("pattern", JStr "a\)b")]].
Proof. split; reflexivity. Qed.

Example schema_reference_array :
  nameToSchemaRef "Widget[]"
  = JObj Fresh [("type", JStr "array");
                ("items", JObj Fresh [("$ref", JStr "#/components/schemas/Widget")])].
Proof. reflexivity. Qed.

Example class_level_response :
  exists doc paths item,
    getOpenAPISchema noSchemas true minimalDocument (One Widgets) None = Ok doc
    /\ oa_paths doc = Some paths
    /\ prop_get "/widgets" (paths_items paths) = Some item
    /\ get "responses" (get "get" (pathItemJson item))
       = JObj Fresh
           [("200",
             JObj Fresh
               [("description", JStr "Successful request");
                ("content",
                 JObj Fresh
                   [("application/json",
                     JObj Fresh
                       [("schema",
                         JObj Fresh [("$ref", JStr "#/components/schemas/Widget")])])]);
                ("headers", JUndef)])].
Proof. do 3 eexists. repeat split; reflexivity. Qed.


Lemma annotations_applied_twice_witness :
  method POST {| kind := KMethod; name := Name "loginFn";
                 metadata := Some (set_METHOD [(Name "loginFn", GET)] emptyMetadata) |}
  = Err DuplicateAnnotation
  /\ exists md1 md2,
       path "/auth" {| kind := KMethod; name := Name "loginFn";
                       metadata := Some emptyMetadata |} = Ok md1
       /\ path "/login" {| kind := KMethod; name := Name "loginFn";
                           metadata := Some md1 |} = Ok md2
       /\ lookup (Name "loginFn") (PATH md2) = Some ["/auth"; "/login"].
Proof.
  destruct (@annotations_applied_twice
              {| kind := KMethod; name := Name "loginFn"; metadata := Some emptyMetadata |}
              emptyMetadata eq_refl (or_intror eq_refl))
    as (Hmethod & _ & _ & _ & _ & Hpath & _).
  split.
  - exact (Hmethod GET POST _ eq_refl).
  - exact (Hpath "/auth" "/login").
Defined.

Lemma translate_without_parameters_witness :
  oaPathOf "/openapi.json" = "/openapi.json"
  /\ parametersOf "/openapi.json" = []
  /\ oaPathOf (oaPathOf "/openapi.json") = oaPathOf "/openapi.json".
Proof. apply translate_without_parameters. reflexivity. Defined.

(** [@response(201)]: the code has no default and no content is given. *)
Lemma response_without_default_witness :
  responseEntry {| r_code := 201; r_content := JUndef;
                   r_description := None; r_headers := JUndef |}
  = Err (TypeError "Cannot use 'in' operator to search for 'content' in undefined").
Proof. apply response_without_default; reflexivity. Defined.

(** The same through synthesis: no document is returned for a class with
    [@response(201)]. *)
Example synthesis_with_unknown_code :
  getOpenAPISchema noSchemas true minimalDocument (One Created) None
  = Err (TypeError "Cannot use 'in' operator to search for 'content' in undefined").
Proof. reflexivity. Qed.

(** [@response(200, 'Widget', 'All widgets')] on the class and
    [@response(200)] on the method: the entry is that of [@response(200)]
    alone, with the description and the content of the default. *)
Lemma responses_same_code_witness :
  entryOf {| r_code := 200; r_content := JUndef; r_description := None; r_headers := JUndef |}
  = Some (JObj Fresh [("description", JStr "Successful request");
                      ("content", structuredClone (textPlain [("type", JStr "string")]));
                      ("headers", JUndef)]).
Proof.
  exact (@responses_same_code
           (set_RESPONSE
              [(Name "list",
                [{| r_code := 200; r_content := JUndef;
                    r_description := None; r_headers := JUndef |}])]
              emptyMetadata)
           [] JUndef
           [{| r_code := 200; r_content := JStr "Widget";
               r_description := Some "All widgets"; r_headers := JUndef |}]
           (Name "list") _ 200 _ eq_refl eq_refl).
Defined.

(** C2 fails as the specification states it: after
    [@response(200, 'Widget', 'All widgets')], [@response(200)] leaves the
    default description in the entry, not ['All widgets']. *)
Lemma responses_merge_fieldwise_fails : ~ responses_merge_fieldwise.
Proof.
  intros claim.
  specialize (claim {| r_code := 200; r_content := JStr "Widget";
                       r_description := Some "All widgets"; r_headers := JUndef |}
                    {| r_code := 200; r_content := JUndef;
                       r_description := None; r_headers := JUndef |}
                    "All widgets" _ eq_refl eq_refl eq_refl eq_refl).
  discriminate claim.
Qed.



(** A request body held by the caller apart from the base document: it
    is in the returned paths, and an assignment to one of its properties
    is not seen through the base. *)
Lemma returned_document_separate_witness :
  match getOpenAPISchema noSchemas true minimalDocument (One Pets) None with
  | Ok doc =>
      In 7 (held (pathsOf doc))
      /\ write 7 "description" (JStr "Changed") (documentJson minimalDocument)
         = documentJson minimalDocument
  | Err _ => False
  end.
Proof.
  destruct (getOpenAPISchema noSchemas true minimalDocument (One Pets) None)
    as [doc|e] eqn:E.
  - assert (Hin : In 7 (held (pathsOf doc)))
      by (vm_compute in E; inversion E; subst doc; now left).
    split; [exact Hin|].
    refine (@returned_document_separate noSchemas minimalDocument (One Pets) None doc
              E _ _ 7 (in_or_app _ _ _ (or_introl Hin)) _ _).
    + intros l Hl Hb. vm_compute in Hl, Hb.
      destruct Hl as [<-|[<-|[]]]; destruct Hb as [Hb|[Hb|[]]]; discriminate Hb.
    + intros pat schemas l Hs Hl. inversion Hs; subst. destruct Hl.
  - vm_compute in E. discriminate E.
Defined.

(** C6 fails as the specification states it: the object given to
    [@requestBody] is put into the returned paths as it is, and here it is
    an object of the base document, so that an assignment to a property of
    [doc.paths['/pets'].post.requestBody] is seen through the base. *)
Lemma returned_document_independent_fails : ~ returned_document_independent.
Proof.
  intros claim.
  specialize (claim noSchemas documentWithPet (One Pets) None _ eq_refl 7
                    (or_introl eq_refl) "description" (JStr "Changed")).
  discriminate claim.
Qed.

(** C8. For [export type Status = 'active'] the generator returns the
    constant at the root of the schema; [fixSchema] looks at what an
    object contains, never at the object it is called on, and the
    constant is still there in [components.schemas.Status]. *)
Theorem root_constant_is_kept :
  Schema.generateSchemaDefinitions 8 [("Status.d.mts", Schema.Returns (Schema.Ref 0))]
                                   ([], statusHeap)
  = Some (Ok ([("Status", Schema.Ref 0)],
              [Schema.Obj [("type", Schema.Str "string"); ("const", Schema.Str "active")];
               Schema.Obj []])).
Proof. reflexivity. Qed.

(** The same in the document that synthesis returns. *)
Example status_component :
  exists doc,
    getOpenAPISchema statusSchemas true minimalDocument (Many [])
                     (Some (PString "Status.d.mts")) = Ok doc
    /\ get "Status" (get "schemas" (componentsOf doc))
       = JObj Fresh [("type", JStr "string"); ("const", JStr "active")].
Proof. eexists. split; reflexivity. Qed.

(** Below the root the constant is rewritten ([tag]); a reference to a
    definition that is itself a reference is replaced by that reference
    ([kind] is left with [#/definitions/Kind]). *)
Example alias_reference_is_kept :
  exists h,
    Schema.generateSchemaDefinitions 8 [("Item.d.mts", Schema.Returns (Schema.Ref 0))]
                                     ([], itemHeap)
    = Some (Ok ([("Item", Schema.Ref 0)], h))
    /\ Schema.read (Schema.read (Schema.read (Schema.Ref 0) "properties" h) "kind" h) "$ref" h
       = Schema.Str "#/definitions/Kind"
    /\ Schema.read (Schema.read (Schema.read (Schema.Ref 0) "properties" h) "tag" h) "const" h
       = Schema.Undefined
    /\ Schema.load 7 h = Some (Schema.Arr [Schema.Str "t"])
    /\ Schema.read (Schema.read (Schema.read (Schema.Ref 0) "properties" h) "tag" h) "enum" h
       = Schema.Ref 7.
Proof. eexists. repeat split; reflexivity. Qed.

(* ------------------------------------------------------------------ *)
(** * Further properties *)

(** ** The decorators: targets, frames, order of the sites *)

Lemma Map_get_set_other V (k k' : PropertyKey) (v : V) (m : Map V) :
  k <> k' -> Map_get k' (Map_set k v m) = Map_get k' m.
Proof.
  intros Hne. induction m as [|[k0 v0] m IH]; simpl.
  - destruct (key_eqb k' k) eqn:E; auto. apply key_eqb_eq in E. congruence.
  - destruct (key_eqb k k0) eqn:E; simpl.
    + apply key_eqb_eq in E. subst k0.
      destruct (key_eqb k' k) eqn:E'; auto. apply key_eqb_eq in E'. congruence.
    + destruct (key_eqb k' k0); auto.
Qed.

Lemma Map_set_keys V (k : PropertyKey) (v : V) (m : Map V) :
  map fst (Map_set k v m)
  = if Map_has k m then map fst m else map fst m ++ [k].
Proof.
  unfold Map_has. induction m as [|[k0 v0] m IH]; simpl; auto.
  destruct (key_eqb k k0) eqn:E; simpl.
  - apply key_eqb_eq in E. now subst.
  - rewrite IH. now destruct (Map_get k m).
Qed.

Lemma pushAll_other V (m : option (Map (list V))) (k k' : PropertyKey) (vs : list V) :
  k <> k' -> Map_get k' (pushAll m k vs) = lookup k' m.
Proof.
  intros Hne. unfold pushAll, lookup.
  destruct m as [map|]; simpl.
  - destruct (Map_get k map); now rewrite Map_get_set_other.
  - destruct (key_eqb k' k) eqn:E; auto. apply key_eqb_eq in E. congruence.
Qed.

Lemma pushAll_keys V (m : option (Map (list V))) (k : PropertyKey) (vs : list V) :
  map fst (pushAll m k vs)
  = if Map_has k (orElse m []) then map fst (orElse m []) else map fst (orElse m []) ++ [k].
Proof.
  unfold pushAll. destruct m as [map|]; cbn [orElse].
  - destruct (Map_get k map) eqn:E; now rewrite Map_set_keys.
  - reflexivity.
Qed.

(** X1. A decorator on a field, a getter, a setter or an accessor, and a
    method-only decorator on a class, throws the unsupported-target error,
    whether or not the metadata is there: the kind is looked at first. *)
Theorem decorators_reject_other_targets
        (context : DecoratorContext) (Hkind : kind context <> KMethod) :
  (forall s, summary s context = Err UnsupportedTarget)
  /\ (forall d, description d context = Err UnsupportedTarget)
  /\ (forall i, operationId i context = Err UnsupportedTarget)
  /\ (forall b, requestBody b context = Err UnsupportedTarget)
  /\ (kind context <> KClass ->
      (forall m, method m context = Err UnsupportedTarget)
      /\ (forall p, path p context = Err UnsupportedTarget)
      /\ (forall ms, middleware ms context = Err UnsupportedTarget)
      /\ (forall ts, tag ts context = Err UnsupportedTarget)
      /\ (forall c x d h, response c x d h context = Err UnsupportedTarget)).
Proof.
  assert (G : guards false context = Err UnsupportedTarget)
    by (unfold guards; destruct (kind context); congruence).
  unfold summary, description, operationId, requestBody. rewrite G.
  repeat split; try reflexivity.
  all: unfold method, path, middleware, tag, response;
    assert (G' : guards true context = Err UnsupportedTarget)
      by (unfold guards; destruct (kind context); congruence);
    now rewrite G'.
Qed.

(** X2. On a class or a method without [context.metadata], every decorator
    that supports the target throws the metadata error, and nothing is
    stored. *)
Theorem decorators_need_metadata
        (context : DecoratorContext) (Hmeta : metadata context = None)
        (Hkind : kind context = KClass \/ kind context = KMethod) :
  (forall m, method m context = Err MetadataUnavailable)
  /\ (forall p, path p context = Err MetadataUnavailable)
  /\ (forall ms, middleware ms context = Err MetadataUnavailable)
  /\ (forall ts, tag ts context = Err MetadataUnavailable)
  /\ (forall c x d h, response c x d h context = Err MetadataUnavailable)
  /\ (kind context = KMethod ->
      (forall s, summary s context = Err MetadataUnavailable)
      /\ (forall d, description d context = Err MetadataUnavailable)
      /\ (forall i, operationId i context = Err MetadataUnavailable)
      /\ (forall b, requestBody b context = Err MetadataUnavailable)).
Proof.
  assert (G : guards true context = Err MetadataUnavailable)
    by (unfold guards; rewrite Hmeta; destruct Hkind as [-> | ->]; reflexivity).
  unfold method, path, middleware, tag, response. rewrite G.
  repeat split; try reflexivity.
  all: unfold summary, description, operationId, requestBody;
    assert (G' : guards false context = Err MetadataUnavailable)
      by (unfold guards; rewrite Hmeta;
          match goal with Hm : kind _ = KMethod |- _ => now rewrite Hm end);
    now rewrite G'.
Qed.

(** X3. [@path] at a site appends to the paths of that site and to
    nothing else: the paths of every other site and the maps of the other
    eight kinds are as before, and the sites keep their order, a site
    that had no path yet coming last.  (The order of the sites is the
    order in which routes are resolved.) *)
Theorem path_frame
        (context : DecoratorContext) (md : DecoratorMetadataObject) (p : PathMetadata)
        (Hmeta : metadata context = Some md)
        (Hkind : kind context = KClass \/ kind context = KMethod) :
  exists md',
    path p context = Ok md'
    /\ lookup (site context) (PATH md')
       = Some (orElse (lookup (site context) (PATH md)) [] ++ [p])
    /\ (forall k, k <> site context -> lookup k (PATH md') = lookup k (PATH md))
    /\ map fst (orElse (PATH md') [])
       = (if Map_has (site context) (orElse (PATH md) [])
          then map fst (orElse (PATH md) [])
          else map fst (orElse (PATH md) []) ++ [site context])
    /\ (METHOD md', MIDDLEWARE md', TAG md', SUMMARY md', DESCRIPTION md',
        OPERATION_ID md', REQUEST_BODY md', RESPONSE md')
       = (METHOD md, MIDDLEWARE md, TAG md, SUMMARY md, DESCRIPTION md,
          OPERATION_ID md, REQUEST_BODY md, RESPONSE md).
Proof.
  assert (G : guards true context = Ok md)
    by (destruct Hkind; [apply guards_class | apply guards_member]; assumption).
  unfold path. rewrite G. cbn [bind]. eexists. split; [reflexivity|].
  cbn [PATH set_PATH lookup orElse]. repeat split.
  - apply pushAll_get.
  - intros k Hk. apply pushAll_other. congruence.
  - apply pushAll_keys.
Qed.

(** X4. A single-valued decorator succeeds exactly when its site has no
    value of the kind yet; the value is then the one found at the site,
    and the other sites keep theirs.  Shown for [@method]. *)
Theorem method_once
        (context : DecoratorContext) (md : DecoratorMetadataObject) (m : MethodMetadata)
        (Hmeta : metadata context = Some md)
        (Hkind : kind context = KClass \/ kind context = KMethod) :
  (lookup (site context) (METHOD md) = None ->
   exists md',
     method m context = Ok md'
     /\ lookup (site context) (METHOD md') = Some m
     /\ (forall k, k <> site context -> lookup k (METHOD md') = lookup k (METHOD md)))
  /\ (lookup (site context) (METHOD md) <> None ->
      method m context = Err DuplicateAnnotation).
Proof.
  assert (G : guards true context = Ok md)
    by (destruct Hkind; [apply guards_class | apply guards_member]; assumption).
  unfold method. rewrite G. cbn [bind]. unfold setOnce, Map_has.
  assert (E : Map_get (site context) (match METHOD md with Some x => x | None => [] end)
              = lookup (site context) (METHOD md))
    by (unfold lookup; now destruct (METHOD md)).
  rewrite E. split.
  - intros ->. cbn [bind]. eexists. split; [reflexivity|].
    cbn [METHOD set_METHOD lookup]. split.
    + apply Map_get_set_same.
    + intros k Hk. rewrite Map_get_set_other by congruence.
      unfold lookup. now destruct (METHOD md).
  - intros H. now destruct (lookup (site context) (METHOD md)).
Qed.

(** ** Route resolution: all or nothing, composition *)

Lemma registerOp_unbound (op : Operation) (st : RegisterState) :
  bound op = false ->
  registerOp op st
  = Err (TypeError "Cannot read properties of undefined (reading 'bind')").
Proof.
  unfold bound, Map_has, registerOp, registerRoute. destruct st as [info registrar].
  destruct (Map_get (op_handlerName op) (members (op_controller op))); [discriminate|].
  reflexivity.
Qed.

Lemma registerOps_closed (ops : list Operation) (info : list RegisteredControllerInfo)
      (registrar : option (list Registration)) :
  forM ops registerOp (info, registrar)
  = if forallb bound ops
    then Ok (info ++ map routeOf ops,
             option_map (fun calls => calls ++ map callOf ops) registrar)
    else Err (TypeError "Cannot read properties of undefined (reading 'bind')").
Proof.
  revert info registrar. induction ops as [|op ops IH]; intros info registrar.
  - cbn [forM forallb map]. rewrite app_nil_r.
    destruct registrar; cbn [option_map]; now rewrite ?app_nil_r.
  - cbn [forM forallb map]. destruct (bound op) eqn:Hb; cbn [andb].
    + rewrite registerOp_ok by assumption. cbn [bind]. rewrite IH.
      destruct (forallb bound ops); [|reflexivity].
      rewrite <- app_assoc. cbn [app]. f_equal. f_equal.
      destruct registrar; cbn [option_map]; auto. now rewrite <- app_assoc.
    + now rewrite registerOp_unbound.
Qed.

(** X5. Route resolution is all or nothing.  When every path-bearing name
    of every controller is a function of its instance, the call returns
    one record per turn of the loops, in their order, and the registrar
    (when there is one) has received the matching calls after those it
    had.  As soon as one name is not, as for a static method, the call
    throws a [TypeError] and returns no record. *)
Theorem registerControllers_all_or_nothing
        (registrar : option (list Registration)) (controllers : Controllers) :
  registerControllers true registrar controllers
  = if forallb bound (operations (asArray controllers))
    then Ok (map routeOf (operations (asArray controllers)),
             option_map (fun calls => calls ++ map callOf (operations (asArray controllers)))
                        registrar)
    else Err (TypeError "Cannot read properties of undefined (reading 'bind')").
Proof.
  unfold registerControllers. cbn [negb].
  rewrite registerControllers_operations. apply registerOps_closed.
Qed.

Lemma operations_app (cs1 cs2 : list Controller) :
  operations (cs1 ++ cs2) = operations cs1 ++ operations cs2.
Proof. unfold operations. apply flat_map_app. Qed.

(** X6. Resolving the routes of two lists of controllers one after the
    other, the second on the registrar as the first has left it, gives
    the records and the calls of resolving their concatenation at once. *)
Theorem registerControllers_app
        (calls : list Registration) (cs1 cs2 : list Controller)
        (info1 info2 : list RegisteredControllerInfo) (calls1 calls2 : list Registration)
        (H1 : registerControllers true (Some calls) (Many cs1) = Ok (info1, Some calls1))
        (H2 : registerControllers true (Some calls1) (Many cs2) = Ok (info2, Some calls2)) :
  registerControllers true (Some calls) (Many (cs1 ++ cs2))
  = Ok (info1 ++ info2, Some calls2).
Proof.
  unfold registerControllers in *. cbn [negb asArray] in *.
  rewrite registerControllers_operations, registerOps_closed in *.
  rewrite operations_app, forallb_app.
  destruct (forallb bound (operations cs1)); [|discriminate].
  destruct (forallb bound (operations cs2)); [|discriminate].
  cbn [andb option_map app] in *. inversion H1; subst. inversion H2; subst.
  now rewrite !map_app, <- app_assoc.
Qed.

(** The registration that goes with a record. *)
Lemma callOf_routeOf (op : Operation) :
  callOf op
  = {| reg_verb := toLowerCase (info_method (routeOf op));
       reg_path := info_path (routeOf op);
       reg_middlewares := info_middlewares (routeOf op);
       reg_handler := info_handler (routeOf op) |}.
Proof. reflexivity. Qed.

(** X7. Whenever route resolution returns, the calls the registrar has
    received during it are the returned records, one call per record in
    the same order, under the lower-cased method of the record, with its
    path, its middlewares and its handler; and the records do not depend
    on there being a registrar. *)
Theorem registrar_mirrors_records
        (calls : list Registration) (controllers : Controllers)
        (info : list RegisteredControllerInfo) (received : list Registration)
        (H : registerControllers true (Some calls) controllers = Ok (info, Some received)) :
  received
  = calls ++ map (fun i => {| reg_verb := toLowerCase (info_method i);
                              reg_path := info_path i;
                              reg_middlewares := info_middlewares i;
                              reg_handler := info_handler i |}) info
  /\ registerControllers true None controllers = Ok (info, None).
Proof.
  unfold registerControllers in *. cbn [negb] in *.
  rewrite registerControllers_operations, registerOps_closed in *.
  destruct (forallb bound (operations (asArray controllers))); [|discriminate].
  cbn [option_map app] in *. inversion H; subst. split; [|reflexivity].
  f_equal. rewrite map_map. apply map_ext. intros op. apply callOf_routeOf.
Qed.

(** ** The path translator: one parameter at a time *)

Lemma length_append (a b : string) :
  String.length (a ++ b) = String.length a + String.length b.
Proof. induction a as [|c a IH]; simpl; congruence. Qed.

Lemma substring_prefix (a b : string) : substring 0 (String.length a) (a ++ b) = a.
Proof. induction a as [|c a IH]; simpl; [now destruct b|congruence]. Qed.

(** Where an expression without [^] is tried does not matter: positions
    shift. *)
Lemma run_shift (d : nat) (r : regex) :
  bolFree r = true ->
  forall pos s cs (k : cont),
    run r (d + pos) s cs k = run r pos s cs (fun p s' c => k (d + p) s' c).
Proof.
  induction r as [p|r1 IH1 r2 IH2|r1 IH1 r2 IH2|r1 IH1|r1 IH1|i r1 IH1| |];
    cbn [bolFree]; intros Hb pos s cs k; cbn [run].
  - destruct s as [|c s]; [reflexivity|]. destruct (p c); [|reflexivity].
    now rewrite Nat.add_succ_r.
  - apply andb_true_iff in Hb. destruct Hb as [Hb1 Hb2].
    rewrite IH1 by assumption. apply run_ext. intros pos' s' cs' _ _.
    now apply IH2.
  - apply andb_true_iff in Hb. destruct Hb as [Hb1 Hb2].
    now rewrite IH1, IH2.
  - generalize (S (String.length s)) as n. intros n. revert pos s cs.
    induction n as [|n IHn]; intros pos s cs; cbn [plusLoop]; [reflexivity|].
    rewrite IH1 by assumption. apply run_ext. intros pos' s' cs' _ _.
    replace (Nat.ltb (d + pos) (d + pos')) with (Nat.ltb pos pos').
    + destruct (Nat.ltb pos pos'); [|reflexivity]. now rewrite IHn.
    + destruct (Nat.ltb_spec pos pos'), (Nat.ltb_spec (d + pos) (d + pos')); auto; lia.
  - now rewrite IH1.
  - rewrite IH1 by assumption. apply run_ext. intros pos' s' cs' _ _.
    now replace (d + pos' - (d + pos)) with (pos' - pos) by lia.
  - discriminate.
  - reflexivity.
Qed.

(** A continuation that keeps failures as they are can be applied to the
    result. *)
Lemma run_map (g : matched -> matched) (r : regex) :
  forall pos s cs (k : cont),
    run r pos s cs (fun p s' c => option_map g (k p s' c))
    = option_map g (run r pos s cs k).
Proof.
  induction r as [p|r1 IH1 r2 IH2|r1 IH1 r2 IH2|r1 IH1|r1 IH1|i r1 IH1| |];
    intros pos s cs k; cbn [run].
  - destruct s as [|c s]; [reflexivity|]. now destruct (p c).
  - rewrite <- IH1. apply run_ext. intros pos' s' cs' _ _. apply IH2.
  - rewrite IH1, IH2. now destruct (run r1 pos s cs k).
  - generalize (S (String.length s)) as n. intros n. revert pos s cs.
    induction n as [|n IHn]; intros pos s cs; cbn [plusLoop]; [reflexivity|].
    rewrite <- IH1. apply run_ext. intros pos' s' cs' _ _.
    destruct (Nat.ltb pos pos'); [|reflexivity].
    rewrite IHn. now destruct (plusLoop (run r1) k n pos' s' cs').
  - rewrite IH1. now destruct (run r1 pos s cs k).
  - rewrite <- IH1. reflexivity.
  - now destruct (Nat.eqb pos 0).
  - now destruct s.
Qed.

Lemma match_at_shift (d : nat) (r : regex) (pos : nat) (s : string) :
  bolFree r = true ->
  match_at r (d + pos) s
  = option_map (fun m => match m with (p, s', c) => (d + p, s', c) end) (match_at r pos s).
Proof.
  intros Hb. unfold match_at. rewrite run_shift by assumption.
  now rewrite <- run_map.
Qed.

Lemma scan_shift (d : nat) (r : regex) :
  bolFree r = true ->
  forall s skip pos, scan r skip (d + pos) s = scan r skip pos s.
Proof.
  intros Hb. induction s as [|c s IH]; intros skip pos; cbn [scan].
  - rewrite match_at_shift by assumption.
    destruct skip; [|reflexivity]. now destruct (match_at r pos "") as [[[p s'] cs]|].
  - destruct skip as [|n].
    + rewrite match_at_shift by assumption.
      destruct (match_at r pos (String c s)) as [[[p s'] cs]|]; cbn [option_map].
      * replace (Nat.eqb (d + p) (d + pos)) with (Nat.eqb p pos)
          by (destruct (Nat.eqb_spec p pos), (Nat.eqb_spec (d + p) (d + pos)); auto; lia).
        replace (d + p - (d + pos) - 1) with (p - pos - 1) by lia.
        rewrite <- Nat.add_succ_r, !IH. reflexivity.
      * rewrite <- Nat.add_succ_r, IH. reflexivity.
    + rewrite <- Nat.add_succ_r. apply IH.
Qed.

Lemma scan_from_start (r : regex) (pos : nat) (s : string) :
  bolFree r = true -> scan r 0 pos s = scan r 0 0 s.
Proof.
  intros Hb. rewrite <- (Nat.add_0_r pos). now apply scan_shift.
Qed.

Lemma scan_skip (r : regex) (a : string) :
  forall pos s, scan r (String.length a) pos (a ++ s) = scan r 0 (pos + String.length a) s.
Proof.
  induction a as [|c a IH]; intros pos s; cbn [String.length append scan].
  - now rewrite Nat.add_0_r.
  - rewrite IH. f_equal. lia.
Qed.

Lemma scan_hit (r : regex) (x s : string) (pos : nat) (cs : captures) :
  x <> "" ->
  match_at r pos (x ++ s) = Some (pos + String.length x, s, cs) ->
  scan r 0 pos (x ++ s) = Hit cs :: scan r 0 (pos + String.length x) s.
Proof.
  destruct x as [|c x]; [congruence|]. intros _ H.
  cbn [append scan] in *. rewrite H. cbn [String.length].
  replace (Nat.eqb (pos + S (String.length x)) pos) with false
    by (symmetry; apply Nat.eqb_neq; lia).
  replace (pos + S (String.length x) - pos - 1) with (String.length x) by lia.
  rewrite scan_skip. f_equal. f_equal. lia.
Qed.

Lemma scan_literal (r : regex) :
  (forall pos s, startsParam s = false -> match_at r pos s = None) ->
  forall lit pos s,
    allChars notColon lit = true ->
    scan r 0 pos (lit ++ s) = lits lit ++ scan r 0 (pos + String.length lit) s.
Proof.
  intros Hr. induction lit as [|c lit IH]; intros pos s Hlit; cbn [append lits app String.length].
  - now rewrite Nat.add_0_r.
  - cbn [allChars] in Hlit. apply andb_true_iff in Hlit. destruct Hlit as [Hc Hlit].
    cbn [scan]. rewrite Hr.
    + rewrite IH by assumption.
      now replace (pos + S (String.length lit)) with (S pos + String.length lit) by lia.
    + unfold startsParam. unfold notColon in Hc. apply negb_true_iff in Hc.
      destruct (lit ++ s)%string; auto. now rewrite Hc.
Qed.

(** A repetition of steps that each take one plain character takes them
    all, when it cannot go on after them and the rest matches there. *)
Lemma plusLoop_greedy (step : nat -> string -> captures -> cont -> option matched)
      (q : ascii -> bool) (k : cont) (rest : string) :
  (forall c s pos cs k', q c = true -> step pos (String c s) cs k' = k' (S pos) s cs) ->
  (forall pos cs k', step pos rest cs k' = None) ->
  forall x n pos cs,
    x <> "" -> allChars q x = true ->
    String.length (x ++ rest) < n ->
    k (pos + String.length x) rest cs <> None ->
    plusLoop step k n pos (x ++ rest) cs = k (pos + String.length x) rest cs.
Proof.
  intros Hstep Hrest. induction x as [|c x IH]; intros n pos cs Hne Hall Hn Hk; [congruence|].
  cbn [allChars] in Hall. apply andb_true_iff in Hall. destruct Hall as [Hc Hall].
  destruct n as [|n]; [inversion Hn|]. cbn [plusLoop append String.length] in *.
  rewrite Hstep by assumption.
  replace (Nat.ltb pos (S pos)) with true by (symmetry; apply Nat.ltb_lt; lia).
  replace (pos + S (String.length x)) with (S pos + String.length x) in * by lia.
  destruct x as [|c' x].
  - cbn [append String.length] in *. rewrite Nat.add_0_r in *.
    destruct n as [|n]; [lia|]. cbn [plusLoop]. now rewrite Hrest.
  - rewrite IH; try assumption; try discriminate; try lia.
    destruct (k (S pos + String.length (String c' x)) rest cs); [reflexivity|congruence].
Qed.

Lemma identifier_step (c : ascii) (s : string) (pos : nat) (cs : captures) (k' : cont) :
  identChar c = true -> run (Chr identChar) pos (String c s) cs k' = k' (S pos) s cs.
Proof. intros H. cbn [run]. now rewrite H. Qed.

Lemma identifier_stops (rest : string) (pos : nat) (cs : captures) (k' : cont) :
  endsName rest = true -> run (Chr identChar) pos rest cs k' = None.
Proof.
  unfold endsName. destruct rest as [|c s]; cbn [run]; [reflexivity|].
  intros H. apply andb_true_iff in H. destruct H as [H _].
  apply negb_true_iff in H. now rewrite H.
Qed.

Lemma pattern_step (c : ascii) (s : string) (pos : nat) (cs : captures) (k' : cont) :
  plainPatternChar c = true ->
  run (Alt (Cat (Chr (isChar "\")) (Chr (isChar ")"))) (Chr notClose)) pos (String c s) cs k'
  = k' (S pos) s cs.
Proof.
  unfold plainPatternChar. intros H. apply andb_true_iff in H. destruct H as [H1 H2].
  apply negb_true_iff in H2. cbn [run]. now rewrite H2, H1.
Qed.

Lemma pattern_stops (s : string) (pos : nat) (cs : captures) (k' : cont) :
  run (Alt (Cat (Chr (isChar "\")) (Chr (isChar ")"))) (Chr notClose)) pos
      (String ")" s) cs k' = None.
Proof. reflexivity. Qed.

Lemma group_absent (G : regex) (pos : nat) (suffix : string) (cs : captures) (k : cont) :
  endsName suffix = true ->
  run (Opt (Cat (Chr (isChar "(")) G)) pos suffix cs k = k pos suffix cs.
Proof.
  unfold endsName. destruct suffix as [|c s]; cbn [run]; [reflexivity|].
  intros H. apply andb_true_iff in H. destruct H as [_ H].
  apply negb_true_iff in H. now rewrite H.
Qed.

(** [:name], not followed by a pattern. *)
Lemma match_name (G : regex) (pos : nat) (name suffix : string) :
  name <> "" -> allChars identChar name = true -> endsName suffix = true ->
  match_at (Cat (Chr (isChar ":"))
                (Cat (Cap 1 (Plus (Chr identChar))) (Opt (Cat (Chr (isChar "(")) G))))
           pos (String ":" (name ++ suffix))
  = Some (pos + String.length (String ":" name), suffix, [(1, name)]).
Proof.
  intros Hne Hall Hend. unfold match_at.
  change (plusLoop (run (Chr identChar))
            (fun pos' s' cs' =>
               run (Opt (Cat (Chr (isChar "(")) G)) pos' s'
                   ((1, substring 0 (pos' - S pos) (name ++ suffix)) :: cs')
                   (fun pos' s' cs' => Some (pos', s', cs')))
            (S (String.length (name ++ suffix))) (S pos) (name ++ suffix) []
          = Some (pos + String.length (String ":" name), suffix, [(1, name)])).
  rewrite (@plusLoop_greedy _ identChar _ suffix).
  - rewrite group_absent by assumption.
    replace (S pos + String.length name - S pos) with (String.length name) by lia.
    rewrite substring_prefix. cbn [String.length]. do 3 f_equal. lia.
  - intros. now apply identifier_step.
  - intros. now apply identifier_stops.
  - assumption.
  - assumption.
  - lia.
  - now rewrite group_absent by assumption.
Qed.

Lemma run_Cat (r1 r2 : regex) pos s cs (k : cont) :
  run (Cat r1 r2) pos s cs k = run r1 pos s cs (fun pos' s' cs' => run r2 pos' s' cs' k).
Proof. reflexivity. Qed.

Lemma run_Opt (r1 : regex) pos s cs (k : cont) :
  run (Opt r1) pos s cs k
  = match run r1 pos s cs k with Some m => Some m | None => k pos s cs end.
Proof. reflexivity. Qed.

Lemma run_Cap (i : nat) (r1 : regex) pos s cs (k : cont) :
  run (Cap i r1) pos s cs k
  = run r1 pos s cs (fun pos' s' cs' => k pos' s' ((i, substring 0 (pos' - pos) s) :: cs')).
Proof. reflexivity. Qed.

Lemma run_Chr (c : ascii) pos s cs (k : cont) :
  run (Chr (isChar c)) pos (String c s) cs k = k (S pos) s cs.
Proof. cbn [run]. unfold isChar. now rewrite Ascii.eqb_refl. Qed.

Lemma pattern_loop (k : cont) (pat rest : string) (pos : nat) (cs : captures) :
  pat <> "" -> allChars plainPatternChar pat = true ->
  k (pos + String.length pat) (String ")" rest) cs <> None ->
  run patternBody pos (pat ++ String ")" rest) cs k
  = k (pos + String.length pat) (String ")" rest) cs.
Proof.
  intros Hne Hall Hk.
  change (plusLoop (run (Alt (Cat (Chr (isChar "\")) (Chr (isChar ")"))) (Chr notClose))) k
                   (S (String.length (pat ++ String ")" rest))) pos
                   (pat ++ String ")" rest) cs
          = k (pos + String.length pat) (String ")" rest) cs).
  apply (@plusLoop_greedy _ plainPatternChar _ (String ")" rest)).
  - intros. now apply pattern_step.
  - intros. apply pattern_stops.
  - assumption.
  - assumption.
  - lia.
  - assumption.
Qed.

(** The optional group, on a pattern without parenthesis or backslash;
    [wrap] is the capture of the pattern, where there is one. *)
Lemma group_present (pat rest : string) (pos : nat) (cs : captures) :
  pat <> "" -> allChars plainPatternChar pat = true ->
  run (Opt (Cat (Chr (isChar "(")) (Cat patternBody (Chr (isChar ")")))))
      pos (String "(" (pat ++ String ")" rest)) cs (fun pos' s' cs' => Some (pos', s', cs'))
  = Some (S (S (pos + String.length pat)), rest, cs)
  /\ run (Opt (Cat (Chr (isChar "(")) (Cat (Cap 2 patternBody) (Chr (isChar ")")))))
         pos (String "(" (pat ++ String ")" rest)) cs (fun pos' s' cs' => Some (pos', s', cs'))
     = Some (S (S (pos + String.length pat)), rest, (2, pat) :: cs).
Proof.
  intros Hne Hall. split.
  - rewrite run_Opt, run_Cat, run_Chr, run_Cat.
    rewrite pattern_loop by (auto; rewrite run_Chr; discriminate).
    rewrite run_Chr. reflexivity.
  - rewrite run_Opt, run_Cat, run_Chr, run_Cat, run_Cap.
    rewrite pattern_loop by (auto; rewrite run_Chr; discriminate).
    rewrite run_Chr.
    replace (S pos + String.length pat - S pos) with (String.length pat) by lia.
    now rewrite substring_prefix.
Qed.

(** [:name(pattern)]. *)
Lemma match_name_pattern (pos : nat) (name pat rest : string) :
  name <> "" -> allChars identChar name = true ->
  pat <> "" -> allChars plainPatternChar pat = true ->
  match_at oaPathRegex pos (String ":" (name ++ String "(" (pat ++ String ")" rest)))
  = Some (pos + String.length (String ":" (name ++ String "(" (pat ++ ")"))), rest,
          [(1, name)])
  /\ match_at paramRegex pos (String ":" (name ++ String "(" (pat ++ String ")" rest)))
     = Some (pos + String.length (String ":" (name ++ String "(" (pat ++ ")"))), rest,
             [(2, pat); (1, name)]).
Proof.
  intros Hne Hall Hpne Hpall.
  set (suffix := String "(" (pat ++ String ")" rest)).
  unfold match_at, oaPathRegex, paramRegex. split.
  - rewrite run_Cat, run_Chr, run_Cat, run_Cap.
    change (plusLoop (run (Chr identChar))
              (fun pos' s' cs' =>
                 run (Opt (Cat (Chr (isChar "(")) (Cat patternBody (Chr (isChar ")"))))) pos' s'
                     ((1, substring 0 (pos' - S pos) (name ++ suffix)) :: cs')
                     (fun pos' s' cs' => Some (pos', s', cs')))
              (S (String.length (name ++ suffix))) (S pos) (name ++ suffix) []
            = Some (pos + String.length (String ":" (name ++ String "(" (pat ++ ")"))), rest,
                    [(1, name)])).
    rewrite (@plusLoop_greedy _ identChar _ suffix).
    + subst suffix. rewrite (proj1 (group_present rest _ _ Hpne Hpall)).
      replace (S pos + String.length name - S pos) with (String.length name) by lia.
      rewrite substring_prefix. do 3 f_equal.
      cbn [String.length]. rewrite !length_append. cbn [String.length].
      rewrite length_append. cbn [String.length]. lia.
    + intros. now apply identifier_step.
    + intros. reflexivity.
    + assumption.
    + assumption.
    + lia.
    + subst suffix. now rewrite (proj1 (group_present rest _ _ Hpne Hpall)).
  - rewrite run_Cat, run_Chr, run_Cat, run_Cap.
    change (plusLoop (run (Chr identChar))
              (fun pos' s' cs' =>
                 run (Opt (Cat (Chr (isChar "(")) (Cat (Cap 2 patternBody) (Chr (isChar ")")))))
                     pos' s'
                     ((1, substring 0 (pos' - S pos) (name ++ suffix)) :: cs')
                     (fun pos' s' cs' => Some (pos', s', cs')))
              (S (String.length (name ++ suffix))) (S pos) (name ++ suffix) []
            = Some (pos + String.length (String ":" (name ++ String "(" (pat ++ ")"))), rest,
                    [(2, pat); (1, name)])).
    rewrite (@plusLoop_greedy _ identChar _ suffix).
    + subst suffix. rewrite (proj2 (group_present rest _ _ Hpne Hpall)).
      replace (S pos + String.length name - S pos) with (String.length name) by lia.
      rewrite substring_prefix. do 3 f_equal.
      cbn [String.length]. rewrite !length_append. cbn [String.length].
      rewrite length_append. cbn [String.length]. lia.
    + intros. now apply identifier_step.
    + intros. reflexivity.
    + assumption.
    + assumption.
    + lia.
    + subst suffix. now rewrite (proj2 (group_present rest _ _ Hpne Hpall)).
Qed.

Lemma unpieces_app (a b : list piece) (f : captures -> string) :
  unpieces (a ++ b) f = (unpieces a f ++ unpieces b f)%string.
Proof.
  induction a as [|[c|cs] a IH]; cbn [app unpieces append]; auto.
  - now rewrite IH.
  - rewrite IH. clear. induction (f cs) as [|c s IHs]; cbn [append]; congruence.
Qed.

Lemma hits_app (a b : list piece) : hits (a ++ b) = hits a ++ hits b.
Proof.
  induction a as [|[c|cs] a IH]; cbn [app hits]; auto. now rewrite IH.
Qed.

Lemma nonEmpty_neq (s : string) : nonEmpty s = true -> s <> "".
Proof. unfold nonEmpty. intros H ->. discriminate. Qed.

(** The scan of [lit:name...] and of [lit:name(pattern)...]. *)
Lemma scan_parameter (r : regex) (lit x rest : string) (cs : captures) :
  bolFree r = true ->
  (forall pos s, startsParam s = false -> match_at r pos s = None) ->
  allChars notColon lit = true ->
  x <> "" ->
  (forall pos, match_at r pos (x ++ rest) = Some (pos + String.length x, rest, cs)) ->
  scan r 0 0 (lit ++ x ++ rest) = lits lit ++ Hit cs :: scan r 0 0 rest.
Proof.
  intros Hb Hr Hlit Hx Hm.
  rewrite scan_literal by assumption.
  rewrite (@scan_hit r x rest _ cs Hx (Hm _)).
  now rewrite (@scan_from_start r _ rest).
Qed.

(** X8. Translation goes parameter by parameter.  A path that starts with
    text free of [:], then [:name], the name being one or more letters,
    digits and underscores and the text after it starting with none of
    them nor with [(], is translated to that text, [{name}] and the
    translation of the rest; its parameters are the plain string
    parameter [name] and then those of the rest. *)
Theorem translate_parameter
        (lit name suffix : string)
        (Hlit : allChars notColon lit = true)
        (Hname : nonEmpty name = true)
        (Hident : allChars identChar name = true)
        (Hend : endsName suffix = true) :
  oaPathOf (lit ++ ":" ++ name ++ suffix)
  = (lit ++ "{" ++ name ++ "}" ++ oaPathOf suffix)%string
  /\ parametersOf (lit ++ ":" ++ name ++ suffix)
     = JObj Fresh [("name", JStr name); ("in", JStr "path"); ("required", JBool true);
                   ("schema", JObj Fresh [("type", JStr "string")])]
       :: parametersOf suffix.
Proof.
  apply nonEmpty_neq in Hname.
  assert (Hx : (":" ++ name ++ suffix = (":" ++ name) ++ suffix)%string) by reflexivity.
  split.
  - unfold oaPathOf, replace. rewrite Hx.
    rewrite (@scan_parameter oaPathRegex lit (":" ++ name) suffix [(1, name)]);
      try reflexivity; try assumption; try discriminate.
    + rewrite unpieces_app, unpieces_lits. cbn [unpieces group1 capture Nat.eqb].
      f_equal. clear. induction name as [|c n IH]; cbn [append] in *; congruence.
    + apply oaPathRegex_needs_param.
    + intros pos. now apply match_name.
  - unfold parametersOf, execAll. rewrite Hx.
    rewrite (@scan_parameter paramRegex lit (":" ++ name) suffix [(1, name)]);
      try reflexivity; try assumption; try discriminate.
    + rewrite hits_app, hits_lits. reflexivity.
    + apply paramRegex_needs_param.
    + intros pos. now apply match_name.
Qed.

Lemma append_assoc (a b c : string) : ((a ++ b) ++ c = a ++ b ++ c)%string.
Proof. induction a as [|x a IH]; cbn [append]; congruence. Qed.

(** X9. The same for [:name(pattern)], the pattern being one or more
    characters other than [)] and the backslash: whatever follows the
    closing parenthesis, the translation is [{name}] in the place of the
    parameter and its pattern, and the parameter has the schema of the
    pattern, an enumeration or a string pattern. *)
Theorem translate_parameter_pattern
        (lit name pat rest : string)
        (Hlit : allChars notColon lit = true)
        (Hname : nonEmpty name = true)
        (Hident : allChars identChar name = true)
        (Hpat : nonEmpty pat = true)
        (Hplain : allChars plainPatternChar pat = true) :
  oaPathOf (lit ++ ":" ++ name ++ "(" ++ pat ++ ")" ++ rest)
  = (lit ++ "{" ++ name ++ "}" ++ oaPathOf rest)%string
  /\ parametersOf (lit ++ ":" ++ name ++ "(" ++ pat ++ ")" ++ rest)
     = JObj Fresh
         [("name", JStr name); ("in", JStr "path"); ("required", JBool true);
          ("schema",
           if isEnumList pat
           then JObj Fresh [("type", JStr "string");
                            ("enum", JArr Fresh (map JStr (split "|" pat)))]
           else JObj Fresh [("type", JStr "string"); ("pattern", JStr pat)])]
       :: parametersOf rest.
Proof.
  pose proof (@nonEmpty_neq _ Hname) as Hn. pose proof (@nonEmpty_neq _ Hpat) as Hp.
  assert (Hx : (":" ++ name ++ "(" ++ pat ++ ")" ++ rest
                = (":" ++ name ++ "(" ++ pat ++ ")") ++ rest)%string).
  { cbn [append]. f_equal. rewrite append_assoc. f_equal. cbn [append]. f_equal.
    now rewrite append_assoc. }
  split.
  - unfold oaPathOf, replace. rewrite Hx.
    rewrite (@scan_parameter oaPathRegex lit (":" ++ name ++ "(" ++ pat ++ ")") rest
               [(1, name)]);
      try reflexivity; try assumption; try discriminate.
    + rewrite unpieces_app, unpieces_lits. cbn [unpieces group1 capture Nat.eqb].
      f_equal. clear. induction name as [|c n IH]; cbn [append] in *; congruence.
    + apply oaPathRegex_needs_param.
    + intros pos. rewrite <- Hx. cbn [append].
      now apply (proj1 (match_name_pattern pos rest Hn Hident Hp Hplain)).
  - unfold parametersOf, execAll. rewrite Hx.
    rewrite (@scan_parameter paramRegex lit (":" ++ name ++ "(" ++ pat ++ ")") rest
               [(2, pat); (1, name)]);
      try reflexivity; try assumption; try discriminate.
    + rewrite hits_app, hits_lits. cbn [app hits map]. f_equal.
      unfold parameterOf, parameterSchema. cbn [capture Nat.eqb].
      unfold nonEmpty in Hpat. rewrite Hpat, search_enumRegex.
      now destruct (isEnumList pat).
    + apply paramRegex_needs_param.
    + intros pos. rewrite <- Hx. cbn [append].
      now apply (proj2 (match_name_pattern pos rest Hn Hident Hp Hplain)).
Qed.

(** ** The operations in the returned document *)


(** One turn of the loop puts the operation object in its slot and
    changes no slot that holds a value. *)
Lemma describeOp_places (op : Operation) (paths paths' : PathsObject) :
  describeOp op paths = Ok paths' ->
  (exists j, op_operation op = Ok j
             /\ slotValue (paths_items paths') (slotOf op) = Some j)
  /\ (forall slot v, slotValue (paths_items paths) slot = Some v -> truthy v = true ->
                     slotValue (paths_items paths') slot = Some v)
  /\ paths_owner paths' = paths_owner paths.
Proof.
  unfold describeOp, addOperation, op_operation, slotOf, op_path, op_method, slotValue.
  cbn [fst snd].
  set (oaPath := oaPathOf _). set (method := toLowerCase _).
  set (oaPathItem := match prop_get oaPath (paths_items paths) with
                     | Some item => item | None => _ end).
  destruct (truthy _) eqn:Ht; [discriminate|].
  destruct (operationOf _ _ _ _ _) as [j|] eqn:Hop; [|discriminate].
  cbn [bind]. intros H. inversion H; subst paths'; clear H. cbn [paths_items paths_owner].
  split; [|split; [|reflexivity]].
  - exists j. split; [reflexivity|].
    rewrite prop_get_set_same. cbn [item_props]. apply prop_get_set_same.
  - intros [p k] v. cbn [fst snd]. intros Hv Htv.
    destruct (string_dec oaPath p) as [<-|Hne].
    + rewrite prop_get_set_same. cbn [item_props].
      subst oaPathItem.
      destruct (prop_get oaPath (paths_items paths)) as [item|]; [|discriminate].
      destruct (string_dec method k) as [<-|Hk].
      * rewrite Hv in Ht. cbn [orElse] in Ht. congruence.
      * rewrite prop_get_set_other by assumption. exact Hv.
    + rewrite prop_get_set_other by assumption. exact Hv.
Qed.

Lemma describeOps_places (ops : list Operation) (paths paths' : PathsObject) :
  forM ops describeOp paths = Ok paths' ->
  (forall op, In op ops ->
              exists j, op_operation op = Ok j
                        /\ slotValue (paths_items paths') (slotOf op) = Some j)
  /\ (forall slot v, slotValue (paths_items paths) slot = Some v -> truthy v = true ->
                     slotValue (paths_items paths') slot = Some v)
  /\ paths_owner paths' = paths_owner paths.
Proof.
  revert paths. induction ops as [|op ops IH]; intros paths H; cbn [forM] in H.
  - inversion H; subst. split; [intros ? []|]. split; auto.
  - destruct (describeOp op paths) as [paths1|] eqn:Hop; cbn [bind] in H; [|discriminate].
    destruct (describeOp_places _ _ Hop) as ((j & Hj & Hslot) & Hkeep & Hown).
    destruct (IH _ H) as (Hall & Hkeep' & Hown').
    split; [|split].
    + intros op' [<-|Hin]; [|now apply Hall].
      exists j. split; [exact Hj|]. apply Hkeep'; [exact Hslot|].
      destruct (operationOf_object _ _ _ _ _ Hj) as [fs ->]. reflexivity.
    + intros slot v Hv Ht. apply Hkeep'; [|exact Ht]. now apply Hkeep.
    + congruence.
Qed.

Lemma slotValue_clonePaths (bp : PathsObject) (slot : string * string) :
  slotValue (paths_items (clonePaths bp)) slot
  = option_map structuredClone (slotValue (paths_items bp) slot).
Proof.
  unfold slotValue, clonePaths. cbn [paths_items]. rewrite prop_get_map.
  destruct (prop_get (fst slot) (paths_items bp)) as [item|]; cbn [option_map]; auto.
  unfold clonePathItem, cloneProps. cbn [item_props]. apply prop_get_map.
Qed.

(** The paths the loop of [getOpenAPISchema] starts from hold the clones
    of what the base document holds. *)
Lemma slotValue_start (base : OpenAPIObject) (slot : string * string) :
  slotValue (paths_items (orElse (option_map clonePaths (oa_paths base))
                                 {| paths_owner := Fresh; paths_items := [] |})) slot
  = option_map structuredClone (docSlot base slot).
Proof.
  unfold docSlot. destruct (oa_paths base) as [bp|]; cbn [option_map orElse].
  - apply slotValue_clonePaths.
  - reflexivity.
Qed.


(** X11. When synthesis returns a document, whatever the base document
    holds at a path under a key of the path item, with a truthy value, is
    in the returned document as a clone: no operation replaces it. *)
Theorem base_slots_survive
        (derived : Pattern -> result (list (string * json)))
        (base : OpenAPIObject) (controllers : Controllers) (pattern : option Pattern)
        (doc : OpenAPIObject)
        (Hdoc : getOpenAPISchema derived true base controllers pattern = Ok doc)
        (slot : string * string) (v : json)
        (Hbase : docSlot base slot = Some v) (Hv : truthy v = true) :
  docSlot doc slot = Some (structuredClone v).
Proof.
  destruct (getOpenAPISchema_paths _ _ _ _ Hdoc) as (paths & Hloop & Hpaths).
  destruct (describeOps_places _ _ Hloop) as (_ & Hkeep & _).
  unfold docSlot at 1. rewrite Hpaths. apply Hkeep.
  - rewrite slotValue_start, Hbase. reflexivity.
  - now rewrite truthy_structuredClone.
Qed.

(** Where the values of the paths come from after one turn of the loop. *)
Lemma describeOp_origin (op : Operation) (paths paths' : PathsObject)
      (slot : string * string) (v : json) :
  describeOp op paths = Ok paths' ->
  slotValue (paths_items paths') slot = Some v ->
  slotValue (paths_items paths) slot = Some v
  \/ (slot = slotOf op /\ op_operation op = Ok v)
  \/ (slot = (oaPathOf (op_path op), "parameters")
      /\ parametersField (op_path op) = Some v
      /\ prop_get (oaPathOf (op_path op)) (paths_items paths) = None).
Proof.
  unfold describeOp, addOperation, op_operation, slotOf, op_method, slotValue, parametersField.
  fold (op_path op).
  destruct slot as [p k]. cbn [fst snd].
  set (oaPath := oaPathOf _). set (method := toLowerCase _).
  set (oaPathItem := match prop_get oaPath (paths_items paths) with
                     | Some item => item | None => _ end).
  destruct (truthy _) eqn:Ht; [discriminate|].
  destruct (operationOf _ _ _ _ _) as [j|] eqn:Hop; [|discriminate].
  cbn [bind]. intros H. inversion H; subst paths'; clear H. cbn [paths_items].
  destruct (string_dec oaPath p) as [<-|Hne].
  - rewrite prop_get_set_same. cbn [item_props].
    destruct (string_dec method k) as [<-|Hk].
    + rewrite prop_get_set_same. intros Hv. inversion Hv; subst v. right; left. auto.
    + rewrite prop_get_set_other by assumption. subst oaPathItem.
      destruct (prop_get oaPath (paths_items paths)) as [item|]; [now left|].
      cbn [item_props]. intros Hv. right; right.
      destruct (parametersOf (op_path op)) as [|q qs]; [discriminate|].
      cbn [prop_get] in Hv. destruct (String.eqb_spec k "parameters") as [->|]; [|discriminate].
      auto.
  - rewrite prop_get_set_other by assumption. now left.
Qed.

Lemma describeOps_origin (ops : list Operation) (paths paths' : PathsObject)
      (slot : string * string) (v : json) :
  forM ops describeOp paths = Ok paths' ->
  slotValue (paths_items paths') slot = Some v ->
  slotValue (paths_items paths) slot = Some v
  \/ (exists op, In op ops /\ slot = slotOf op /\ op_operation op = Ok v)
  \/ (exists op, In op ops /\ slot = (oaPathOf (op_path op), "parameters")
                 /\ parametersField (op_path op) = Some v
                 /\ prop_get (oaPathOf (op_path op)) (paths_items paths) = None).
Proof.
  revert paths' v. induction ops as [|op ops IH] using rev_ind; intros paths' v H Hv.
  - inversion H; subst. now left.
  - rewrite forM_app in H.
    destruct (forM ops describeOp paths) as [paths1|] eqn:H1; cbn [bind forM] in H;
      [|discriminate].
    destruct (describeOp op paths1) as [paths2|] eqn:H2; cbn [bind] in H; [|discriminate].
    inversion H; subst paths2; clear H.
    destruct (describeOp_origin _ _ _ H2 Hv) as [Hold|[(-> & Hj)|(-> & Hp & Hnone)]].
    + destruct (IH _ _ eq_refl Hold) as [?|[(op' & Hin & ?)|(op' & Hin & ?)]];
        [now left| right; left | right; right]; exists op'; (split; [|assumption]);
        apply in_or_app; now left.
    + right; left. exists op. split; [apply in_or_app; right; now left|auto].
    + right; right. exists op. split; [apply in_or_app; right; now left|].
      split; [reflexivity|]. split; [exact Hp|].
      (* no earlier turn had made the path item *)
      destruct (prop_get (oaPathOf (op_path op)) (paths_items paths)) as [item|] eqn:Hitem;
        [|reflexivity].
      destruct (describeOps_parameters _ _ _ H1 Hitem) as (item' & Hitem' & _).
      congruence.
Qed.

(** X12. Synthesis adds nothing but operations and parameters: a value
    that the returned document holds at a path under a key of the path
    item is the clone of what the base document holds there, or the
    operation object of an operation of the controllers, or the
    parameters read from the path of such an operation, on a path for
    which the base document holds nothing. *)
Theorem document_slots_origin
        (derived : Pattern -> result (list (string * json)))
        (base : OpenAPIObject) (controllers : Controllers) (pattern : option Pattern)
        (doc : OpenAPIObject)
        (Hdoc : getOpenAPISchema derived true base controllers pattern = Ok doc)
        (slot : string * string) (v : json)
        (Hv : docSlot doc slot = Some v) :
  (exists v0, docSlot base slot = Some v0 /\ v = structuredClone v0)
  \/ (exists op, In op (operations (asArray controllers))
                 /\ slot = slotOf op /\ op_operation op = Ok v)
  \/ (exists op, In op (operations (asArray controllers))
                 /\ slot = (oaPathOf (op_path op), "parameters")
                 /\ parametersField (op_path op) = Some v
                 /\ forall k, docSlot base (oaPathOf (op_path op), k) = None).
Proof.
  destruct (getOpenAPISchema_paths _ _ _ _ Hdoc) as (paths & Hloop & Hpaths).
  unfold docSlot at 1 in Hv. rewrite Hpaths in Hv.
  destruct (describeOps_origin _ _ _ Hloop Hv) as [Hold|[H|(op & Hin & Hs & Hp & Hnone)]].
  - left. rewrite slotValue_start in Hold.
    destruct (docSlot base slot) as [v0|]; [|discriminate].
    exists v0. split; [reflexivity|]. now inversion Hold.
  - right; left. exact H.
  - right; right. exists op. repeat (split; [assumption|]).
    intros k. unfold docSlot, slotValue. cbn [fst snd].
    destruct (oa_paths base) as [bp|]; [|reflexivity].
    cbn [option_map orElse] in Hnone. unfold clonePaths in Hnone. cbn [paths_items] in Hnone.
    rewrite prop_get_map in Hnone.
    destruct (prop_get (oaPathOf (op_path op)) (paths_items bp)); [discriminate|reflexivity].
Qed.

(** ** The parameters of a path item *)

Lemma describeOp_creates (op : Operation) (paths paths' : PathsObject) :
  describeOp op paths = Ok paths' ->
  prop_get (oaPathOf (op_path op)) (paths_items paths) = None ->
  slotValue (paths_items paths') (oaPathOf (op_path op), "parameters")
  = parametersField (op_path op).
Proof.
  unfold describeOp, addOperation, slotValue, parametersField. fold (op_path op).
  cbn [fst snd]. intros H Hnone. rewrite Hnone in H.
  destruct (truthy _); [discriminate|].
  destruct (operationOf _ _ _ _ _) as [j|]; [|discriminate].
  cbn [bind] in H. inversion H; subst paths'; clear H. cbn [paths_items].
  rewrite prop_get_set_same. cbn [item_props item_owner].
  rewrite prop_get_set_other by apply toLowerCase_not_parameters.
  destruct (parametersOf (op_path op)); reflexivity.
Qed.

Lemma describeOp_other_path (op : Operation) (paths paths' : PathsObject) (p : string) :
  describeOp op paths = Ok paths' ->
  oaPathOf (op_path op) <> p ->
  prop_get p (paths_items paths') = prop_get p (paths_items paths).
Proof.
  unfold describeOp, addOperation. fold (op_path op). intros H Hne.
  destruct (truthy _); [discriminate|].
  destruct (operationOf _ _ _ _ _) as [j|]; [|discriminate].
  cbn [bind] in H. inversion H; subst paths'; clear H. cbn [paths_items].
  now apply prop_get_set_other.
Qed.

Lemma slotValue_parameters (ops : list Operation) (paths paths' : PathsObject) (p : string)
      (v : option json) :
  forM ops describeOp paths = Ok paths' ->
  prop_get p (paths_items paths) <> None ->
  slotValue (paths_items paths) (p, "parameters") = v ->
  slotValue (paths_items paths') (p, "parameters") = v.
Proof.
  intros H Hsome <-. unfold slotValue. cbn [fst snd].
  destruct (prop_get p (paths_items paths)) as [item|] eqn:Hitem; [|congruence].
  destruct (describeOps_parameters _ _ _ H Hitem) as (item' & -> & Heq). exact Heq.
Qed.

Lemma describeOps_first (ops : list Operation) (paths paths' : PathsObject) (p : string)
      (first : Operation) :
  forM ops describeOp paths = Ok paths' ->
  prop_get p (paths_items paths) = None ->
  find (onPath p) ops = Some first ->
  slotValue (paths_items paths') (p, "parameters") = parametersField (op_path first).
Proof.
  revert paths. induction ops as [|op ops IH]; intros paths H Hnone Hfind; [discriminate|].
  cbn [forM] in H.
  destruct (describeOp op paths) as [paths1|] eqn:Hop; cbn [bind] in H; [|discriminate].
  cbn [find] in Hfind. unfold onPath at 1 in Hfind.
  destruct (String.eqb_spec (oaPathOf (op_path op)) p) as [<-|Hne].
  - inversion Hfind; subst first.
    apply (slotValue_parameters _ _ _ H).
    + intros Hn.
      unfold describeOp, addOperation in Hop. fold (op_path op) in Hop.
      destruct (truthy _); [discriminate|].
      destruct (operationOf _ _ _ _ _) as [j|]; [|discriminate].
      cbn [bind] in Hop. inversion Hop; subst paths1. cbn [paths_items] in Hn.
      rewrite prop_get_set_same in Hn. discriminate.
    + exact (describeOp_creates _ _ Hop Hnone).
  - apply (IH paths1); auto.
    rewrite (describeOp_other_path _ _ Hop Hne). exact Hnone.
Qed.

(** X13. The parameters of a path item that synthesis creates are read
    from the path of the first operation on that translated path: the
    patterns of the later operations on it are not looked at. *)
Theorem path_parameters
        (derived : Pattern -> result (list (string * json)))
        (base : OpenAPIObject) (controllers : Controllers) (pattern : option Pattern)
        (doc : OpenAPIObject)
        (Hdoc : getOpenAPISchema derived true base controllers pattern = Ok doc)
        (p : string) (first : Operation)
        (Hnew : forall bp, oa_paths base = Some bp -> prop_get p (paths_items bp) = None)
        (Hfirst : find (onPath p) (operations (asArray controllers)) = Some first) :
  docSlot doc (p, "parameters") = parametersField (op_path first).
Proof.
  destruct (getOpenAPISchema_paths _ _ _ _ Hdoc) as (paths & Hloop & Hpaths).
  unfold docSlot. rewrite Hpaths.
  eapply describeOps_first; [exact Hloop| |exact Hfirst].
  destruct (oa_paths base) as [bp|]; cbn [option_map orElse]; [|reflexivity].
  unfold clonePaths. cbn [paths_items]. rewrite prop_get_map, (Hnew bp eq_refl). reflexivity.
Qed.

(** ** When synthesis succeeds *)









(** ** The fields of an operation *)

Lemma prop_get_set V (k k' : string) (v : V) (o : list (string * V)) :
  prop_get k' (prop_set k v o) = if String.eqb k' k then Some v else prop_get k' o.
Proof.
  destruct (String.eqb_spec k' k) as [->|Hne].
  - apply prop_get_set_same.
  - apply prop_get_set_other. congruence.
Qed.

Ltac field_step :=
  repeat match goal with
         | |- context [match ?x with _ => _ end] =>
             match type of x with
             | option _ => destruct x
             | bool => destruct x
             | list _ => destruct x
             | PropertyKey => destruct x
             | json => destruct x
             end
         end;
  rewrite ?prop_get_set; cbn [String.eqb Ascii.eqb Bool.eqb]; try congruence.

(** What an operation holds under each of its six keys. *)
Lemma operationOf_fields md classTags classRequestBody classResponses handlerName j :
  operationOf md classTags classRequestBody classResponses handlerName = Ok j ->
  exists o,
    j = JObj Fresh o
    /\ (prop_get "tags" o, prop_get "summary" o, prop_get "description" o,
     prop_get "operationId" o, prop_get "requestBody" o, prop_get "responses" o)
       = (match dedupe [] (classTags ++ orElse (lookup handlerName (TAG md)) []) with
          | [] => None
          | t :: ts => Some (JArr Fresh (map JStr (t :: ts)))
          end,
          match lookup handlerName (SUMMARY md) with
          | Some s => if nonEmpty s then Some (JStr s) else None
          | None => None
          end,
          match lookup handlerName (DESCRIPTION md) with
          | Some d => if nonEmpty d then Some (JStr d) else None
          | None => None
          end,
          match lookup handlerName (OPERATION_ID md) with
          | Some i =>
              if nonEmpty i then Some (JStr i)
              else match handlerName with Name s => Some (JStr s) | _ => None end
          | None => match handlerName with Name s => Some (JStr s) | _ => None end
          end,
          match (match lookup handlerName (REQUEST_BODY md) with
                 | Some b => if nullish b then classRequestBody else b
                 | None => classRequestBody
                 end) with
          | JStr s =>
              Some (JObj Fresh
                      [("content", JObj Fresh
                          [("application/json", JObj Fresh [("schema", nameToSchemaRef s)])]);
                       ("required", JBool true)])
          | b => if truthy b then Some b else None
          end,
          match classResponses ++ orElse (lookup handlerName (RESPONSE md)) [] with
          | [] => None
          | r :: rs =>
              match foldResponses (r :: rs) with
              | Ok oaResponses => Some (JObj Fresh oaResponses)
              | Err _ => None
              end
          end).
Proof.
  unfold operationOf. cbv zeta. intros H.
  set (tags := dedupe [] _) in *.
  set (op1 := match tags with [] => [] | _ => _ end) in *.
  assert (H1 : (prop_get "tags" op1, prop_get "summary" op1, prop_get "description" op1,
     prop_get "operationId" op1, prop_get "requestBody" op1, prop_get "responses" op1)
               = (match tags with [] => None | t :: ts => Some (JArr Fresh (map JStr (t :: ts))) end,
                  None, None, None, None, None)).
  { subst op1. destruct tags; reflexivity. }
  clearbody op1.
  set (op2 := match lookup handlerName (SUMMARY md) with Some _ => _ | None => _ end) in *.
  assert (H2 : (prop_get "tags" op2, prop_get "summary" op2, prop_get "description" op2,
     prop_get "operationId" op2, prop_get "requestBody" op2, prop_get "responses" op2)
               = (prop_get "tags" op1,
                  match lookup handlerName (SUMMARY md) with
                  | Some s => if nonEmpty s then Some (JStr s) else None
                  | None => None
                  end, None, None, None, None)).
  { subst op2. inversion H1. field_step. }
  clearbody op2.
  set (op3 := match lookup handlerName (DESCRIPTION md) with Some _ => _ | None => _ end) in *.
  assert (H3 : (prop_get "tags" op3, prop_get "summary" op3, prop_get "description" op3,
     prop_get "operationId" op3, prop_get "requestBody" op3, prop_get "responses" op3)
               = (prop_get "tags" op2, prop_get "summary" op2,
                  match lookup handlerName (DESCRIPTION md) with
                  | Some d => if nonEmpty d then Some (JStr d) else None
                  | None => None
                  end, None, None, None)).
  { subst op3. inversion H2. field_step. }
  clearbody op3.
  set (op4 := match lookup handlerName (OPERATION_ID md) with Some _ => _ | None => _ end) in *.
  assert (H4 : (prop_get "tags" op4, prop_get "summary" op4, prop_get "description" op4,
     prop_get "operationId" op4, prop_get "requestBody" op4, prop_get "responses" op4)
               = (prop_get "tags" op3, prop_get "summary" op3, prop_get "description" op3,
                  match lookup handlerName (OPERATION_ID md) with
                  | Some i =>
                      if nonEmpty i then Some (JStr i)
                      else match handlerName with Name s => Some (JStr s) | _ => None end
                  | None => match handlerName with Name s => Some (JStr s) | _ => None end
                  end, None, None)).
  { subst op4. inversion H3. field_step. }
  clearbody op4.
  set (body := match lookup handlerName (REQUEST_BODY md) with Some _ => _ | None => _ end) in *.
  clearbody body.
  set (op5 := match body with JStr _ => _ | _ => _ end) in *.
  assert (H5 : (prop_get "tags" op5, prop_get "summary" op5, prop_get "description" op5,
     prop_get "operationId" op5, prop_get "requestBody" op5, prop_get "responses" op5)
               = (prop_get "tags" op4, prop_get "summary" op4, prop_get "description" op4,
                  prop_get "operationId" op4,
                  match body with
                  | JStr s =>
                      Some (JObj Fresh
                              [("content", JObj Fresh
                                  [("application/json",
                                    JObj Fresh [("schema", nameToSchemaRef s)])]);
                               ("required", JBool true)])
                  | b => if truthy b then Some b else None
                  end, None)).
  { subst op5. inversion H4. destruct body; cbn [truthy]; field_step. }
  clearbody op5.
  injection H1; injection H2; injection H3; injection H4; injection H5; intros.
  destruct (classResponses ++ _) as [|r rs].
  - inversion H; subst j. exists op5. split; [reflexivity|].
    destruct body; cbn [map truthy] in *; congruence.
  - destruct (foldResponses (r :: rs)) as [o|] eqn:Ho; cbn [bind] in H; [|discriminate].
    inversion H; subst j. eexists. split; [reflexivity|].
    rewrite !prop_get_set.
    destruct body; cbn [String.eqb Ascii.eqb Bool.eqb map truthy] in *; congruence.
Qed.

(** ** [[...new Set(xs)]] *)

Lemma inList_In (xs : list string) (x : string) : inList xs x = true <-> In x xs.
Proof.
  unfold inList. rewrite existsb_exists. split.
  - intros (y & Hin & Hy). apply String.eqb_eq in Hy. now subst.
  - intros Hin. exists x. split; [exact Hin|apply String.eqb_refl].
Qed.

Lemma filter_filter A (f g : A -> bool) (l : list A) :
  filter f (filter g l) = filter (fun x => g x && f x) l.
Proof.
  induction l as [|x l IH]; cbn [filter]; [reflexivity|].
  destruct (g x); cbn [filter andb]; [destruct (f x)|]; now rewrite IH.
Qed.

Lemma inList_cons (x : string) (xs : list string) (t : string) :
  inList (x :: xs) t = String.eqb t x || inList xs t.
Proof. reflexivity. Qed.

Lemma dedupe_filter (xs seen : list string) :
  dedupe seen xs = filter (fun t => negb (inList seen t)) (dedupe [] xs).
Proof.
  revert seen. induction xs as [|x xs IH]; intros seen; [reflexivity|].
  cbn [dedupe existsb filter]. fold (inList seen x).
  rewrite (IH [x]), filter_filter.
  destruct (inList seen x) eqn:Hx; cbn [negb].
  - rewrite (IH seen). apply filter_ext. intros t.
    rewrite inList_cons. change (inList [] t) with false. rewrite orb_false_r.
    destruct (String.eqb_spec t x) as [->|]; cbn [negb andb]; [now rewrite Hx|reflexivity].
  - f_equal. rewrite (IH (x :: seen)). apply filter_ext. intros t.
    rewrite !inList_cons. change (inList [] t) with false. rewrite orb_false_r.
    now rewrite negb_orb.
Qed.

Lemma dedupe_In (xs seen : list string) (t : string) :
  In t (dedupe seen xs) <-> In t xs /\ ~ In t seen.
Proof.
  revert seen. induction xs as [|x xs IH]; intros seen; cbn [dedupe In]; [tauto|].
  fold (inList seen x). destruct (inList seen x) eqn:Hx.
  - rewrite IH. apply inList_In in Hx. split; [tauto|].
    intros [[<-|H] Hn]; [contradiction|tauto].
  - assert (Hnx : ~ In x seen) by (rewrite <- inList_In; congruence).
    cbn [In]. rewrite IH. cbn [In]. split.
    + intros [<-|(H & Hn)]; [tauto|]. split; [tauto|]. intros H'. apply Hn. now right.
    + intros [[<-|H] Hn]; [now left|].
      destruct (string_dec x t) as [<-|Hne]; [now left|]. right. split; [exact H|].
      intros [Heq|H']; contradiction.
Qed.

Lemma dedupe_NoDup (xs seen : list string) : NoDup (dedupe seen xs).
Proof.
  revert seen. induction xs as [|x xs IH]; intros seen; cbn [dedupe]; [constructor|].
  destruct (existsb _ seen); [apply IH|].
  constructor; [|apply IH]. rewrite dedupe_In. intros [_ Hn]. apply Hn. now left.
Qed.

Lemma dedupe_seen (xs s1 s2 : list string) :
  (forall t, inList s1 t = inList s2 t) -> dedupe s1 xs = dedupe s2 xs.
Proof.
  intros H. rewrite (dedupe_filter xs s1), (dedupe_filter xs s2).
  apply filter_ext. intros t. now rewrite H.
Qed.

Lemma dedupe_app (a b seen : list string) :
  dedupe seen (a ++ b) = dedupe seen a ++ dedupe (a ++ seen) b.
Proof.
  revert seen. induction a as [|x a IH]; intros seen; [reflexivity|].
  cbn [app dedupe]. fold (inList seen x). destruct (inList seen x) eqn:Hx.
  - rewrite IH. f_equal. apply dedupe_seen. intros t.
    change ((x :: a) ++ seen) with (x :: a ++ seen). rewrite inList_cons.
    destruct (String.eqb_spec t x) as [->|]; [|reflexivity].
    cbn [orb]. apply inList_In. apply in_or_app. right. now apply inList_In.
  - cbn [app]. f_equal. rewrite IH. f_equal. apply dedupe_seen. intros t.
    unfold inList. cbn [existsb]. rewrite !existsb_app. cbn [existsb].
    destruct (String.eqb t x), (existsb (String.eqb t) a); reflexivity.
Qed.

(** X15. The tags of an operation are those of the class followed by
    those of the method that the class does not already give, each tag
    once: a tag is listed exactly when the class or the method has it, and
    the field is absent when neither has a tag. *)
Theorem operation_tags (op : Operation) (j : json)
        (Hj : op_operation op = Ok j) :
  let classTags := orElse (lookup CLASS_METADATA (TAG (op_md op))) [] in
  let methodTags := orElse (lookup (op_handlerName op) (TAG (op_md op))) [] in
  exists tags,
    get "tags" j = match tags with [] => JUndef | _ => JArr Fresh (map JStr tags) end
    /\ tags = dedupe [] classTags
              ++ filter (fun t => negb (inList classTags t)) (dedupe [] methodTags)
    /\ NoDup tags
    /\ forall t, In t tags <-> In t classTags \/ In t methodTags.
Proof.
  intros classTags methodTags.
  destruct (operationOf_fields _ _ _ _ _ Hj) as (o & -> & Hf).
  injection Hf as Htags _ _ _ _ _.
  fold classTags methodTags in Htags.
  exists (dedupe [] (classTags ++ methodTags)). split; [|split; [|split]].
  - cbn [get]. rewrite Htags. destruct (dedupe [] _); reflexivity.
  - rewrite dedupe_app, app_nil_r. f_equal. apply dedupe_filter.
  - apply dedupe_NoDup.
  - intros t. rewrite dedupe_In, in_app_iff. cbn [In]. tauto.
Qed.

(** X16. The operationId of an operation is the one given to the method
    when that is a non-empty string; without one, or with the empty
    string, it is the name of the method, and a method named by a symbol
    has none. *)
Theorem operation_id (op : Operation) (j : json)
        (Hj : op_operation op = Ok j) :
  let byName := match op_handlerName op with Name s => JStr s | _ => JUndef end in
  (forall i, lookup (op_handlerName op) (OPERATION_ID (op_md op)) = Some i ->
             nonEmpty i = true -> get "operationId" j = JStr i)
  /\ (lookup (op_handlerName op) (OPERATION_ID (op_md op)) = None
      \/ lookup (op_handlerName op) (OPERATION_ID (op_md op)) = Some ""%string ->
      get "operationId" j = byName).
Proof.
  intros byName. subst byName.
  destruct (operationOf_fields _ _ _ _ _ Hj) as (o & -> & Hf).
  injection Hf as _ _ _ Hid _ _. cbn [get]. rewrite Hid. split.
  - intros i -> ->. reflexivity.
  - intros [->| ->]; cbn [nonEmpty String.eqb negb]; destruct (op_handlerName op); reflexivity.
Qed.

(** ** Schema names *)

Lemma substring_suffix (a b : string) :
  substring (String.length a) (String.length b) (a ++ b) = b.
Proof.
  induction a as [|c a IH]; cbn [String.length append substring]; [|exact IH].
  induction b as [|c b IHb]; cbn [String.length substring]; congruence.
Qed.

(** X17. A schema name that ends in the two brackets is an array whose
    items refer to the schema named before them, whatever that name is;
    only the last pair of brackets is read. *)
Theorem schema_name_array (name : string) :
  nameToSchemaRef (name ++ "[]")
  = JObj Fresh
      [("type", JStr "array");
       ("items", JObj Fresh [("$ref", JStr ("#/components/schemas/" ++ name))])].
Proof.
  unfold nameToSchemaRef, endsWithBrackets.
  rewrite length_append. cbn [String.length].
  replace (String.length name + 2 - 2) with (String.length name) by lia.
  pose proof (substring_suffix name "[]") as Hs. cbn [String.length] in Hs.
  rewrite Hs, substring_prefix.
  replace (Nat.leb 2 (String.length name + 2)) with true
    by (symmetry; apply Nat.leb_le; lia).
  reflexivity.
Qed.

(** ** The request body and the responses of an operation *)

(** X18. The request body of an operation is that of the method, or that
    of the class when the method has none or has null. A schema name makes
    a required JSON body with the schema the name stands for; another
    truthy value is stored as it is, the same object; a falsy one leaves
    the field absent. *)
Theorem operation_request_body (op : Operation) (j : json)
        (Hj : op_operation op = Ok j) :
  let classBody := orElse (lookup CLASS_METADATA (REQUEST_BODY (op_md op))) JUndef in
  let body :=
    match lookup (op_handlerName op) (REQUEST_BODY (op_md op)) with
    | Some b => if nullish b then classBody else b
    | None => classBody
    end in
  (forall name, body = JStr name ->
     get "requestBody" j
     = JObj Fresh
         [("content", JObj Fresh
             [("application/json", JObj Fresh [("schema", nameToSchemaRef name)])]);
          ("required", JBool true)])
  /\ ((forall name, body <> JStr name) ->
      get "requestBody" j = if truthy body then body else JUndef).
Proof.
  cbv zeta.
  destruct (operationOf_fields _ _ _ _ _ Hj) as (o & -> & Hf).
  assert (Hbody := f_equal (fun t => snd (fst t)) Hf). cbn [fst snd] in Hbody. clear Hf.
  set (body := match lookup (op_handlerName op) (REQUEST_BODY (op_md op)) with
               | Some _ => _ | None => _ end) in *.
  clearbody body.
  cbn [get]. rewrite Hbody. split.
  - intros name ->. reflexivity.
  - intros Hn. destruct body; try reflexivity.
    + now destruct (truthy (JBool b)).
    + now destruct (truthy (JNum z)).
    + exfalso. eapply Hn. reflexivity.
Qed.

Lemma prop_set_keys V (k k' : string) (v : V) (o : list (string * V)) :
  In k' (map fst (prop_set k v o)) <-> k' = k \/ In k' (map fst o).
Proof.
  induction o as [|[k0 v0] o IH]; cbn [prop_set map fst In].
  - intuition congruence.
  - destruct (String.eqb_spec k k0) as [->|Hne]; cbn [map fst In].
    + intuition congruence.
    + rewrite IH. intuition congruence.
Qed.

Lemma prop_set_NoDup V (k : string) (v : V) (o : list (string * V)) :
  NoDup (map fst o) -> NoDup (map fst (prop_set k v o)).
Proof.
  induction o as [|[k0 v0] o IH]; cbn [prop_set map fst]; intros H.
  - constructor; [intros []|constructor].
  - inversion H as [|? ? Hnotin Hnd]; subst.
    destruct (String.eqb_spec k k0) as [->|Hne]; cbn [map fst].
    + now constructor.
    + constructor; [|now apply IH].
      rewrite prop_set_keys. intros [Heq|Hin]; [congruence|contradiction].
Qed.

Lemma forM_responses_keys (rs : list ResponseMetadata) (acc o : list (string * json)) :
  forM rs (fun r oaResponses =>
             e <- responseEntry r ;;
             Ok (prop_set (fst e) (snd e) oaResponses)) acc = Ok o ->
  (NoDup (map fst acc) -> NoDup (map fst o))
  /\ forall k, In k (map fst o)
               <-> In k (map fst acc) \/ exists r, In r rs /\ String_of_code (r_code r) = k.
Proof.
  revert acc. induction rs as [|r rs IH]; intros acc H; cbn [forM] in H.
  - inversion H; subst. split; [auto|]. intros k. split; [now left|].
    intros [Hin|(r & [] & _)]. exact Hin.
  - destruct (responseEntry r) as [[k0 e]|] eqn:Hr; cbn [bind fst snd] in H; [|discriminate].
    apply responseEntry_key in Hr. subst k0.
    destruct (IH _ H) as [Hnd Hkeys]. split.
    + intros Hacc. apply Hnd. now apply prop_set_NoDup.
    + intros k. rewrite Hkeys, prop_set_keys. cbn [In]. split.
      * intros [[->|Hin]|(r' & Hin & Hk)]; [right; exists r; auto|now left|].
        right. exists r'. auto.
      * intros [Hin|(r' & [<-|Hin] & Hk)]; [left; now right|left; left; congruence|].
        right. exists r'. auto.
Qed.

(** X19. The responses of an operation have one entry for each status
    code of the response tuples of the class and of the method, and no
    other entry; an operation without a response tuple has no responses
    field. *)
Theorem operation_responses (op : Operation) (j : json)
        (Hj : op_operation op = Ok j) :
  (op_responses op = [] -> get "responses" j = JUndef)
  /\ (op_responses op <> [] ->
      exists oaResponses,
        get "responses" j = JObj Fresh oaResponses
        /\ NoDup (map fst oaResponses)
        /\ forall k, In k (map fst oaResponses)
                     <-> exists r, In r (op_responses op) /\ String_of_code (r_code r) = k).
Proof.
  destruct (operationOf_fields _ _ _ _ _ Hj) as (o & Heq & Hf).
  injection Hf as _ _ _ _ _ Hresp. fold (op_responses op) in Hresp.
  pose proof Hj as Hok. unfold op_operation, operationOf in Hok.
  cbv zeta in Hok. fold (op_responses op) in Hok.
  subst j. cbn [get]. rewrite Hresp. split.
  - intros ->. reflexivity.
  - intros Hne. destruct (op_responses op) as [|r rs] eqn:Hrs; [congruence|].
    destruct (foldResponses (r :: rs)) as [oaResponses|] eqn:Hfold; [|discriminate].
    exists oaResponses. split; [reflexivity|].
    destruct (forM_responses_keys _ _ Hfold) as [Hnd Hkeys]. split.
    + apply Hnd. constructor.
    + intros k. rewrite Hkeys. cbn [map In]. tauto.
Qed.

(** X20. The content of a response given as a map of media types is
    copied, and each media type given as a schema name is expanded to the
    schema the name stands for; a content given as one schema name is the
    same as the map that gives this name for application/json. *)
Theorem response_media_shorthand (code : Z) (description : option string) (headers : json) :
  (forall (o : owner) (media : list (string * json)),
      responseEntry {| r_code := code; r_content := JObj o media;
                       r_description := description; r_headers := headers |}
      = Ok (String_of_code code,
            JObj Fresh
              [("description",
                JStr match description with
                     | Some d => d
                     | None =>
                         match prop_get (String_of_code code) defaultResponses with
                         | Some d => default_description d
                         | None => "Response"
                         end
                     end);
               ("content",
                JObj Fresh (map (fun kv => (fst kv, expandShorthand (structuredClone (snd kv))))
                                media));
               ("headers", headers)]))
  /\ forall (o : owner) (name : string),
      responseEntry {| r_code := code; r_content := JStr name;
                       r_description := description; r_headers := headers |}
      = responseEntry {| r_code := code; r_content := JObj o [("application/json", JStr name)];
                         r_description := description; r_headers := headers |}.
Proof.
  split.
  - intros o media. unfold responseEntry.
    cbn [r_code r_content r_description r_headers nullish bind truthy structuredClone].
    do 4 f_equal. f_equal. f_equal. f_equal.
    rewrite map_map. apply map_ext. now intros [k v].
  - intros o name. reflexivity.
Qed.

(** ** The derived schemas *)

Lemma prop_get_app V (k : string) (a b : list (string * V)) :
  prop_get k (a ++ b)
  = match prop_get k a with Some v => Some v | None => prop_get k b end.
Proof.
  induction a as [|[k' v'] a IH]; cbn [app prop_get]; [reflexivity|].
  destruct (String.eqb k k'); [reflexivity|exact IH].
Qed.

(** [Object.assign]: the last value that the source gives for a name,
    and what the target had for the names that the source does not give. *)
Lemma assign_get (k : string) (source target : list (string * json)) :
  prop_get k (assign target source)
  = match prop_get k (rev source) with
    | Some v => Some v
    | None => prop_get k target
    end.
Proof.
  unfold assign. revert target.
  induction source as [|[k' v'] source IH]; intros target; cbn [fold_left rev fst snd];
    [reflexivity|].
  rewrite IH, prop_get_app. destruct (prop_get k (rev source)); [reflexivity|].
  cbn [prop_get]. rewrite prop_get_set.
  destruct (String.eqb k k'); reflexivity.
Qed.

Lemma docSchema_withPaths (base : OpenAPIObject) (paths : PathsObject) (name : string) :
  docSchema (withPaths base paths) name = option_map structuredClone (docSchema base name).
Proof.
  unfold docSchema, withPaths. cbn [oa_components].
  destruct (oa_components base) as [c|]; cbn [option_map]; [|reflexivity].
  unfold cloneComponents. cbn [co_schemas].
  destruct (co_schemas c) as [s|]; cbn [option_map]; [|reflexivity].
  unfold cloneSchemas, cloneProps. cbn [schemas_props]. apply prop_get_map.
Qed.

Lemma docSchema_mergeSchemas (schemas : list (string * json)) (doc : OpenAPIObject)
      (name : string) :
  docSchema (mergeSchemas schemas doc) name
  = match prop_get name (rev schemas) with
    | Some v => Some v
    | None => docSchema doc name
    end.
Proof.
  destruct schemas as [|s0 schemas0]; [reflexivity|].
  cbn [mergeSchemas]. set (schemas := s0 :: schemas0).
  unfold docSchema at 1. cbn [oa_components co_schemas schemas_props].
  rewrite assign_get. destruct (prop_get name (rev schemas)); [reflexivity|].
  unfold docSchema.
  destruct (oa_components doc) as [c|]; cbn [orElse co_schemas]; [|reflexivity].
  destruct (co_schemas c); reflexivity.
Qed.

(** X21. With a pattern for which schemas are derived, the returned
    document holds under each name of [components.schemas] the schema
    derived for that name, the last one when several are, and for the
    other names the clone of what the base document holds. *)
Theorem derived_schemas_merged
        (derived : Pattern -> result (list (string * json)))
        (base : OpenAPIObject) (controllers : Controllers)
        (pat : Pattern) (schemas : list (string * json)) (doc : OpenAPIObject)
        (Hdoc : getOpenAPISchema derived true base controllers (Some pat) = Ok doc)
        (Hpat : patternTruthy (Some pat) = true)
        (Hder : derived pat = Ok schemas)
        (name : string) :
  docSchema doc name
  = match prop_get name (rev schemas) with
    | Some schema => Some schema
    | None => option_map structuredClone (docSchema base name)
    end.
Proof.
  revert Hdoc. unfold getOpenAPISchema.
  cbn [negb cloneDocument oa_paths doc_owner oa_components oa_rest].
  destruct (forM _ _ _) as [paths|]; cbn [bind]; [|discriminate].
  rewrite Hpat, Hder. intros H. inversion H; subst doc; clear H.
  fold (withPaths base paths).
  now rewrite docSchema_mergeSchemas, docSchema_withPaths.
Qed.

(** X22. A pattern that is the empty string, or for which no schema is
    derived, gives what synthesis gives without a pattern: in the first
    case the derivation is not run, and in neither is a components object
    made for a base document that has none. *)
Theorem empty_schema_source
        (derived derived' : Pattern -> result (list (string * json)))
        (base : OpenAPIObject) (controllers : Controllers) (pattern : option Pattern)
        (Hempty : patternTruthy pattern = false
                  \/ exists pat, pattern = Some pat /\ derived pat = Ok []) :
  getOpenAPISchema derived true base controllers pattern
  = getOpenAPISchema derived' true base controllers None.
Proof.
  unfold getOpenAPISchema. cbn [negb].
  destruct (forM _ _ _) as [paths|]; cbn [bind patternTruthy]; [|reflexivity].
  destruct Hempty as [-> |(pat & -> & Hder)]; [reflexivity|].
  rewrite Hder. destruct (patternTruthy (Some pat)); reflexivity.
Qed.

(** ** The names of the derived schemas *)

(** X23. The name under which the schema of a declaration file is stored
    is the file name up to its first dot, and the whole file name when it
    has no dot. *)
Theorem component_name (name : string) (Hname : allChars notDot name = true) :
  (forall rest, Schema.beforeDot (name ++ "." ++ rest) = name)
  /\ Schema.beforeDot name = name.
Proof.
  induction name as [|c name IH]; cbn [allChars] in Hname.
  - split; reflexivity.
  - apply andb_true_iff in Hname. destruct Hname as [Hc Hname].
    destruct (IH Hname) as [IH1 IH2]. unfold notDot in Hc. apply negb_true_iff in Hc.
    split; [intros rest|]; cbn [append Schema.beforeDot]; rewrite Hc; f_equal;
      [exact (IH1 rest)|exact IH2].
Qed.

Lemma addSchema_schemas (fuel : nat) (filename : string) (schema : Schema.value)
      (combinedSchemas combinedSchemas' : list (string * Schema.value))
      (h h' : Schema.heap) :
  Schema.addSchema fuel filename schema (combinedSchemas, h) = Some (combinedSchemas', h') ->
  combinedSchemas'
  = if Schema.isTruthy schema
    then prop_set (Schema.beforeDot filename) schema combinedSchemas
    else combinedSchemas.
Proof.
  unfold Schema.addSchema. destruct (Schema.isTruthy schema); [|intros H; now inversion H].
  destruct (match schema with Schema.Ref _ => _ | _ => _ end); intros H; now inversion H.
Qed.

(** X24. When the derivation of the schemas returns, no generator has
    thrown, and the schemas have one entry for each name that a file with
    a truthy schema gives, the schema of the last such file: two files
    with one name before the first dot give one schema, that of the
    later file. *)
Theorem derived_schema_names (fuel : nat) (files : list (string * Schema.derivation))
        (h h' : Schema.heap) (combinedSchemas : list (string * Schema.value))
        (Hgen : Schema.generateSchemaDefinitions fuel files ([], h)
                = Some (Ok (combinedSchemas, h'))) :
  (forall filename, ~ In (filename, Schema.Throws) files)
  /\ NoDup (map fst combinedSchemas)
  /\ (forall k, In k (map fst combinedSchemas)
                <-> exists filename schema,
                      In (filename, Schema.Returns schema) files
                      /\ Schema.isTruthy schema = true
                      /\ Schema.beforeDot filename = k)
  /\ forall before filename schema later,
       files = before ++ (filename, Schema.Returns schema) :: later ->
       Schema.isTruthy schema = true ->
       (forall filename' schema',
           In (filename', Schema.Returns schema') later ->
           Schema.isTruthy schema' = true ->
           Schema.beforeDot filename' <> Schema.beforeDot filename) ->
       prop_get (Schema.beforeDot filename) combinedSchemas = Some schema.
Proof.
  assert (Hgeneral :
    forall files acc h,
      Schema.generateSchemaDefinitions fuel files (acc, h) = Some (Ok (combinedSchemas, h')) ->
      (forall filename, ~ In (filename, Schema.Throws) files)
      /\ (NoDup (map fst acc) -> NoDup (map fst combinedSchemas))
      /\ (forall k, In k (map fst combinedSchemas)
                    <-> In k (map fst acc)
                        \/ exists filename schema,
                             In (filename, Schema.Returns schema) files
                             /\ Schema.isTruthy schema = true
                             /\ Schema.beforeDot filename = k)
      /\ (forall k,
             (forall filename schema,
                 In (filename, Schema.Returns schema) files ->
                 Schema.isTruthy schema = true -> Schema.beforeDot filename <> k) ->
             prop_get k combinedSchemas = prop_get k acc)
      /\ forall before filename schema later,
           files = before ++ (filename, Schema.Returns schema) :: later ->
           Schema.isTruthy schema = true ->
           (forall filename' schema',
               In (filename', Schema.Returns schema') later ->
               Schema.isTruthy schema' = true ->
               Schema.beforeDot filename' <> Schema.beforeDot filename) ->
           prop_get (Schema.beforeDot filename) combinedSchemas = Some schema).
  { clear. intros files. induction files as [|[f d] files IH]; intros acc h H.
    - cbn [Schema.generateSchemaDefinitions] in H. inversion H; subst.
      split; [intros ? []|]. split; [auto|]. split; [|split].
      + intros k. split; [now left|]. intros [Hin|(? & ? & [] & _)]. exact Hin.
      + reflexivity.
      + intros [|? ?] ? ? ? Heq; discriminate.
    - cbn [Schema.generateSchemaDefinitions] in H. destruct d as [|schema]; [discriminate|].
      destruct (Schema.addSchema fuel f schema (acc, h)) as [[acc1 h1]|] eqn:Hadd;
        [|discriminate].
      apply addSchema_schemas in Hadd.
      destruct (IH _ _ H) as (Hthrows & Hnd & Hkeys & Hframe & Hlast).
      split; [|split; [|split; [|split]]].
      + intros filename [Heq|Hin]; [discriminate|]. now apply (Hthrows filename).
      + intros Hacc. apply Hnd. subst acc1.
        destruct (Schema.isTruthy schema); [now apply prop_set_NoDup|exact Hacc].
      + intros k. rewrite Hkeys. subst acc1. cbn [In].
        destruct (Schema.isTruthy schema) eqn:Ht.
        * rewrite prop_set_keys. split.
          -- intros [[->|Hin]|(f' & s' & Hin & Hs & Hk)].
             ++ right. exists f, schema. auto.
             ++ now left.
             ++ right. exists f', s'. auto.
          -- intros [Hin|(f' & s' & [Heq|Hin] & Hs & Hk)].
             ++ left. now right.
             ++ inversion Heq; subst. left. now left.
             ++ right. exists f', s'. auto.
        * split.
          -- intros [Hin|(f' & s' & Hin & Hs & Hk)]; [now left|].
             right. exists f', s'. auto.
          -- intros [Hin|(f' & s' & [Heq|Hin] & Hs & Hk)].
             ++ now left.
             ++ inversion Heq; subst. congruence.
             ++ right. exists f', s'. auto.
      + intros k Hk. rewrite Hframe by (intros; eapply Hk; [right|]; eassumption).
        subst acc1. destruct (Schema.isTruthy schema) eqn:Ht; [|reflexivity].
        apply prop_get_set_other. eapply Hk; [now left|exact Ht].
      + intros before filename schema' later Heq Ht Hlater.
        destruct before as [|b before]; cbn [app] in Heq.
        * inversion Heq; subst. rewrite Hframe by exact Hlater.
          rewrite Ht. apply prop_get_set_same.
        * inversion Heq; subst. eapply Hlast; [reflexivity|exact Ht|exact Hlater]. }
  destruct (Hgeneral _ _ _ Hgen) as (H1 & H2 & H3 & _ & H4).
  split; [exact H1|]. split; [apply H2; constructor|]. split; [|exact H4].
  intros k. rewrite H3. cbn [map In]. tauto.
Qed.

(** ** Constants *)

Lemma load_store_same (l : Schema.loc) (o : Schema.object) (h : Schema.heap) :
  l < List.length h -> Schema.load l (Schema.store l o h) = Some o.
Proof.
  unfold Schema.load. revert l. induction h as [|x h IH]; intros l Hl; cbn [List.length] in Hl.
  - lia.
  - destruct l as [|l]; cbn [Schema.store nth_error]; [reflexivity|]. apply IH. lia.
Qed.

Lemma load_store_other (l l' : Schema.loc) (o : Schema.object) (h : Schema.heap) :
  l <> l' -> Schema.load l' (Schema.store l o h) = Schema.load l' h.
Proof.
  unfold Schema.load. revert l l'. induction h as [|x h IH]; intros l l' Hne.
  - now destruct l.
  - destruct l as [|l], l' as [|l']; cbn [Schema.store nth_error]; try reflexivity.
    + congruence.
    + apply IH. congruence.
Qed.

Lemma load_bound (l : Schema.loc) (o : Schema.object) (h : Schema.heap) :
  Schema.load l h = Some o -> l < List.length h.
Proof. unfold Schema.load. intros H. apply nth_error_Some. congruence. Qed.

Lemma load_alloc_old (l : Schema.loc) (o : Schema.object) (h : Schema.heap) :
  l < List.length h -> Schema.load l (h ++ [o]) = Schema.load l h.
Proof. unfold Schema.load. intros H. now apply nth_error_app1. Qed.

Lemma load_alloc_new (o : Schema.object) (h : Schema.heap) :
  Schema.load (List.length h) (h ++ [o]) = Some o.
Proof.
  unfold Schema.load. rewrite nth_error_app2 by lia. now rewrite Nat.sub_diag.
Qed.

Lemma prop_get_delete_same (k : string) (props : list (string * Schema.value)) :
  NoDup (map fst props) -> prop_get k (Schema.prop_delete k props) = None.
Proof.
  induction props as [|[k' v] props IH]; cbn [Schema.prop_delete map fst]; intros H;
    [reflexivity|].
  inversion H as [|? ? Hnotin Hnd]; subst.
  destruct (String.eqb_spec k k') as [->|Hne].
  - destruct (prop_get k' props) as [v'|] eqn:Hv; [|reflexivity].
    exfalso. apply Hnotin. clear -Hv.
    induction props as [|[k0 v0] props IH]; cbn [prop_get] in Hv; [discriminate|].
    cbn [map fst In]. destruct (String.eqb_spec k' k0) as [->|]; [now left|right; auto].
  - cbn [prop_get]. destruct (String.eqb_spec k k'); [contradiction|]. now apply IH.
Qed.

Lemma prop_get_delete_other (k k' : string) (props : list (string * Schema.value)) :
  k <> k' -> prop_get k' (Schema.prop_delete k props) = prop_get k' props.
Proof.
  intros Hne. induction props as [|[k0 v] props IH]; cbn [Schema.prop_delete]; [reflexivity|].
  destruct (String.eqb_spec k k0) as [->|Hne0]; cbn [prop_get].
  - destruct (String.eqb_spec k' k0); [congruence|reflexivity].
  - now rewrite IH.
Qed.

(** X25. The rewrite of a constant: an object with a [const] comes out
    with an [enum] that is a new array holding the constant alone, and
    without [const]; its other properties, and the other objects, are as
    they were. An object without [const] is left as it is. *)
Theorem constant_becomes_enum (target : Schema.loc) (h : Schema.heap)
        (props : list (string * Schema.value))
        (Htarget : Schema.load target h = Some (Schema.Obj props))
        (Hkeys : NoDup (map fst props)) :
  let h' := Schema.constToEnum target h in
  match prop_get "const" props with
  | Some c =>
      Schema.read (Schema.Ref target) "const" h' = Schema.Undefined
      /\ Schema.read (Schema.Ref target) "enum" h' = Schema.Ref (List.length h)
      /\ Schema.load (List.length h) h' = Some (Schema.Arr [c])
      /\ (forall k, k <> "const"%string -> k <> "enum"%string ->
                    Schema.read (Schema.Ref target) k h' = Schema.read (Schema.Ref target) k h)
      /\ forall l, l <> target -> l < List.length h -> Schema.load l h' = Schema.load l h
  | None => h' = h
  end.
Proof.
  intros h'. subst h'. unfold Schema.constToEnum. rewrite Htarget.
  destruct (prop_get "const" props) as [c|] eqn:Hc; [|reflexivity].
  cbn [Schema.alloc].
  pose proof (load_bound _ _ Htarget) as Hlt.
  assert (Hlt' : target < List.length (h ++ [Schema.Arr [c]]))
    by (rewrite length_app; cbn [List.length]; lia).
  set (props' := Schema.prop_delete "const" (prop_set "enum" (Schema.Ref (List.length h)) props)).
  assert (Hload : Schema.load target (Schema.store target (Schema.Obj props')
                                        (h ++ [Schema.Arr [c]])) = Some (Schema.Obj props'))
    by now apply load_store_same.
  repeat split.
  - unfold Schema.read. rewrite Hload. subst props'.
    rewrite prop_get_delete_same; [reflexivity|].
    now apply prop_set_NoDup.
  - unfold Schema.read. rewrite Hload. subst props'.
    rewrite prop_get_delete_other by discriminate. now rewrite prop_get_set_same.
  - rewrite load_store_other by lia. apply load_alloc_new.
  - intros k Hk1 Hk2. unfold Schema.read. rewrite Hload, Htarget. subst props'.
    rewrite prop_get_delete_other by congruence.
    rewrite prop_get_set_other by congruence. reflexivity.
  - intros l Hne Hl. rewrite load_store_other by congruence. now apply load_alloc_old.
Qed.

(** ** The controller registry *)

Lemma Set_add_In (x c : ControllerRegistry.Class) (registry : ControllerRegistry.Registry) :
  In c (ControllerRegistry.Set_add x registry) <-> c = x \/ In c registry.
Proof.
  unfold ControllerRegistry.Set_add.
  destruct (existsb (Nat.eqb x) registry) eqn:Hx.
  - split; [now right|]. intros [->|H]; [|exact H].
    apply existsb_exists in Hx. destruct Hx as (y & Hin & Hy).
    apply Nat.eqb_eq in Hy. now subst.
  - rewrite in_app_iff. cbn [In]. intuition congruence.
Qed.

Lemma Set_add_NoDup (x : ControllerRegistry.Class) (registry : ControllerRegistry.Registry) :
  NoDup registry -> NoDup (ControllerRegistry.Set_add x registry).
Proof.
  unfold ControllerRegistry.Set_add. intros Hnd.
  destruct (existsb (Nat.eqb x) registry) eqn:Hx; [exact Hnd|].
  apply NoDup_app; [exact Hnd|repeat constructor; intros []|].
  intros c Hin [Heq|[]]. subst c.
  assert (existsb (Nat.eqb x) registry = true); [|congruence].
  apply existsb_exists. exists x. split; [exact Hin|apply Nat.eqb_refl].
Qed.

Lemma Set_add_grows (x : ControllerRegistry.Class) (registry : ControllerRegistry.Registry) :
  exists new, ControllerRegistry.Set_add x registry = registry ++ new
              /\ forall c, In c new -> c = x.
Proof.
  unfold ControllerRegistry.Set_add. destruct (existsb (Nat.eqb x) registry).
  - exists []. split; [now rewrite app_nil_r|intros ? []].
  - exists [x]. split; [reflexivity|]. intros c [<-|[]]. reflexivity.
Qed.

Lemma decorateAll_registry (ds : list (ControllerRegistry.Class * DecoratorContext))
      (registry registry' : ControllerRegistry.Registry) (e : option Error) :
  ControllerRegistry.decorateAll ds registry = (registry', e) ->
  (NoDup registry -> NoDup registry')
  /\ (exists new, registry' = registry ++ new /\ forall c, In c new -> In c (map fst ds))
  /\ (e = None ->
      (forall c, In c (map fst ds) -> In c registry')
      /\ forall d, In d ds -> kind (snd d) = KClass).
Proof.
  revert registry. induction ds as [|[target context] ds IH]; intros registry H;
    cbn [ControllerRegistry.decorateAll] in H.
  - inversion H; subst. split; [auto|]. split.
    + exists []. split; [now rewrite app_nil_r|intros ? []].
    + intros _. split; [intros ? []|intros ? []].
  - unfold ControllerRegistry.controller in H.
    destruct (kind context) eqn:Hk;
      try (inversion H; subst; split; [auto|]; split;
           [exists []; split; [now rewrite app_nil_r|intros ? []]|discriminate]).
    destruct (IH _ H) as (Hnd & (new & Hnew & Hfrom) & Hall).
    destruct (Set_add_grows target registry) as (new0 & Hnew0 & Hfrom0).
    split; [|split].
    + intros Hreg. apply Hnd. now apply Set_add_NoDup.
    + exists (new0 ++ new). split.
      * rewrite Hnew, Hnew0. now rewrite app_assoc.
      * intros c Hc. cbn [map fst In]. apply in_app_or in Hc.
        destruct Hc as [Hc|Hc]; [left; symmetry; now apply Hfrom0|right; now apply Hfrom].
    + intros He. destruct (Hall He) as [Hin Hkinds]. split.
      * intros c [<-|Hc]; [|now apply Hin].
        rewrite Hnew. apply in_or_app. left. apply Set_add_In. now left.
      * intros d [<-|Hd]; [exact Hk|now apply Hkinds].
Qed.

(** X26. The registry lists each class once, in the order of the first
    application of the decorator: after applications that all succeed,
    the classes are those that were registered before, as they were,
    followed by the classes decorated that were not, and every
    application was to a class. *)
Theorem registry_lists_classes_once
        (ds : list (ControllerRegistry.Class * DecoratorContext))
        (registry registry' : ControllerRegistry.Registry)
        (Hregistry : NoDup registry)
        (Hrun : ControllerRegistry.decorateAll ds registry = (registry', None)) :
  NoDup (ControllerRegistry.getControllerClasses registry')
  /\ (exists new, ControllerRegistry.getControllerClasses registry' = registry ++ new)
  /\ (forall c, In c (ControllerRegistry.getControllerClasses registry')
                <-> In c registry \/ In c (map fst ds))
  /\ forall d, In d ds -> kind (snd d) = KClass.
Proof.
  unfold ControllerRegistry.getControllerClasses.
  destruct (decorateAll_registry _ _ Hrun) as (Hnd & (new & Hnew & Hfrom) & Hall).
  destruct (Hall eq_refl) as [Hin Hkinds].
  split; [now apply Hnd|]. split; [now exists new|]. split; [|exact Hkinds].
  intros c. split.
  - rewrite Hnew. intros Hc. apply in_app_or in Hc. destruct Hc; [now left|right; auto].
  - intros [Hc|Hc]; [|now apply Hin]. rewrite Hnew. apply in_or_app. now left.
Qed.

Lemma importAll_registry
      (moduleOf : string -> list (ControllerRegistry.Class * DecoratorContext) * option Error)
      (files : list string)
      (registry registry' : ControllerRegistry.Registry) :
  ControllerRegistry.importAll moduleOf files registry = (registry', None) ->
  (exists new, registry' = registry ++ new
               /\ forall c, In c new ->
                    exists file, In file files /\ In c (map fst (fst (moduleOf file))))
  /\ forall file c, In file files -> In c (map fst (fst (moduleOf file))) -> In c registry'.
Proof.
  revert registry. induction files as [|file files IH]; intros registry H;
    cbn [ControllerRegistry.importAll] in H.
  - inversion H; subst. split; [|intros ? ? []].
    exists []. split; [now rewrite app_nil_r|intros ? []].
  - unfold ControllerRegistry.import in H.
    destruct (ControllerRegistry.decorateAll (fst (moduleOf file)) registry)
      as [registry1 [e|]] eqn:Hdec; [discriminate|].
    destruct (snd (moduleOf file)); [discriminate|].
    destruct (decorateAll_registry _ _ Hdec) as (_ & (new1 & Hnew1 & Hfrom1) & Hall1).
    destruct (Hall1 eq_refl) as [Hin1 _].
    destruct (IH _ H) as ((new & Hnew & Hfrom) & Hin).
    split.
    + exists (new1 ++ new). split; [rewrite Hnew, Hnew1; now rewrite app_assoc|].
      intros c Hc. apply in_app_or in Hc. destruct Hc as [Hc|Hc].
      * exists file. split; [now left|now apply Hfrom1].
      * destruct (Hfrom c Hc) as (file' & Hf & Hc'). exists file'. split; [now right|exact Hc'].
    + intros file' c [<-|Hf] Hc; [|now apply (Hin file')].
      rewrite Hnew. apply in_or_app. left. now apply Hin1.
Qed.

(** X27. A scan that resolves returns the whole registry: the classes
    that were registered before the scan, first and as they were, then
    classes that the modules of the files found have registered; every
    class that such a module decorates is among them. *)
Theorem scan_returns_whole_registry
        (globSync : Pattern -> list string)
        (moduleOf : string -> list (ControllerRegistry.Class * DecoratorContext) * option Error)
        (patterns : Pattern) (registry registry' : ControllerRegistry.Registry)
        (classes : list ControllerRegistry.Class)
        (Hscan : ControllerRegistry.scanControllerClasses globSync moduleOf patterns registry
                 = (registry', Ok classes)) :
  classes = ControllerRegistry.getControllerClasses registry'
  /\ (exists new, classes = registry ++ new
                  /\ forall c, In c new ->
                       exists file, In file (globSync patterns)
                                    /\ In c (map fst (fst (moduleOf file))))
  /\ forall file c, In file (globSync patterns) ->
                    In c (map fst (fst (moduleOf file))) -> In c classes.
Proof.
  unfold ControllerRegistry.scanControllerClasses in Hscan.
  destruct (ControllerRegistry.importAll moduleOf (globSync patterns) registry)
    as [registry1 [e|]] eqn:Himp; inversion Hscan; subst.
  split; [reflexivity|]. unfold ControllerRegistry.getControllerClasses.
  exact (importAll_registry _ _ _ Himp).
Qed.

(** ** OpenAPI.initialize *)





(** ** The further properties on the example classes *)

(** A decorator on a field. *)
Lemma decorators_reject_other_targets_witness :
  summary "Log in" onField = Err UnsupportedTarget
  /\ path "/login" onField = Err UnsupportedTarget.
Proof.
  assert (Hkind : kind onField <> KMethod) by discriminate.
  destruct (decorators_reject_other_targets onField Hkind) as (Hs & _ & _ & _ & Hrest).
  split; [apply Hs|].
  assert (Hclass : kind onField <> KClass) by discriminate.
  destruct (Hrest Hclass) as (_ & Hp & _). apply Hp.
Defined.

Lemma decorators_need_metadata_witness :
  path "/login" withoutMetadata = Err MetadataUnavailable
  /\ summary "Log in" withoutMetadata = Err MetadataUnavailable.
Proof.
  destruct (decorators_need_metadata withoutMetadata eq_refl (or_intror eq_refl))
    as (_ & Hp & _ & _ & _ & Hrest).
  split; [apply Hp|]. destruct (Hrest eq_refl) as (Hs & _). apply Hs.
Defined.

Lemma path_frame_witness :
  exists md',
    path "/login" onLoginFn = Ok md'
    /\ lookup (Name "loginFn") (PATH md') = Some ["/login"]
    /\ map fst (orElse (PATH md') []) = [Name "loginFn"].
Proof.
  destruct (@path_frame onLoginFn emptyMetadata "/login" eq_refl (or_intror eq_refl))
    as (md' & H1 & H2 & _ & H3 & _).
  exists md'. split; [exact H1|]. split; [exact H2|exact H3].
Defined.

Lemma method_once_witness :
  exists md',
    method POST onLoginFn = Ok md'
    /\ lookup (Name "loginFn") (METHOD md') = Some POST.
Proof.
  destruct (@method_once onLoginFn emptyMetadata POST eq_refl (or_intror eq_refl))
    as [Hfree _].
  destruct (Hfree eq_refl) as (md' & H1 & H2 & _).
  exists md'. split; [exact H1|exact H2].
Defined.

Lemma registerControllers_app_witness :
  registerControllers true (Some []) (Many ([User] ++ [ById]))
  = Ok (map routeOf (operations [User]) ++ map routeOf (operations [ById]),
        Some (map callOf (operations [User; ById]))).
Proof.
  apply (@registerControllers_app [] [User] [ById]
           (map routeOf (operations [User])) (map routeOf (operations [ById]))
           (map callOf (operations [User])) (map callOf (operations [User; ById])));
    reflexivity.
Defined.

Lemma registrar_mirrors_records_witness :
  map callOf (operations [ById])
  = [] ++ map (fun i => {| reg_verb := toLowerCase (info_method i);
                           reg_path := info_path i;
                           reg_middlewares := info_middlewares i;
                           reg_handler := info_handler i |})
              (map routeOf (operations [ById]))
  /\ registerControllers true None (One ById) = Ok (map routeOf (operations [ById]), None).
Proof.
  apply (@registrar_mirrors_records [] (One ById)). reflexivity.
Defined.

Lemma translate_parameter_witness :
  oaPathOf ("/users/" ++ ":" ++ "id" ++ "/posts")
  = ("/users/" ++ "{" ++ "id" ++ "}" ++ oaPathOf "/posts")%string
  /\ parametersOf ("/users/" ++ ":" ++ "id" ++ "/posts")
     = JObj Fresh [("name", JStr "id"); ("in", JStr "path"); ("required", JBool true);
                   ("schema", JObj Fresh [("type", JStr "string")])]
       :: parametersOf "/posts".
Proof. apply translate_parameter; reflexivity. Defined.

Lemma translate_parameter_pattern_witness :
  oaPathOf ("/u/" ++ ":" ++ "id" ++ "(" ++ "[0-9]+" ++ ")" ++ "")
  = ("/u/" ++ "{" ++ "id" ++ "}" ++ oaPathOf "")%string
  /\ parametersOf ("/u/" ++ ":" ++ "id" ++ "(" ++ "[0-9]+" ++ ")" ++ "")
     = JObj Fresh
         [("name", JStr "id"); ("in", JStr "path"); ("required", JBool true);
          ("schema",
           if isEnumList "[0-9]+"
           then JObj Fresh [("type", JStr "string");
                            ("enum", JArr Fresh (map JStr (split "|" "[0-9]+")))]
           else JObj Fresh [("type", JStr "string"); ("pattern", JStr "[0-9]+")])]
       :: parametersOf "".
Proof. apply translate_parameter_pattern; reflexivity. Defined.


(** The PUT of the base document is kept beside the GET of [ByDigits]. *)
Lemma base_slots_survive_witness :
  match getOpenAPISchema noSchemas true documentWithPut (One ByDigits) None with
  | Ok doc => docSlot doc ("/u/{id}", "put")%string = Some (structuredClone (JObj (Held 5) []))
  | Err _ => False
  end.
Proof.
  destruct (getOpenAPISchema noSchemas true documentWithPut (One ByDigits) None)
    as [doc|e] eqn:E.
  - apply (@base_slots_survive noSchemas documentWithPut (One ByDigits) None doc E);
      reflexivity.
  - vm_compute in E. discriminate E.
Defined.

Lemma document_slots_origin_witness :
  match getOpenAPISchema noSchemas true documentWithPut (One ByDigits) None with
  | Ok doc =>
      (exists v0, docSlot documentWithPut ("/u/{id}", "put")%string = Some v0
                  /\ JObj Fresh [] = structuredClone v0)
      \/ (exists op, In op (operations (asArray (One ByDigits)))
                     /\ ("/u/{id}", "put")%string = slotOf op
                     /\ op_operation op = Ok (JObj Fresh []))
      \/ (exists op, In op (operations (asArray (One ByDigits)))
                     /\ ("/u/{id}", "put")%string = (oaPathOf (op_path op), "parameters")%string
                     /\ parametersField (op_path op) = Some (JObj Fresh [])
                     /\ forall k, docSlot documentWithPut (oaPathOf (op_path op), k) = None)
  | Err _ => False
  end.
Proof.
  destruct (getOpenAPISchema noSchemas true documentWithPut (One ByDigits) None)
    as [doc|e] eqn:E.
  - apply (@document_slots_origin noSchemas documentWithPut (One ByDigits) None doc E).
    vm_compute in E. inversion E. reflexivity.
  - vm_compute in E. discriminate E.
Defined.

Lemma path_parameters_witness :
  match getOpenAPISchema noSchemas true minimalDocument (One ById) None with
  | Ok doc => docSlot doc ("/u/{id}", "parameters")%string = parametersField (op_path byId)
  | Err _ => False
  end.
Proof.
  destruct (getOpenAPISchema noSchemas true minimalDocument (One ById) None)
    as [doc|e] eqn:E.
  - apply (@path_parameters noSchemas minimalDocument (One ById) None doc E).
    + intros bp Hbp. discriminate Hbp.
    + reflexivity.
  - vm_compute in E. discriminate E.
Defined.

Lemma operation_tags_witness :
  match op_operation replaceAccount with
  | Ok j =>
      exists tags,
        get "tags" j = match tags with [] => JUndef | _ => JArr Fresh (map JStr tags) end
        /\ tags = dedupe [] ["users"]
                  ++ filter (fun t => negb (inList ["users"] t)) (dedupe [] ["users"; "admin"])
        /\ NoDup tags
        /\ forall t, In t tags <-> In t ["users"] \/ In t ["users"; "admin"]
  | Err _ => False
  end.
Proof.
  destruct (op_operation replaceAccount) as [j|e] eqn:E.
  - exact (@operation_tags replaceAccount j E).
  - vm_compute in E. discriminate E.
Defined.

Lemma operation_id_witness :
  match op_operation replaceAccount with
  | Ok j => get "operationId" j = JStr "replaceAccount"
  | Err _ => False
  end.
Proof.
  destruct (op_operation replaceAccount) as [j|e] eqn:E.
  - destruct (@operation_id replaceAccount j E) as [Hgiven _].
    apply (Hgiven "replaceAccount"); reflexivity.
  - vm_compute in E. discriminate E.
Defined.

Lemma operation_request_body_witness :
  match op_operation replaceAccount with
  | Ok j =>
      get "requestBody" j
      = JObj Fresh
          [("content", JObj Fresh
              [("application/json", JObj Fresh [("schema", nameToSchemaRef "Account")])]);
           ("required", JBool true)]
  | Err _ => False
  end.
Proof.
  destruct (op_operation replaceAccount) as [j|e] eqn:E.
  - destruct (@operation_request_body replaceAccount j E) as [Hname _].
    apply (Hname "Account"). reflexivity.
  - vm_compute in E. discriminate E.
Defined.

Lemma operation_responses_witness :
  match op_operation replaceAccount with
  | Ok j =>
      exists oaResponses,
        get "responses" j = JObj Fresh oaResponses
        /\ NoDup (map fst oaResponses)
        /\ forall k, In k (map fst oaResponses)
                     <-> exists r, In r (op_responses replaceAccount)
                                   /\ String_of_code (r_code r) = k
  | Err _ => False
  end.
Proof.
  destruct (op_operation replaceAccount) as [j|e] eqn:E.
  - destruct (@operation_responses replaceAccount j E) as [_ Hsome].
    apply Hsome. discriminate.
  - vm_compute in E. discriminate E.
Defined.

Lemma derived_schemas_merged_witness :
  match getOpenAPISchema statusSchemas true minimalDocument (One ById)
                         (Some (PString "Status.d.mts")) with
  | Ok doc =>
      docSchema doc "Status"
      = match prop_get "Status"
                       (rev [("Status", JObj Fresh [("type", JStr "string");
                                                    ("const", JStr "active")])]) with
        | Some schema => Some schema
        | None => option_map structuredClone (docSchema minimalDocument "Status")
        end
  | Err _ => False
  end.
Proof.
  destruct (getOpenAPISchema statusSchemas true minimalDocument (One ById)
                             (Some (PString "Status.d.mts"))) as [doc|e] eqn:E.
  - apply (@derived_schemas_merged statusSchemas minimalDocument (One ById)
             (PString "Status.d.mts") _ doc E); reflexivity.
  - vm_compute in E. discriminate E.
Defined.

Lemma empty_schema_source_witness :
  getOpenAPISchema statusSchemas true minimalDocument (One ById) (Some (PString ""))
  = getOpenAPISchema noSchemas true minimalDocument (One ById) None.
Proof. apply empty_schema_source. left. reflexivity. Defined.

Lemma component_name_witness :
  (forall rest, Schema.beforeDot ("User" ++ "." ++ rest) = "User"%string)
  /\ Schema.beforeDot "User" = "User"%string.
Proof. apply component_name. reflexivity. Defined.

Lemma derived_schema_names_witness :
  (forall filename, ~ In (filename, Schema.Throws)
                         [("Status.d.mts", Schema.Returns (Schema.Ref 0))])
  /\ NoDup (map fst [("Status", Schema.Ref 0)])
  /\ (forall k, In k (map fst [("Status", Schema.Ref 0)])
                <-> exists filename schema,
                      In (filename, Schema.Returns schema)
                         [("Status.d.mts", Schema.Returns (Schema.Ref 0))]
                      /\ Schema.isTruthy schema = true
                      /\ Schema.beforeDot filename = k)
  /\ forall before filename schema later,
       [("Status.d.mts", Schema.Returns (Schema.Ref 0))]
       = before ++ (filename, Schema.Returns schema) :: later ->
       Schema.isTruthy schema = true ->
       (forall filename' schema',
           In (filename', Schema.Returns schema') later ->
           Schema.isTruthy schema' = true ->
           Schema.beforeDot filename' <> Schema.beforeDot filename) ->
       prop_get (Schema.beforeDot filename) [("Status", Schema.Ref 0)] = Some schema.
Proof.
  apply (@derived_schema_names 8 [("Status.d.mts", Schema.Returns (Schema.Ref 0))]
           statusHeap
           [Schema.Obj [("type", Schema.Str "string"); ("const", Schema.Str "active")];
            Schema.Obj []]).
  reflexivity.
Defined.

(** The second object of [itemHeap]'s fourth entry: [{ type: 'string', const: 't' }]. *)
Lemma constant_becomes_enum_witness :
  Schema.read (Schema.Ref 3) "const" (Schema.constToEnum 3 itemHeap) = Schema.Undefined
  /\ Schema.read (Schema.Ref 3) "enum" (Schema.constToEnum 3 itemHeap) = Schema.Ref 7
  /\ Schema.load 7 (Schema.constToEnum 3 itemHeap) = Some (Schema.Arr [Schema.Str "t"])
  /\ (forall k, k <> "const"%string -> k <> "enum"%string ->
                Schema.read (Schema.Ref 3) k (Schema.constToEnum 3 itemHeap)
                = Schema.read (Schema.Ref 3) k itemHeap)
  /\ forall l, l <> 3 -> l < 7 ->
               Schema.load l (Schema.constToEnum 3 itemHeap) = Schema.load l itemHeap.
Proof.
  refine (@constant_becomes_enum 3 itemHeap
            [("type", Schema.Str "string"); ("const", Schema.Str "t")] eq_refl _).
  repeat constructor; cbn [In]; intuition discriminate.
Defined.

Lemma registry_lists_classes_once_witness :
  NoDup (ControllerRegistry.getControllerClasses [1; 2])
  /\ (exists new, ControllerRegistry.getControllerClasses [1; 2] = [] ++ new)
  /\ (forall c, In c (ControllerRegistry.getControllerClasses [1; 2])
                <-> In c [] \/ In c (map fst [(1, onClass); (2, onClass); (1, onClass)]))
  /\ forall d, In d [(1, onClass); (2, onClass); (1, onClass)] -> kind (snd d) = KClass.
Proof.
  apply (@registry_lists_classes_once [(1, onClass); (2, onClass); (1, onClass)] [] [1; 2]).
  - constructor.
  - reflexivity.
Defined.

Lemma scan_returns_whole_registry_witness :
  [5; 1] = ControllerRegistry.getControllerClasses [5; 1]
  /\ (exists new, [5; 1] = [5] ++ new
                  /\ forall c, In c new ->
                       exists file, In file (oneFile (PString "controllers/*.mjs"))
                                    /\ In c (map fst (fst (oneModule file))))
  /\ forall file c, In file (oneFile (PString "controllers/*.mjs")) ->
                    In c (map fst (fst (oneModule file))) -> In c [5; 1].
Proof.
  apply (@scan_returns_whole_registry oneFile oneModule (PString "controllers/*.mjs")
           [5] [5; 1] [5; 1]).
  reflexivity.
Defined.


